(** * Data_crawler: the polite crawl engine and its variants

    A shallow embedding of the crawl engine of
    [polite_crawler_enhanced.py], of the checks of
    [security_crawler_enhanced.py] on headers, cookies, URLs, the CMS
    and sensitive files, and of the crawl loop and the link extractor
    of [crawler_app.py], followed by the properties of the engine.

    Python objects are records, [self] is threaded through a state and
    exception monad, and everything the scripts obtain from outside
    (the network, the HTML parser, [urllib.parse], the file system, the
    clock) is a field of a [World]. *)

From Stdlib Require Import ZArith QArith List Ascii String DecimalString Lia Bool.
From stdpp Require Import base decidable option list strings gmap.

Local Open Scope string_scope.
Local Open Scope list_scope.
Local Open Scope Z_scope.

(** ** Python strings and [os.path] *)

Module Py.

(** [s.startswith(p)] *)
Fixpoint startswith (p s : string) : bool :=
  match p, s with
  | EmptyString, _ => true
  | String a p', String b s' => if Ascii.eqb a b then startswith p' s' else false
  | String _ _, EmptyString => false
  end.

(** [p in s] for strings *)
Fixpoint contains (p s : string) : bool :=
  if startswith p s then true
  else match s with
       | EmptyString => false
       | String _ s' => contains p s'
       end.

(** [c in s] for a single character *)
Fixpoint has_char (c : ascii) (s : string) : bool :=
  match s with
  | EmptyString => false
  | String b s' => if Ascii.eqb b c then true else has_char c s'
  end.

(** [s.split(c)[0]]: the part of [s] before the first [c]. *)
Fixpoint split_first (c : ascii) (s : string) : string :=
  match s with
  | EmptyString => EmptyString
  | String b s' => if Ascii.eqb b c then EmptyString else String b (split_first c s')
  end.

(** [s.lstrip(c)] and [s.strip(c)] for a one-character argument. *)
Fixpoint lstrip (c : ascii) (s : string) : string :=
  match s with
  | String b s' => if Ascii.eqb b c then lstrip c s' else s
  | EmptyString => EmptyString
  end.

Fixpoint rev_append (s acc : string) : string :=
  match s with
  | EmptyString => acc
  | String b s' => rev_append s' (String b acc)
  end.

Definition rev (s : string) : string := rev_append s EmptyString.

Definition strip (c : ascii) (s : string) : string :=
  rev (lstrip c (rev (lstrip c s))).

(** [s.replace(old, new)] for a non-empty [old]: scanned left to right,
    [skip] counts the characters of a match still to be dropped. *)
Fixpoint replace_from (old new : string) (skip : nat) (s : string) : string :=
  match s with
  | EmptyString => EmptyString
  | String b s' =>
      match skip with
      | S k => replace_from old new k s'
      | O =>
          if startswith old s
          then new +:+ replace_from old new (Nat.pred (String.length old)) s'
          else String b (replace_from old new O s')
      end
  end.

Definition replace (old new s : string) : string := replace_from old new O s.

(** [s.lower()] on ASCII letters *)
Definition lower_ascii (a : ascii) : ascii :=
  let n := nat_of_ascii a in
  if (Nat.leb 65 n && Nat.leb n 90)%bool then ascii_of_nat (n + 32) else a.

Fixpoint lower (s : string) : string :=
  match s with
  | EmptyString => EmptyString
  | String b s' => String (lower_ascii b) (lower s')
  end.

(** Truth value of a string, and of an optional string ([None] is false). *)
Definition truthy (s : string) : bool :=
  match s with EmptyString => false | _ => true end.

Definition truthy_opt (o : option string) : bool :=
  match o with Some s => truthy s | None => false end.

(** [a or b] on optional strings *)
Definition or_else (a b : option string) : option string :=
  if truthy_opt a then a else b.

(** [len(s)] *)
Definition len (s : string) : Z := Z.of_nat (String.length s).

(** [posixpath.basename]: what follows the last slash. *)
Fixpoint basename_from (s acc : string) : string :=
  match s with
  | EmptyString => rev acc
  | String b s' =>
      if Ascii.eqb b "/" then basename_from s' EmptyString
      else basename_from s' (String b acc)
  end.

Definition basename (p : string) : string := basename_from p EmptyString.

Definition endswith_slash (s : string) : bool :=
  match rev s with
  | String b _ => Ascii.eqb b "/"
  | EmptyString => false
  end.

(** [posixpath.join(a, b)] *)
Definition path_join (a b : string) : string :=
  if startswith "/" b then b
  else if (negb (truthy a) || endswith_slash a)%bool then a +:+ b
  else a +:+ "/" +:+ b.

(** [str(n)] for an integer *)
Definition str_of_Z (n : Z) : string :=
  DecimalString.NilZero.string_of_int (Z.to_int n).

(** [round(n / d, 0)] on exact rationals, [d > 0]: ties go to the even
    neighbour, as Python's [round] does. *)
Definition round_half_even (n d : Z) : Z :=
  let q := n / d in
  let r := n mod d in
  if 2 * r <? d then q
  else if d <? 2 * r then q + 1
  else if Z.even q then q else q + 1.

(** [sep.join(l)] *)
Fixpoint join (sep : string) (l : list string) : string :=
  match l with
  | [] => EmptyString
  | [x] => x
  | x :: l' => x +:+ sep +:+ join sep l'
  end.

End Py.

(** ** Exceptions, results and the state monad of a method call *)

(** The exception classes the scripts can meet.  [RequestException]
    stands for [requests.RequestException] and its subclasses
    (connection errors, timeouts, [HTTPError]); the others are built-in
    classes.  The argument is [str(e)]. *)
Inductive Exn : Type :=
| RequestException (msg : string)
| OSError (msg : string)
| KeyError (key : string)
| ValueError (msg : string)
| UnicodeDecodeError (msg : string)
| URLError (msg : string)
| IndexError (msg : string)
| OtherException (msg : string).

Definition exn_str (e : Exn) : string :=
  match e with
  | RequestException m | OSError m | ValueError m
  | UnicodeDecodeError m | URLError m | IndexError m | OtherException m => m
  | KeyError k => "'" +:+ k +:+ "'"
  end.

(** [except requests.RequestException] *)
Definition is_RequestException (e : Exn) : bool :=
  match e with RequestException _ => true | _ => false end.

(** [except Exception] and a bare [except] *)
Definition is_Exception (e : Exn) : bool := true.

(** Outcome of a call: a value, a raised exception, or a loop that was
    cut off because its fuel ran out. *)
Inductive Result (A : Type) : Type :=
| Ok (a : A)
| Raise (e : Exn)
| OutOfFuel.
Arguments Ok {A} a.
Arguments Raise {A} e.
Arguments OutOfFuel {A}.

Definition M (S A : Type) : Type := S -> Result A * S.

Definition ret {S A} (a : A) : M S A := fun s => (Ok a, s).

Definition bind {S A B} (m : M S A) (k : A -> M S B) : M S B :=
  fun s =>
    match m s with
    | (Ok a, s') => k a s'
    | (Raise e, s') => (Raise e, s')
    | (OutOfFuel, s') => (OutOfFuel, s')
    end.

Definition raise {S A} (e : Exn) : M S A := fun s => (Raise e, s).

Definition out_of_fuel {S A} : M S A := fun s => (OutOfFuel, s).

(** [try: m  except <catches> as e: handler(e)]; what the body changed
    before it raised stays changed. *)
Definition try_except {S A} (m : M S A) (catches : Exn -> bool)
    (handler : Exn -> M S A) : M S A :=
  fun s =>
    match m s with
    | (Raise e, s') => if catches e then handler e s' else (Raise e, s')
    | r => r
    end.

Definition gets {S A} (f : S -> A) : M S A := fun s => (Ok (f s), s).
Definition modify {S} (f : S -> S) : M S unit := fun s => (Ok tt, f s).

Declare Scope py_scope.
Delimit Scope py_scope with py.
Notation "x <- m ;; k" := (bind m (fun x => k))
  (at level 100, m at next level, right associativity) : py_scope.
Notation "m ;; k" := (bind m (fun _ => k))
  (at level 100, right associativity) : py_scope.
Local Open Scope py_scope.

(** [for x in l: body(x)] *)
Fixpoint for_each {S A} (l : list A) (body : A -> M S unit) : M S unit :=
  match l with
  | [] => ret tt
  | x :: l' => body x ;; for_each l' body
  end.

(** [if c: body] *)
Definition when {S} (c : bool) (body : M S unit) : M S unit :=
  if c then body else ret tt.

(** [for x in l: acc = body(acc, x)], for loops that build a local value *)
Fixpoint for_fold {S A B} (l : list A) (acc : B) (body : B -> A -> M S B) : M S B :=
  match l with
  | [] => ret acc
  | x :: l' => acc' <- body acc x ;; for_fold l' acc' body
  end.

(** [for x in l: body(x)] for a body that may leave the loop, with
    [break] or [return]: the body returns [true] when it does, and so
    does the loop. *)
Fixpoint for_until {S A} (l : list A) (body : A -> M S bool) : M S bool :=
  match l with
  | [] => ret false
  | x :: l' => left_loop <- body x ;; if left_loop then ret true else for_until l' body
  end.

(** ** The outside world *)

Inductive LogLevel : Type := DEBUG | INFO | WARNING | ERROR.

(** One constructor per logging call of the scripts; the comment gives
    the format string. *)
Inductive LogMsg : Type :=
| CreatedFolders (domain : string)             (* Created folder structure at {domain}/ *)
| ParsedRobots (robots_url : string)           (* Successfully parsed robots.txt from {robots_url} *)
| CouldNotReadRobots (e : string)              (* Could not read robots.txt: {e} *)
| FailedDownload (url : string) (attempts : Z) (e : string)
                                               (* Failed to download {url} after {MAX_RETRIES} attempts: {e} *)
| AssetExists (filename : string)              (* Asset already exists: {filename} *)
| DownloadedAsset (asset_type filename : string) (size : Z)
                                               (* Downloaded {asset_type}: {filename} ({file_size} bytes) *)
| ErrorDownloadingAsset (url e : string)       (* Error downloading asset {url}: {e} *)
| ProcessingPage (url : string)                (* Processing page: {url} *)
| RobotsDisallows (url : string)               (* robots.txt disallows fetching: {url} *)
| ErrorProcessingPage (url e : string)         (* Error processing page {url}: {e} *)
| StartingCrawl (url : string)                 (* Starting crawl of {start_url} *)
| SleepingFor (delay : Q)                      (* Sleeping for {delay} seconds... *)
| ResultsSaved (path : string)                 (* Results saved to {json_path} *)
| StartingCrawlIndustrial (url : string)       (* Starting crawl: {start_url} *)
| Crawled (pages max_pages : Z) (url : string) (* Crawled [{pages}/{max_pages}]: {url} *)
| ErrorCrawling (url e : string).              (* Error crawling {url}: {e} *)

(** [requests.Response], as far as the scripts look at it. *)
Record Response : Type := {
  status_code : Z;
  reason : string;
  resp_url : string;
  headers : list (string * string);
  text : string;
  chunks : list string;          (* what [iter_content(1024)] yields *)
  stream_error : option Exn      (* raised by [iter_content] after the chunks, if any *)
}.

(** [Response.raise_for_status]: an [HTTPError] for 4xx and 5xx, nothing
    for any other status. *)
Definition http_error_msg (r : Response) : option string :=
  if (400 <=? status_code r) && (status_code r <? 500) then
    Some (Py.str_of_Z (status_code r) +:+ " Client Error: " +:+ reason r
          +:+ " for url: " +:+ resp_url r)
  else if (500 <=? status_code r) && (status_code r <? 600) then
    Some (Py.str_of_Z (status_code r) +:+ " Server Error: " +:+ reason r
          +:+ " for url: " +:+ resp_url r)
  else None.

Definition raise_for_status {S} (r : Response) : M S unit :=
  match http_error_msg r with
  | Some msg => raise (RequestException msg)
  | None => ret tt
  end.

(** [Response.ok], which is also [bool(response)]: [not response] holds
    of [None] and of a response that is not [ok]. *)
Definition ok (r : Response) : bool :=
  match http_error_msg r with Some _ => false | None => true end.

(** [name in response.headers]: the header names of a response are
    compared without regard to case. *)
Definition header_in (name : string) (hs : list (string * string)) : bool :=
  existsb (fun kv => String.eqb (Py.lower (fst kv)) (Py.lower name)) hs.

(** What a [session.get] produces. *)
Inductive HttpOutcome : Type :=
| Responded (r : Response)
| Failed (msg : string)      (* a [requests.RequestException]: connection error, timeout, ... *)
| Raised (e : Exn).          (* an exception that [requests] lets through as it is, such as
                                urllib3's [LocationParseError], a [ValueError], for a host
                                with an empty label *)

(** What reading [robots.txt] inside [RobotFileParser.read] produces. *)
Inductive RobotsFetch : Type :=
| RobotsHTTPError (code : Z)       (* [urlopen] raised [HTTPError] with this code *)
| RobotsRaised (e : Exn)           (* [urlopen] or [decode] raised anything else *)
| RobotsRules (rules : string -> string -> Exn + bool).
                                   (* the file was read and parsed; [rules agent url] is the
                                      answer of its entries *)

(** [urllib.parse.urlparse] *)
Record ParseResult : Type := {
  scheme : string;
  netloc : string;
  path : string;
  params : string;
  query : string;
  fragment : string
}.

Record Img : Type := { img_src : option string; img_data_src : option string }.

(** A parsed document, as far as the scripts query it. *)
Record Soup : Type := {
  soup_prettify : string;               (* [soup.prettify()] *)
  soup_title : option (option string);  (* [soup.title], then [.string] *)
  soup_imgs : list Img;                 (* [find_all("img")] *)
  soup_stylesheets : list (option string);  (* [href] of each [link rel=stylesheet] *)
  soup_scripts : list (option string);  (* [src] of each [script] *)
  soup_svgs : list string;              (* [prettify()] of each [svg] *)
  soup_anchors : list string            (* [href] of each [a] that has one *)
}.

(** Everything the scripts take from outside.  A request is answered by
    its rank among the requests of the run, so that a retry may get
    another answer. *)
Record World : Type := {
  http_get : nat -> string -> HttpOutcome;
  robots_fetch : RobotsFetch;
  parse_html : string -> Exn + Soup;          (* [BeautifulSoup(text, "html.parser")] *)
  urlparse : string -> Exn + ParseResult;
  urljoin : string -> string -> Exn + string;
  open_error : string -> option Exn;          (* [open(path, "w")] fails *)
  write_error : string -> string -> option Exn;
                                              (* [f.write(data)] fails, for the file at the
                                                 path *)
  makedirs_error : string -> option Exn;      (* [os.makedirs(path, exist_ok=True)] fails *)
  extract_all : string -> string -> option Exn;
                                              (* [DataExtractor.extract_all(html, url)] raises;
                                                 what it returns is not looked at *)
  clock : nat -> Z                            (* the time in microseconds, by the number of
                                                 events that happened before *)
}.

Record Progress : Type := {
  p_pages_crawled : Z;
  p_max_pages : Z;
  p_current_url : string;
  p_assets_downloaded : Z;
  p_queue_size : Z
}.

(** What a run does to the outside, in order. *)
Inductive Event : Type :=
| EvLog (level : LogLevel) (msg : LogMsg)
| EvGet (url : string) (stream : bool) (timeout : Z)   (* [session.get] *)
| EvSleep (seconds : Q)                                (* [time.sleep] *)
| EvMakedirs (path : string)
| EvOpen (path : string)                               (* [open(path, "w")] *)
| EvWrite (path : string) (data : string)              (* [f.write] *)
| EvProgress (p : Progress)                            (* [progress_callback] *)
| EvProgressIndustrial (current total : Z) (url : string)
| EvUrlopen (url : string)                             (* [urllib.request.urlopen] *)
| EvJsonDump (path : string)                           (* [json.dump(self.results, f)] *)
| EvPrintSummary.

Record Env : Type := { trace : list Event; fs : gset string }.

Record State (Self : Type) : Type := { env : Env; self : Self }.
Arguments env {Self} s.
Arguments self {Self} s.

(** ** Effects on the outside *)

Definition gets_self {Self A} (f : Self -> A) : M (State Self) A :=
  gets (fun s => f (self s)).

Definition modify_self {Self} (f : Self -> Self) : M (State Self) unit :=
  modify (fun s => {| env := env s; self := f (self s) |}).

Definition emit {Self} (e : Event) : M (State Self) unit :=
  modify (fun s => {| env := {| trace := trace (env s) ++ [e]; fs := fs (env s) |};
                      self := self s |}).

Definition logger {Self} (level : LogLevel) (msg : LogMsg) : M (State Self) unit :=
  emit (EvLog level msg).

Definition time_sleep {Self} (seconds : Q) : M (State Self) unit :=
  emit (EvSleep seconds).

Definition is_get (e : Event) : bool :=
  match e with EvGet _ _ _ => true | _ => false end.

Definition requests_made (tr : list Event) : nat :=
  length (List.filter is_get tr).

(** [self.session.get(url, stream=stream, timeout=timeout)] *)
Definition session_get {Self} (W : World) (url : string) (stream : bool)
    (timeout : Z) : M (State Self) Response :=
  n <- gets (fun s => requests_made (trace (env s))) ;;
  emit (EvGet url stream timeout) ;;
  match http_get W n url with
  | Responded r => ret r
  | Failed msg => raise (RequestException msg)
  | Raised e => raise e
  end.

Definition touch {Self} (e : Event) (p : string) : M (State Self) unit :=
  modify (fun s => {| env := {| trace := trace (env s) ++ [e]; fs := {[p]} ∪ fs (env s) |};
                      self := self s |}).

(** [open(path, "w")]: fails as the world says, else the file exists. *)
Definition open_w {Self} (W : World) (p : string) : M (State Self) unit :=
  match open_error W p with
  | Some e => raise e
  | None => touch (EvOpen p) p
  end.

(** [f.write(data)]: fails as the world says, else the data are written. *)
Definition write {Self} (W : World) (p data : string) : M (State Self) unit :=
  match write_error W p data with
  | Some e => raise e
  | None => emit (EvWrite p data)
  end.

Definition os_makedirs {Self} (W : World) (p : string) : M (State Self) unit :=
  match makedirs_error W p with
  | Some e => raise e
  | None => touch (EvMakedirs p) p
  end.

Definition os_path_exists {Self} (p : string) : M (State Self) bool :=
  gets (fun s => bool_decide (p ∈ fs (env s))).

Definition datetime_now {Self} (W : World) : M (State Self) Z :=
  gets (fun s => clock W (length (trace (env s)))).

(** A library call that returns or raises. *)
Definition call {S A} (r : Exn + A) : M S A :=
  match r with
  | inl e => raise e
  | inr a => ret a
  end.

(** ** [CrawlerStats] *)

Record ErrorRecord : Type := { err_url : string; err_error : string }.

Module CrawlerStats.

Record t : Type := {
  pages_crawled : Z;
  assets_downloaded : Z;
  total_bytes : Z;
  start_time : option Z;     (* microseconds; [None] is Python's [None] *)
  end_time : option Z;
  errors : list ErrorRecord;
  urls_found : Z
}.

Definition init : t :=
  {| pages_crawled := 0; assets_downloaded := 0; total_bytes := 0;
     start_time := None; end_time := None; errors := []; urls_found := 0 |}.

(** The dictionary [to_dict] returns.  The two rounded floats are kept
    as a whole number of hundredths: [total_mb_x100 = 150] is [1.5]. *)
Record Summary : Type := {
  d_pages_crawled : Z;
  d_assets_downloaded : Z;
  d_total_bytes : Z;
  d_total_mb_x100 : Z;
  d_duration_seconds_x100 : Z;
  d_urls_found : Z;
  d_errors_count : Z;
  d_errors : list ErrorRecord
}.

(** [duration = 0], replaced by [(end_time - start_time).total_seconds()]
    when both are set; kept in microseconds. *)
Definition duration_us (s : t) : Z :=
  match start_time s, end_time s with
  | Some t0, Some t1 => t1 - t0
  | _, _ => 0
  end.

(** [round(x, 2)] of a quotient [n / d], in hundredths.  The floats of
    the script are taken as exact rationals; [total_bytes / 2^20] is
    exact in binary64 for every total below [2^53]. *)
Definition round2 (n d : Z) : Z := Py.round_half_even (100 * n) d.

Definition to_dict (s : t) : Summary :=
  {| d_pages_crawled := pages_crawled s;
     d_assets_downloaded := assets_downloaded s;
     d_total_bytes := total_bytes s;
     d_total_mb_x100 := round2 (total_bytes s) (1024 * 1024);
     d_duration_seconds_x100 := round2 (duration_us s) 1000000;
     d_urls_found := urls_found s;
     d_errors_count := Z.of_nat (length (errors s));
     d_errors := take 10 (errors s) |}.

Definition with_pages_crawled (f : Z -> Z) (s : t) : t :=
  {| pages_crawled := f (pages_crawled s); assets_downloaded := assets_downloaded s;
     total_bytes := total_bytes s; start_time := start_time s; end_time := end_time s;
     errors := errors s; urls_found := urls_found s |}.

Definition with_assets_downloaded (f : Z -> Z) (s : t) : t :=
  {| pages_crawled := pages_crawled s; assets_downloaded := f (assets_downloaded s);
     total_bytes := total_bytes s; start_time := start_time s; end_time := end_time s;
     errors := errors s; urls_found := urls_found s |}.

Definition with_total_bytes (f : Z -> Z) (s : t) : t :=
  {| pages_crawled := pages_crawled s; assets_downloaded := assets_downloaded s;
     total_bytes := f (total_bytes s); start_time := start_time s; end_time := end_time s;
     errors := errors s; urls_found := urls_found s |}.

Definition with_start_time (v : option Z) (s : t) : t :=
  {| pages_crawled := pages_crawled s; assets_downloaded := assets_downloaded s;
     total_bytes := total_bytes s; start_time := v; end_time := end_time s;
     errors := errors s; urls_found := urls_found s |}.

Definition with_end_time (v : option Z) (s : t) : t :=
  {| pages_crawled := pages_crawled s; assets_downloaded := assets_downloaded s;
     total_bytes := total_bytes s; start_time := start_time s; end_time := v;
     errors := errors s; urls_found := urls_found s |}.

(** [self.errors.append(e)] *)
Definition errors_append (e : ErrorRecord) (s : t) : t :=
  {| pages_crawled := pages_crawled s; assets_downloaded := assets_downloaded s;
     total_bytes := total_bytes s; start_time := start_time s; end_time := end_time s;
     errors := errors s ++ [e]; urls_found := urls_found s |}.

Definition with_urls_found (f : Z -> Z) (s : t) : t :=
  {| pages_crawled := pages_crawled s; assets_downloaded := assets_downloaded s;
     total_bytes := total_bytes s; start_time := start_time s; end_time := end_time s;
     errors := errors s; urls_found := f (urls_found s) |}.

End CrawlerStats.

(** ** [urllib.robotparser.RobotFileParser]

    The standard library class behind [self.robots_parser], after
    CPython's [Lib/urllib/robotparser.py]: the two flags set by [read]
    on an HTTP error, and [last_checked], set by [parse] and tested by
    [can_fetch]. The parsed entries are kept as the function they
    compute. *)

Module RobotFileParser.

Record t : Type := {
  url : string;
  disallow_all : bool;
  allow_all : bool;
  last_checked : Z;
  entries : string -> string -> Exn + bool
}.

(** [RobotFileParser()]: with no entry, every agent is granted access. *)
Definition init : t :=
  {| url := ""; disallow_all := false; allow_all := false; last_checked := 0;
     entries := fun _ _ => inr true |}.

Definition set_url (u : string) (p : t) : t :=
  {| url := u; disallow_all := disallow_all p; allow_all := allow_all p;
     last_checked := last_checked p; entries := entries p |}.

(** [read]: [urlopen(self.url)]; an [HTTPError] is handled here (401
    and 403 forbid everything, any other 4xx allows everything, the
    rest changes nothing), any other exception leaves [read]; a file
    that was read is parsed, which stamps [last_checked].  The first
    component is the exception that leaves [read], if any. *)
Definition read (fetched : RobotsFetch) (now : Z) (p : t) : option Exn * t :=
  match fetched with
  | RobotsHTTPError code =>
      if (code =? 401) || (code =? 403) then
        (None, {| url := url p; disallow_all := true; allow_all := allow_all p;
                  last_checked := last_checked p; entries := entries p |})
      else if (400 <=? code) && (code <? 500) then
        (None, {| url := url p; disallow_all := disallow_all p; allow_all := true;
                  last_checked := last_checked p; entries := entries p |})
      else (None, p)
  | RobotsRaised e => (Some e, p)
  | RobotsRules rules =>
      (None, {| url := url p; disallow_all := disallow_all p; allow_all := allow_all p;
                last_checked := now; entries := rules |})
  end.

(** [can_fetch(useragent, url)]: until the file has been read
    ([last_checked] still 0) no URL is allowable. *)
Definition can_fetch (p : t) (useragent u : string) : Exn + bool :=
  if disallow_all p then inr false
  else if allow_all p then inr true
  else if last_checked p =? 0 then inr false
  else entries p useragent u.

End RobotFileParser.

(** ** [PoliteCrawler] *)

Module PoliteCrawler.

Definition MAX_RETRIES : Z := 3.
Definition TIMEOUT : Z := 10.

Record PageData : Type := {
  pd_url : string;
  pd_filename : string;
  pd_title : option string;
  pd_images : list string;
  pd_css : list string;
  pd_js : list string;
  pd_svgs : list string
}.

Record Metadata : Type := {
  md_start_url : string;
  md_domain : string;
  md_crawl_date : Z;
  md_stats : CrawlerStats.Summary
}.

Record Results : Type := {
  metadata : option Metadata;
  pages : list PageData;
  assets_images : list string;
  assets_svgs : list string;
  assets_data_files : list string
}.

(** The object; [ext] holds the attributes a subclass adds. *)
Record t (X : Type) : Type := {
  start_url : string;
  max_pages : Z;
  delay : Q;
  domain : string;
  base_url : string;
  visited_urls : gset string;
  url_queue : list string;
  stats : CrawlerStats.t;
  results : Results;
  folders : gmap string string;
  robots_parser : RobotFileParser.t;
  ext : X
}.
Arguments start_url {X} _.
Arguments max_pages {X} _.
Arguments delay {X} _.
Arguments domain {X} _.
Arguments base_url {X} _.
Arguments visited_urls {X} _.
Arguments url_queue {X} _.
Arguments stats {X} _.
Arguments results {X} _.
Arguments folders {X} _.
Arguments robots_parser {X} _.
Arguments ext {X} _.

Section Methods.
Context {X : Type}.
Variable W : World.

Abbreviation Self := (State (t X)).

Definition with_visited_urls (f : gset string -> gset string) (c : t X) : t X :=
  {| start_url := start_url c; max_pages := max_pages c; delay := delay c;
     domain := domain c; base_url := base_url c;
     visited_urls := f (visited_urls c); url_queue := url_queue c;
     stats := stats c; results := results c; folders := folders c;
     robots_parser := robots_parser c; ext := ext c |}.

Definition with_url_queue (f : list string -> list string) (c : t X) : t X :=
  {| start_url := start_url c; max_pages := max_pages c; delay := delay c;
     domain := domain c; base_url := base_url c;
     visited_urls := visited_urls c; url_queue := f (url_queue c);
     stats := stats c; results := results c; folders := folders c;
     robots_parser := robots_parser c; ext := ext c |}.

Definition with_stats (f : CrawlerStats.t -> CrawlerStats.t) (c : t X) : t X :=
  {| start_url := start_url c; max_pages := max_pages c; delay := delay c;
     domain := domain c; base_url := base_url c;
     visited_urls := visited_urls c; url_queue := url_queue c;
     stats := f (stats c); results := results c; folders := folders c;
     robots_parser := robots_parser c; ext := ext c |}.

Definition with_results (f : Results -> Results) (c : t X) : t X :=
  {| start_url := start_url c; max_pages := max_pages c; delay := delay c;
     domain := domain c; base_url := base_url c;
     visited_urls := visited_urls c; url_queue := url_queue c;
     stats := stats c; results := f (results c); folders := folders c;
     robots_parser := robots_parser c; ext := ext c |}.

Definition with_folders (f : gmap string string -> gmap string string) (c : t X) : t X :=
  {| start_url := start_url c; max_pages := max_pages c; delay := delay c;
     domain := domain c; base_url := base_url c;
     visited_urls := visited_urls c; url_queue := url_queue c;
     stats := stats c; results := results c; folders := f (folders c);
     robots_parser := robots_parser c; ext := ext c |}.

Definition with_robots_parser (f : RobotFileParser.t -> RobotFileParser.t) (c : t X) : t X :=
  {| start_url := start_url c; max_pages := max_pages c; delay := delay c;
     domain := domain c; base_url := base_url c;
     visited_urls := visited_urls c; url_queue := url_queue c;
     stats := stats c; results := results c; folders := folders c;
     robots_parser := f (robots_parser c); ext := ext c |}.

Definition with_ext (f : X -> X) (c : t X) : t X :=
  {| start_url := start_url c; max_pages := max_pages c; delay := delay c;
     domain := domain c; base_url := base_url c;
     visited_urls := visited_urls c; url_queue := url_queue c;
     stats := stats c; results := results c; folders := folders c;
     robots_parser := robots_parser c; ext := f (ext c) |}.

(** [__init__]; [urlparse] may reject the start URL. *)
Definition init (start : string) (limit : Z) (pause : Q) (x : X) : Exn + t X :=
  match urlparse W start with
  | inl e => inl e
  | inr parsed =>
      inr {| start_url := start; max_pages := limit; delay := pause;
             domain := netloc parsed;
             base_url := scheme parsed +:+ "://" +:+ netloc parsed;
             visited_urls := ∅; url_queue := [];
             stats := CrawlerStats.init;
             results := {| metadata := None; pages := []; assets_images := [];
                           assets_svgs := []; assets_data_files := [] |};
             folders := ∅;
             robots_parser := RobotFileParser.init;
             ext := x |}
  end.

(** [self.stats.errors.append({'url': url, 'error': str(e)})] *)
Definition record_error (url : string) (e : Exn) : M Self unit :=
  modify_self (with_stats (CrawlerStats.errors_append
                             {| err_url := url; err_error := exn_str e |})).

(** [self.folders[key]] *)
Definition folder (key : string) : M Self string :=
  table <- gets_self folders ;;
  match table !! key with
  | Some p => ret p
  | None => raise (KeyError key)
  end.

Definition setup_folders : M Self unit :=
  d <- gets_self domain ;;
  let dirs : list (string * string) :=
    [ ("root", d);
      ("html", Py.path_join d "pages");
      ("images", Py.path_join (Py.path_join d "assets") "images");
      ("svgs", Py.path_join (Py.path_join d "assets") "svgs");
      ("data", Py.path_join d "data") ] in
  modify_self (with_folders (fun _ => list_to_map dirs)) ;;
  for_each dirs (fun kv => os_makedirs W (snd kv)) ;;
  logger INFO (CreatedFolders d).

Definition check_robots_txt : M Self unit :=
  base <- gets_self base_url ;;
  robots_url <- call (urljoin W base "/robots.txt") ;;
  try_except
    (_ <- call (urlparse W robots_url) ;;
     modify_self (with_robots_parser (RobotFileParser.set_url robots_url)) ;;
     emit (EvUrlopen robots_url) ;;
     now <- datetime_now W ;;
     p <- gets_self robots_parser ;;
     let (raised, p') := RobotFileParser.read (robots_fetch W) now p in
     modify_self (with_robots_parser (fun _ => p')) ;;
     match raised with
     | None => logger INFO (ParsedRobots robots_url)
     | Some e => raise e
     end)
    is_Exception
    (fun e => logger WARNING (CouldNotReadRobots (exn_str e))).

Definition can_fetch (url : string) : M Self bool :=
  p <- gets_self robots_parser ;;
  try_except
    (call (RobotFileParser.can_fetch p "PoliteCrawler" url))
    is_Exception
    (fun _ => ret true).

(** The body of [for attempt in range(MAX_RETRIES)], from [attempt]
    on, with [left] rounds to go; a loop that runs out of rounds
    falls off the end of the function, which returns [None]. *)
Fixpoint retry_from (url : string) (stream : bool) (left : nat) (attempt : Z)
    : M Self (option Response) :=
  match left with
  | O => ret None
  | S left' =>
      try_except
        (response <- session_get W url stream TIMEOUT ;;
         raise_for_status response ;;
         ret (Some response))
        is_RequestException
        (fun e =>
           if attempt =? MAX_RETRIES - 1 then
             logger ERROR (FailedDownload url MAX_RETRIES (exn_str e)) ;;
             record_error url e ;;
             ret None
           else
             time_sleep 1 ;;
             retry_from url stream left' (attempt + 1))
  end.

Definition download_with_retry (url : string) (stream : bool)
    : M Self (option Response) :=
  retry_from url stream (Z.to_nat MAX_RETRIES) 0.

Definition download_asset (url dir asset_type : string) : M Self (option string) :=
  try_except
    (parsed <- call (urlparse W url) ;;
     let filename := Py.basename (path parsed) in
     if negb (Py.truthy filename) then ret None
     else
       let filename := Py.split_first "?" filename in
       let filepath := Py.path_join dir filename in
       present <- os_path_exists filepath ;;
       if present then
         logger DEBUG (AssetExists filename) ;;
         ret (Some filename)
       else
         response <- download_with_retry url true ;;
         match response with
         | Some r =>
             if negb (ok r) then ret None
             else
               open_w W filepath ;;
               file_size <- for_fold (chunks r) 0
                 (fun size chunk => write W filepath chunk ;; ret (size + Py.len chunk)) ;;
               match stream_error r with Some e => raise e | None => ret tt end ;;
               modify_self (with_stats (CrawlerStats.with_assets_downloaded (fun n => n + 1))) ;;
               modify_self (with_stats (CrawlerStats.with_total_bytes (fun n => n + file_size))) ;;
               logger INFO (DownloadedAsset asset_type filename file_size) ;;
               ret (Some filename)
         | None => ret None
         end)
    is_Exception
    (fun e =>
       logger ERROR (ErrorDownloadingAsset url (exn_str e)) ;;
       record_error url e ;;
       ret None).

(** [enumerate(l)] *)
Fixpoint enumerate_from {A} (i : Z) (l : list A) : list (Z * A) :=
  match l with
  | [] => []
  | x :: l' => (i, x) :: enumerate_from (i + 1) l'
  end.

Definition add_image (full_url : string) (r : Results) : Results :=
  {| metadata := metadata r; pages := pages r;
     assets_images := assets_images r ++ [full_url];
     assets_svgs := assets_svgs r; assets_data_files := assets_data_files r |}.

Definition add_svg (fname : string) (r : Results) : Results :=
  {| metadata := metadata r; pages := pages r;
     assets_images := assets_images r;
     assets_svgs := assets_svgs r ++ [fname]; assets_data_files := assets_data_files r |}.

Definition add_page (pd : PageData) (r : Results) : Results :=
  {| metadata := metadata r; pages := pages r ++ [pd];
     assets_images := assets_images r;
     assets_svgs := assets_svgs r; assets_data_files := assets_data_files r |}.

Definition set_metadata (m : Metadata) (r : Results) : Results :=
  {| metadata := Some m; pages := pages r;
     assets_images := assets_images r;
     assets_svgs := assets_svgs r; assets_data_files := assets_data_files r |}.

Definition pd_add_image (full_url : string) (pd : PageData) : PageData :=
  {| pd_url := pd_url pd; pd_filename := pd_filename pd; pd_title := pd_title pd;
     pd_images := pd_images pd ++ [full_url]; pd_css := pd_css pd; pd_js := pd_js pd;
     pd_svgs := pd_svgs pd |}.

Definition pd_add_svg (fname : string) (pd : PageData) : PageData :=
  {| pd_url := pd_url pd; pd_filename := pd_filename pd; pd_title := pd_title pd;
     pd_images := pd_images pd; pd_css := pd_css pd; pd_js := pd_js pd;
     pd_svgs := pd_svgs pd ++ [fname] |}.

(** The loop over [soup.find_all("img")] *)
Definition extract_images (url : string) (soup : Soup) (page_data : PageData)
    : M Self PageData :=
  for_fold (soup_imgs soup) page_data
    (fun pd img =>
       let src := Py.or_else (img_src img) (img_data_src img) in
       match src with
       | Some s =>
           if Py.truthy s && negb (Py.startswith "data:" s) then
             full_url <- call (urljoin W url s) ;;
             dir <- folder "images" ;;
             filename <- download_asset full_url dir "image" ;;
             if Py.truthy_opt filename then
               modify_self (with_results (add_image full_url)) ;;
               ret (pd_add_image full_url pd)
             else ret pd
           else ret pd
       | None => ret pd
       end).

(** The loops over the stylesheets and the scripts: the URL is
    resolved, the download is commented out. *)
Definition resolve_only (url : string) (refs : list (option string)) : M Self unit :=
  for_each refs
    (fun ref =>
       match ref with
       | Some r => if Py.truthy r then _ <- call (urljoin W url r) ;; ret tt else ret tt
       | None => ret tt
       end).

(** The loop over [enumerate(soup.find_all("svg"))] *)
Definition save_svgs (page_name : string) (soup : Soup) (page_data : PageData)
    : M Self PageData :=
  for_fold (enumerate_from 0 (soup_svgs soup)) page_data
    (fun pd isvg =>
       let fname := Py.replace ".html" "" page_name +:+ "_icon"
                    +:+ Py.str_of_Z (fst isvg) +:+ ".svg" in
       dir <- folder "svg" ;;
       let svg_path := Py.path_join dir fname in
       open_w W svg_path ;;
       write W svg_path (snd isvg) ;;
       modify_self (with_results (add_svg fname)) ;;
       ret (pd_add_svg fname pd)).

(** The loop over [soup.find_all("a", href=True)] *)
Definition find_internal_links (url : string) (soup : Soup) : M Self (list string) :=
  for_fold (soup_anchors soup) []
    (fun internal_links href =>
       full_url <- call (urljoin W url href) ;;
       parsed_link <- call (urlparse W full_url) ;;
       d <- gets_self domain ;;
       if String.eqb (netloc parsed_link) d && negb (Py.contains "mailto:" href) then
         let clean_url := Py.split_first "#" full_url in
         visited <- gets_self visited_urls ;;
         if bool_decide (clean_url ∈ visited) then ret internal_links
         else
           modify_self (with_stats (CrawlerStats.with_urls_found (fun n => n + 1))) ;;
           ret (internal_links ++ [clean_url])
       else ret internal_links).

(** What follows the [try] block of [process_page], for a parsed page. *)
Definition archive_page (url : string) (soup : Soup) : M Self (list string) :=
  parsed <- call (urlparse W url) ;;
  let page_name := Py.strip "/" (path parsed) in
  let page_name := if Py.truthy page_name then page_name else "index" in
  let page_name := Py.replace "/" "_" page_name +:+ ".html" in
  dir <- folder "html" ;;
  let html_path := Py.path_join dir page_name in
  open_w W html_path ;;
  write W html_path (soup_prettify soup) ;;
  let page_data :=
    {| pd_url := url; pd_filename := page_name;
       pd_title := match soup_title soup with Some title => title | None => Some "" end;
       pd_images := []; pd_css := []; pd_js := []; pd_svgs := [] |} in
  page_data <- extract_images url soup page_data ;;
  resolve_only url (soup_stylesheets soup) ;;
  resolve_only url (soup_scripts soup) ;;
  page_data <- save_svgs page_name soup page_data ;;
  modify_self (with_results (add_page page_data)) ;;
  find_internal_links url soup.

Definition process_page (url : string) : M Self (list string) :=
  logger INFO (ProcessingPage url) ;;
  allowed <- can_fetch url ;;
  if negb allowed then
    logger WARNING (RobotsDisallows url) ;;
    ret []
  else
    fetched <-
      try_except
        (response <- download_with_retry url false ;;
         match response with
         | Some r =>
             if negb (ok r) then ret (inl [])
             else soup <- call (parse_html W (text r)) ;; ret (inr soup)
         | None => ret (inl [])
         end)
        is_Exception
        (fun e =>
           logger ERROR (ErrorProcessingPage url (exn_str e)) ;;
           record_error url e ;;
           ret (inl [])) ;;
    match fetched with
    | inl links => ret links
    | inr soup => archive_page url soup
    end.

Definition save_results : M Self unit :=
  c <- gets_self id ;;
  now <- datetime_now W ;;
  modify_self (with_results (set_metadata
    {| md_start_url := start_url c; md_domain := domain c; md_crawl_date := now;
       md_stats := CrawlerStats.to_dict (stats c) |})) ;;
  root <- folder "root" ;;
  let json_path := Py.path_join root "crawl_results.json" in
  open_w W json_path ;;
  emit (EvJsonDump json_path) ;;
  logger INFO (ResultsSaved json_path).

Definition print_summary : M Self unit := emit EvPrintSummary.

(** The test of the [while] loop of [crawl] *)
Definition keep_crawling (c : t X) : bool :=
  match url_queue c with
  | [] => false
  | _ :: _ => CrawlerStats.pages_crawled (stats c) <? max_pages c
  end.

(** The body of the loop over [found_links] *)
Definition enqueue_new (link : string) : M Self unit :=
  visited <- gets_self visited_urls ;;
  when (negb (bool_decide (link ∈ visited)))
    (modify_self (with_visited_urls (fun v => {[link]} ∪ v)) ;;
     modify_self (with_url_queue (fun q => q ++ [link]))).

(** One round of the loop; [process_page] is the method of the object's
    class. *)
Definition crawl_step (process_page : string -> M Self (list string)) : M Self unit :=
  c <- gets_self id ;;
  when (0 <? CrawlerStats.pages_crawled (stats c))
    (logger DEBUG (SleepingFor (delay c)) ;; time_sleep (delay c)) ;;
  match url_queue c with
  | [] => raise (IndexError "pop from an empty deque")
  | current_url :: rest =>
      modify_self (with_url_queue (fun _ => rest)) ;;
      found_links <- process_page current_url ;;
      modify_self (with_stats (CrawlerStats.with_pages_crawled (fun n => n + 1))) ;;
      c <- gets_self id ;;
      emit (EvProgress
              {| p_pages_crawled := CrawlerStats.pages_crawled (stats c);
                 p_max_pages := max_pages c;
                 p_current_url := current_url;
                 p_assets_downloaded := CrawlerStats.assets_downloaded (stats c);
                 p_queue_size := Z.of_nat (length (url_queue c)) |}) ;;
      for_each found_links enqueue_new
  end.

Fixpoint crawl_loop (process_page : string -> M Self (list string)) (fuel : nat)
    : M Self unit :=
  c <- gets_self id ;;
  if keep_crawling c then
    match fuel with
    | O => out_of_fuel
    | S fuel' => crawl_step process_page ;; crawl_loop process_page fuel'
    end
  else ret tt.

(** [crawl], over the two methods a subclass overrides.  Every round of
    the loop adds one to [pages_crawled], so [max_pages - pages_crawled]
    rounds of fuel are enough; with [rounds = Some n] the loop is cut
    off after [n] rounds instead, which gives the states of a run in
    progress. *)
Definition crawl_rounds (rounds : option nat) (setup : M Self unit)
    (process_page : string -> M Self (list string)) : M Self unit :=
  start <- gets_self start_url ;;
  logger INFO (StartingCrawl start) ;;
  now <- datetime_now W ;;
  modify_self (with_stats (CrawlerStats.with_start_time (Some now))) ;;
  setup ;;
  check_robots_txt ;;
  modify_self (with_url_queue (fun q => q ++ [start])) ;;
  modify_self (with_visited_urls (fun v => {[start]} ∪ v)) ;;
  c <- gets_self id ;;
  crawl_loop process_page
    (match rounds with
     | Some n => n
     | None => Z.to_nat (max_pages c - CrawlerStats.pages_crawled (stats c))
     end) ;;
  now <- datetime_now W ;;
  modify_self (with_stats (CrawlerStats.with_end_time (Some now))) ;;
  save_results ;;
  print_summary.

Definition crawl_with (setup : M Self unit)
    (process_page : string -> M Self (list string)) : M Self unit :=
  crawl_rounds None setup process_page.

Definition crawl : M Self unit := crawl_with setup_folders process_page.

End Methods.

End PoliteCrawler.

(** ** [SecurityCrawler]: the header audit *)

Module SecurityCrawler.

(** A finding; the keys a finding lacks are [None]. *)
Record Finding : Type := {
  f_type : string;
  f_details : string;
  f_location : string;
  f_severity_score : option Q;
  f_owasp : option string;
  f_recommendation : option string
}.

Inductive Severity : Type := critical | high | medium | low | info.

(** [self.security_issues], a dictionary with these five keys *)
Record SecurityIssues : Type := {
  issues_critical : list Finding;
  issues_high : list Finding;
  issues_medium : list Finding;
  issues_low : list Finding;
  issues_info : list Finding
}.

Definition no_issues : SecurityIssues :=
  {| issues_critical := []; issues_high := []; issues_medium := [];
     issues_low := []; issues_info := [] |}.

(** [self.security_issues[severity]] *)
Definition issues (sev : Severity) (si : SecurityIssues) : list Finding :=
  match sev with
  | critical => issues_critical si
  | high => issues_high si
  | medium => issues_medium si
  | low => issues_low si
  | info => issues_info si
  end.

(** [self.security_issues[severity].append(f)] *)
Definition append_issue (sev : Severity) (f : Finding) (si : SecurityIssues)
    : SecurityIssues :=
  match sev with
  | critical =>
      {| issues_critical := issues_critical si ++ [f]; issues_high := issues_high si;
         issues_medium := issues_medium si; issues_low := issues_low si;
         issues_info := issues_info si |}
  | high =>
      {| issues_critical := issues_critical si; issues_high := issues_high si ++ [f];
         issues_medium := issues_medium si; issues_low := issues_low si;
         issues_info := issues_info si |}
  | medium =>
      {| issues_critical := issues_critical si; issues_high := issues_high si;
         issues_medium := issues_medium si ++ [f]; issues_low := issues_low si;
         issues_info := issues_info si |}
  | low =>
      {| issues_critical := issues_critical si; issues_high := issues_high si;
         issues_medium := issues_medium si; issues_low := issues_low si ++ [f];
         issues_info := issues_info si |}
  | info =>
      {| issues_critical := issues_critical si; issues_high := issues_high si;
         issues_medium := issues_medium si; issues_low := issues_low si;
         issues_info := issues_info si ++ [f] |}
  end.

(** The attributes [SecurityCrawler] adds to [PoliteCrawler] *)
Record Ext : Type := {
  security_issues : SecurityIssues;
  cms_detected : option string;
  subdomains_found : gset string
}.

Definition init_ext : Ext :=
  {| security_issues := no_issues; cms_detected := None; subdomains_found := ∅ |}.

Abbreviation Self := (State (PoliteCrawler.t Ext)).

Definition report (sev : Severity) (f : Finding) : M Self unit :=
  modify_self (PoliteCrawler.with_ext (fun x =>
    {| security_issues := append_issue sev f (security_issues x);
       cms_detected := cms_detected x;
       subdomains_found := subdomains_found x |})).

Definition misconfiguration : string := "A05:2021 – Security Misconfiguration".

Definition missing_hsts (url : string) : Finding :=
  {| f_type := "Missing HSTS Header";
     f_details := "HSTS header not set - vulnerable to SSL stripping attacks";
     f_location := url;
     f_severity_score := Some (7 # 1);
     f_owasp := Some misconfiguration;
     f_recommendation :=
       Some "Add header: Strict-Transport-Security: max-age=31536000; includeSubDomains" |}.

Definition missing_clickjacking_protection (url : string) : Finding :=
  {| f_type := "Missing Clickjacking Protection";
     f_details := "Neither X-Frame-Options nor CSP frame-ancestors set";
     f_location := url;
     f_severity_score := Some (6 # 1);
     f_owasp := Some misconfiguration;
     f_recommendation := Some "Add header: X-Frame-Options: SAMEORIGIN or use CSP" |}.

Definition missing_content_type_options (url : string) : Finding :=
  {| f_type := "Missing X-Content-Type-Options";
     f_details := "MIME-sniffing attacks possible";
     f_location := url;
     f_severity_score := Some (5 # 1);
     f_owasp := None;
     f_recommendation := Some "Add header: X-Content-Type-Options: nosniff" |}.

Definition missing_csp (url : string) : Finding :=
  {| f_type := "Missing Content Security Policy";
     f_details := "No CSP header - vulnerable to XSS attacks";
     f_location := url;
     f_severity_score := Some (13 # 2);
     f_owasp := Some "A03:2021 – Injection";
     f_recommendation := Some "Implement a strict Content-Security-Policy" |}.

Definition missing_xss_protection (url : string) : Finding :=
  {| f_type := "Missing X-XSS-Protection";
     f_details := "Legacy XSS protection header not set";
     f_location := url;
     f_severity_score := Some (3 # 1);
     f_owasp := None;
     f_recommendation := Some "Add header: X-XSS-Protection: 1; mode=block" |}.

Definition missing_referrer_policy (url : string) : Finding :=
  {| f_type := "Missing Referrer-Policy";
     f_details := "No referrer policy set - may leak sensitive URLs";
     f_location := url;
     f_severity_score := Some (7 # 2);
     f_owasp := None;
     f_recommendation :=
       Some "Add header: Referrer-Policy: strict-origin-when-cross-origin" |}.

Definition missing_permissions_policy (url : string) : Finding :=
  {| f_type := "Missing Permissions-Policy";
     f_details := "No permissions policy defined";
     f_location := url;
     f_severity_score := None;
     f_owasp := None;
     f_recommendation := Some "Consider adding Permissions-Policy header" |}.

Definition check_security_headers (response : Response) (url : string) : M Self unit :=
  let hs := headers response in
  when (negb (header_in "Strict-Transport-Security" hs))
    (report high (missing_hsts url)) ;;
  when (negb (header_in "X-Frame-Options" hs) && negb (header_in "Content-Security-Policy" hs))
    (report medium (missing_clickjacking_protection url)) ;;
  when (negb (header_in "X-Content-Type-Options" hs))
    (report medium (missing_content_type_options url)) ;;
  when (negb (header_in "Content-Security-Policy" hs))
    (report medium (missing_csp url)) ;;
  when (negb (header_in "X-XSS-Protection" hs))
    (report low (missing_xss_protection url)) ;;
  when (negb (header_in "Referrer-Policy" hs))
    (report low (missing_referrer_policy url)) ;;
  when (negb (header_in "Permissions-Policy" hs) && negb (header_in "Feature-Policy" hs))
    (report info (missing_permissions_policy url)).

(** How many findings of a list have the given [type] *)
Definition count_type (ty : string) (l : list Finding) : nat :=
  length (List.filter (fun f => String.eqb (f_type f) ty) l).

(** The finding has a ['recommendation'] and it is not empty. *)
Definition has_recommendation (f : Finding) : bool :=
  Py.truthy_opt (f_recommendation f).

(** ** [SecurityCrawler]: the other checks

    The checks that append findings with the six keys above.  A log
    line of free text is kept as the message [log_line text], and
    [re.search(pattern, url, re.I)] is taken as it is given. *)

Definition SENSITIVE_FILES : list string :=
  [ ".git/config"; ".git/HEAD"; ".env"; ".env.local"; ".env.production";
    "config.php"; "wp-config.php"; "database.yml"; "secrets.json";
    ".htaccess"; "web.config"; "phpinfo.php"; "admin/"; "backup.sql";
    ".DS_Store"; "composer.json"; "package.json"; ".npmrc";
    "id_rsa"; "id_rsa.pub"; "authorized_keys"; "credentials.json";
    "Dockerfile"; "docker-compose.yml"; ".dockerignore" ].

Definition SQL_INJECTION_PATTERNS : list string :=
  [ "id=\d+"; "page=\d+"; "user="; "search="; "q=";
    "query="; "keyword="; "login="; "admin=" ].

Definition CMS_PATTERNS : list (string * list string) :=
  [ ("WordPress", ["/wp-content/"; "/wp-includes/"; "/wp-admin/"]);
    ("Drupal", ["/sites/default/"; "/modules/"; "/themes/"]);
    ("Joomla", ["/administrator/"; "/components/"; "/templates/"]);
    ("Magento", ["/skin/"; "/js/mage/"; "/media/catalog/"]) ].

(** A cookie of [response.cookies], as far as [check_cookies] looks at
    it; [cookie_rest] holds the names of its non-standard attributes. *)
Record Cookie : Type := {
  cookie_name : string;
  cookie_secure : bool;
  cookie_rest : list string
}.

(** [cookie.has_nonstandard_attr(name)] *)
Definition has_nonstandard_attr (name : string) (c : Cookie) : bool :=
  existsb (String.eqb name) (cookie_rest c).

(** The list [issues] that [check_cookies] builds for a cookie *)
Definition cookie_issues (url : string) (c : Cookie) : list string :=
  (if negb (cookie_secure c) && Py.startswith "https://" url
   then ["Missing Secure flag on HTTPS site"] else [])
  ++ (if negb (has_nonstandard_attr "HttpOnly" c)
      then ["Missing HttpOnly flag - vulnerable to XSS cookie theft"] else [])
  ++ (if negb (has_nonstandard_attr "SameSite" c)
      then ["Missing SameSite attribute - vulnerable to CSRF"] else []).

Definition insecure_cookie (url : string) (c : Cookie) (issues : list string) : Finding :=
  {| f_type := "Insecure Cookie: " +:+ cookie_name c;
     f_details := Py.join ", " issues;
     f_location := url;
     f_severity_score := Some (11 # 2);
     f_owasp := Some misconfiguration;
     f_recommendation := Some "Set Secure, HttpOnly, and SameSite attributes" |}.

(** [check_cookies(response, url)], over [response.cookies] *)
Definition check_cookies (cookies : list Cookie) (url : string) : M Self unit :=
  for_each cookies
    (fun cookie =>
       let issues := cookie_issues url cookie in
       when (negb (bool_decide (issues = [])))
         (report medium (insecure_cookie url cookie issues))).

Definition sql_injection_vector (pattern url : string) : Finding :=
  {| f_type := "Potential SQL Injection Vector";
     f_details := "URL parameter matches SQL injection pattern: " +:+ pattern;
     f_location := url;
     f_severity_score := Some (13 # 2);
     f_owasp := Some "A03:2021 – Injection";
     f_recommendation := Some "Use parameterized queries and input validation" |}.

Definition cms_finding (cms_name url : string) : Finding :=
  {| f_type := "CMS Detected";
     f_details := cms_name +:+ " detected";
     f_location := url;
     f_severity_score := None;
     f_owasp := None;
     f_recommendation := Some "Ensure CMS is up-to-date" |}.

Definition sensitive_file_exposed (file url : string) : Finding :=
  {| f_type := "Sensitive File Exposed";
     f_details := "Accessible file: " +:+ file;
     f_location := url;
     f_severity_score := Some (19 # 2);
     f_owasp := Some "A01:2021 – Broken Access Control";
     f_recommendation := Some ("Block public access to " +:+ file) |}.

(** [self.cms_detected = name] *)
Definition set_cms_detected (name : string) : M Self unit :=
  modify_self (PoliteCrawler.with_ext (fun x =>
    {| security_issues := security_issues x;
       cms_detected := Some name;
       subdomains_found := subdomains_found x |})).

Section Checks.
Variable W : World.
Variable log_line : string -> LogMsg.
Variable re_search : string -> string -> bool.   (* [re.search(pattern, s, re.I)] matches *)

(** [check_sql_injection_vectors(url)] *)
Definition check_sql_injection_vectors (url : string) : M Self unit :=
  for_until SQL_INJECTION_PATTERNS
    (fun pattern =>
       if re_search pattern url then
         report medium (sql_injection_vector pattern url) ;;
         ret true
       else ret false) ;;
  ret tt.

(** [detect_cms(soup, url)], over [str(soup)] *)
Definition detect_cms (html_content url : string) : M Self unit :=
  for_until CMS_PATTERNS
    (fun entry =>
       for_until (snd entry)
         (fun pattern =>
            if Py.contains pattern html_content then
              set_cms_detected (fst entry) ;;
              report info (cms_finding (fst entry) url) ;;
              logger INFO (log_line ("CMS Detected: " +:+ fst entry)) ;;
              ret true
            else ret false)) ;;
  ret tt.

(** [check_sensitive_files()]; the requests are made with a timeout of
    3 and without following redirects. *)
Definition check_sensitive_files : M Self unit :=
  logger INFO (log_line "Checking for exposed sensitive files...") ;;
  for_each SENSITIVE_FILES
    (fun file =>
       base <- gets_self PoliteCrawler.base_url ;;
       url <- call (urljoin W base file) ;;
       try_except
         (response <- session_get W url false 3 ;;
          when (status_code response =? 200)
            (report critical (sensitive_file_exposed file url) ;;
             logger WARNING (log_line ("EXPOSED: " +:+ file))) ;;
          time_sleep (3 # 10))
         is_Exception
         (fun _ => ret tt)).

End Checks.

End SecurityCrawler.

(** ** [IndustrialCrawler]: the crawl loop *)

Module IndustrialCrawler.

Record t : Type := {
  start_url : string;
  max_pages : Z;
  delay : Q;
  has_callback : bool;             (* [progress_callback] is set *)
  domain : string;
  visited_urls : gset string;
  url_queue : list string;
  extracted_data : list string;    (* the ['url'] of each extracted record *)
  stats_pages : Z;
  stats_errors : Z
}.

Abbreviation Self := (State t).

Definition init (W : World) (start : string) (limit : Z) (pause : Q) (callback : bool)
    : Exn + t :=
  match urlparse W start with
  | inl e => inl e
  | inr parsed =>
      inr {| start_url := start; max_pages := limit; delay := pause;
             has_callback := callback; domain := netloc parsed;
             visited_urls := ∅; url_queue := [start];
             extracted_data := []; stats_pages := 0; stats_errors := 0 |}
  end.

Definition with_visited_urls (f : gset string -> gset string) (c : t) : t :=
  {| start_url := start_url c; max_pages := max_pages c; delay := delay c;
     has_callback := has_callback c; domain := domain c;
     visited_urls := f (visited_urls c); url_queue := url_queue c;
     extracted_data := extracted_data c; stats_pages := stats_pages c;
     stats_errors := stats_errors c |}.

Definition with_url_queue (f : list string -> list string) (c : t) : t :=
  {| start_url := start_url c; max_pages := max_pages c; delay := delay c;
     has_callback := has_callback c; domain := domain c;
     visited_urls := visited_urls c; url_queue := f (url_queue c);
     extracted_data := extracted_data c; stats_pages := stats_pages c;
     stats_errors := stats_errors c |}.

Definition with_extracted_data (f : list string -> list string) (c : t) : t :=
  {| start_url := start_url c; max_pages := max_pages c; delay := delay c;
     has_callback := has_callback c; domain := domain c;
     visited_urls := visited_urls c; url_queue := url_queue c;
     extracted_data := f (extracted_data c); stats_pages := stats_pages c;
     stats_errors := stats_errors c |}.

Definition with_stats_pages (f : Z -> Z) (c : t) : t :=
  {| start_url := start_url c; max_pages := max_pages c; delay := delay c;
     has_callback := has_callback c; domain := domain c;
     visited_urls := visited_urls c; url_queue := url_queue c;
     extracted_data := extracted_data c; stats_pages := f (stats_pages c);
     stats_errors := stats_errors c |}.

Definition with_stats_errors (f : Z -> Z) (c : t) : t :=
  {| start_url := start_url c; max_pages := max_pages c; delay := delay c;
     has_callback := has_callback c; domain := domain c;
     visited_urls := visited_urls c; url_queue := url_queue c;
     extracted_data := extracted_data c; stats_pages := stats_pages c;
     stats_errors := f (stats_errors c) |}.

Section Methods.
Variable W : World.

(** [href.startswith(('#', 'javascript:', 'mailto:'))] *)
Definition skipped_href (href : string) : bool :=
  Py.startswith "#" href || Py.startswith "javascript:" href
  || Py.startswith "mailto:" href.

(** The [try] block of one round, for a URL that was not visited yet *)
Definition fetch_and_extract (url : string) : M Self unit :=
  response <- session_get W url false 10 ;;
  raise_for_status response ;;
  match extract_all W (text response) url with Some e => raise e | None => ret tt end ;;
  modify_self (with_extracted_data (fun d => d ++ [url])) ;;
  modify_self (with_stats_pages (fun n => n + 1)) ;;
  c <- gets_self id ;;
  when (has_callback c) (emit (EvProgressIndustrial (stats_pages c) (max_pages c) url)) ;;
  soup <- call (parse_html W (text response)) ;;
  for_each (soup_anchors soup)
    (fun href =>
       if skipped_href href then ret tt
       else
         full_url <- call (urljoin W url href) ;;
         parsed <- call (urlparse W full_url) ;;
         c <- gets_self id ;;
         when (String.eqb (netloc parsed) (domain c)
               && negb (bool_decide (full_url ∈ visited_urls c)))
           (modify_self (with_url_queue (fun q => q ++ [full_url])))) ;;
  c <- gets_self id ;;
  logger INFO (Crawled (stats_pages c) (max_pages c) url).

Definition keep_crawling (c : t) : bool :=
  match url_queue c with
  | [] => false
  | _ :: _ => stats_pages c <? max_pages c
  end.

(** One round of the loop; a URL that was visited already is dropped by
    [continue]. *)
Definition crawl_step : M Self unit :=
  c <- gets_self id ;;
  when (0 <? stats_pages c) (time_sleep (delay c)) ;;
  match url_queue c with
  | [] => raise (IndexError "pop from an empty deque")
  | url :: rest =>
      modify_self (with_url_queue (fun _ => rest)) ;;
      if bool_decide (url ∈ visited_urls c) then ret tt
      else
        modify_self (with_visited_urls (fun v => {[url]} ∪ v)) ;;
        try_except (fetch_and_extract url) is_Exception
          (fun e =>
             modify_self (with_stats_errors (fun n => n + 1)) ;;
             logger ERROR (ErrorCrawling url (exn_str e)))
  end.

Fixpoint crawl_loop (fuel : nat) : M Self unit :=
  c <- gets_self id ;;
  if keep_crawling c then
    match fuel with
    | O => out_of_fuel
    | S fuel' => crawl_step ;; crawl_loop fuel'
    end
  else ret tt.

(** [crawl], cut off after [fuel] rounds of its loop *)
Definition crawl (fuel : nat) : M Self (list string) :=
  start <- gets_self start_url ;;
  logger INFO (StartingCrawlIndustrial start) ;;
  crawl_loop fuel ;;
  gets_self extracted_data.

End Methods.

End IndustrialCrawler.

(** ** [DataExtractor]: the links of a page *)

Module DataExtractor.

(** An anchor with an [href]; [a_text] is
    [a.get_text(strip=True)[:100]]. *)
Record Anchor : Type := { a_href : string; a_text : string }.

Record Link : Type := { link_url : string; link_text : string }.

(** The dictionary [extract_links] returns *)
Record Links : Type := { internal : list Link; external : list Link }.

(** [href.startswith(('javascript:', 'mailto:', 'tel:', '#'))] *)
Definition skipped_href (href : string) : bool :=
  Py.startswith "javascript:" href || Py.startswith "mailto:" href
  || Py.startswith "tel:" href || Py.startswith "#" href.

(** One round of the loop of [extract_links] *)
Definition add_link (W : World) (domain url : string) (links : Links) (a : Anchor)
    : Exn + Links :=
  if skipped_href (a_href a) then inr links
  else
    match urljoin W url (a_href a) with
    | inl e => inl e
    | inr full_url =>
        let link_data := {| link_url := full_url; link_text := a_text a |} in
        match urlparse W full_url with
        | inl e => inl e
        | inr parsed =>
            if String.eqb (netloc parsed) domain
            then inr {| internal := internal links ++ [link_data];
                        external := external links |}
            else inr {| internal := internal links;
                        external := external links ++ [link_data] |}
        end
    end.

Fixpoint extract_links_from (W : World) (domain url : string) (links : Links)
    (anchors : list Anchor) : Exn + Links :=
  match anchors with
  | [] => inr links
  | a :: anchors' =>
      match add_link W domain url links a with
      | inl e => inl e
      | inr links' => extract_links_from W domain url links' anchors'
      end
  end.

(** [extract_links(soup, url)], over [soup.find_all('a', href=True)];
    [domain] is [self.domain]. *)
Definition extract_links (W : World) (domain : string) (anchors : list Anchor)
    (url : string) : Exn + Links :=
  extract_links_from W domain url {| internal := []; external := [] |} anchors.

End DataExtractor.

(** ** Sample worlds

    Concrete worlds on which the definitions above are run.  The URL
    functions cover the plain [scheme://host/path?query#fragment] URLs
    of the samples; they stand in for [urllib.parse]. *)

Module Sample.

Fixpoint take_until (stop : ascii -> bool) (s : string) : string :=
  match s with
  | EmptyString => EmptyString
  | String b s' => if stop b then EmptyString else String b (take_until stop s')
  end.

Fixpoint drop_until (stop : ascii -> bool) (s : string) : string :=
  match s with
  | EmptyString => EmptyString
  | String b s' => if stop b then s else drop_until stop s'
  end.

Definition is_char (c : ascii) (b : ascii) : bool := Ascii.eqb b c.

Definition ends_netloc (b : ascii) : bool :=
  is_char "/" b || is_char "?" b || is_char "#" b.

Definition tail (s : string) : string :=
  match s with EmptyString => EmptyString | String _ s' => s' end.

Definition plain_urlparse (u : string) : Exn + ParseResult :=
  let sch := take_until (is_char ":") u in
  let rest := drop_until (is_char ":") u in
  if Py.startswith "://" rest then
    let rest := tail (tail (tail rest)) in
    let host := take_until ends_netloc rest in
    let rest := drop_until ends_netloc rest in
    if negb (Bool.eqb (Py.has_char "[" host) (Py.has_char "]" host)) then
      inl (ValueError "Invalid IPv6 URL")
    else
      let before_fragment := take_until (is_char "#") rest in
      inr {| scheme := sch; netloc := host;
             path := take_until (is_char "?") before_fragment;
             params := "";
             query := tail (drop_until (is_char "?") before_fragment);
             fragment := tail (drop_until (is_char "#") rest) |}
  else
    let before_fragment := take_until (is_char "#") u in
    inr {| scheme := ""; netloc := "";
           path := take_until (is_char "?") before_fragment;
           params := "";
           query := tail (drop_until (is_char "?") before_fragment);
           fragment := tail (drop_until (is_char "#") u) |}.

Definition plain_urljoin (base ref : string) : Exn + string :=
  match plain_urlparse ref, plain_urlparse base with
  | inl e, _ | _, inl e => inl e
  | inr r, inr b =>
      if Py.truthy (scheme r) then inr ref
      else if Py.startswith "/" ref then inr (scheme b +:+ "://" +:+ netloc b +:+ ref)
      else inr (scheme b +:+ "://" +:+ netloc b +:+ "/" +:+ ref)
  end.

Definition response (status : Z) (hs : list (string * string)) (body : string) : Response :=
  {| status_code := status; reason := ""; resp_url := ""; headers := hs;
     text := body; chunks := [body]; stream_error := None |}.

Definition page (anchors : list string) (imgs : list Img) (svgs : list string) : Soup :=
  {| soup_prettify := ""; soup_title := None; soup_imgs := imgs;
     soup_stylesheets := []; soup_scripts := []; soup_svgs := svgs;
     soup_anchors := anchors |}.

(** A site given by its pages: the body of a page is its URL, and a URL
    that is not listed answers 404. *)
Definition site_lookup (pages : list (string * Soup)) (u : string) : option Soup :=
  snd <$> List.find (fun p => String.eqb (fst p) u) pages.

Definition site (pages : list (string * Soup)) (robots : RobotsFetch) : World :=
  {| http_get := fun _ u =>
       match site_lookup pages u with
       | Some _ => Responded (response 200 [] u)
       | None => Responded (response 404 [] "")
       end;
     robots_fetch := robots;
     parse_html := fun body =>
       match site_lookup pages body with
       | Some soup => inr soup
       | None => inr (page [] [] [])
       end;
     urlparse := plain_urlparse;
     urljoin := plain_urljoin;
     open_error := fun _ => None;
     write_error := fun _ _ => None;
     makedirs_error := fun _ => None;
     extract_all := fun _ _ => None;
     clock := fun n => 1000000 * (Z.of_nat n + 1) |}.

Definition allow_everything : RobotsFetch := RobotsRules (fun _ _ => inr true).

Definition seed : string := "https://example.test/".

(** The seed links to [/a] twice and to another host; [/a] links back. *)
Definition two_pages : World :=
  site [ (seed, page ["/a"; "https://other.test/"; "/a#top"] [] []);
         ("https://example.test/a", page ["/"] [] []) ]
       allow_everything.

Definition fresh_env : Env := {| trace := []; fs := ∅ |}.

(** A fresh crawler, run; [None] when [__init__] raises. *)
Definition run_polite (W : World) (start : string) (limit : Z)
    : option (Result unit * State (PoliteCrawler.t unit)) :=
  match PoliteCrawler.init W start limit (3 # 2) tt with
  | inl _ => None
  | inr c => Some (PoliteCrawler.crawl W {| env := fresh_env; self := c |})
  end.

End Sample.

(** ** Vocabulary of the statements *)

(** A state in which nothing has happened yet, with the files that exist. *)
Definition fresh {Self} (files : gset string) (c : Self) : State Self :=
  {| env := {| trace := []; fs := files |}; self := c |}.

(** The state with [evs] added to what happened. *)
Definition after_events {Self} (evs : list Event) (s : State Self) : State Self :=
  {| env := {| trace := trace (env s) ++ evs; fs := fs (env s) |}; self := self s |}.

(** What one attempt of [download_with_retry] comes to: the request of
    rank [n], then [raise_for_status].  The exception is a
    [RequestException], which the loop catches, or one that [requests]
    let through, which it does not. *)
Definition attempt (W : World) (n : nat) (url : string) : Exn + Response :=
  match http_get W n url with
  | Failed msg => inl (RequestException msg)
  | Raised e => inl e
  | Responded r =>
      match http_error_msg r with
      | Some msg => inl (RequestException msg)
      | None => inr r
      end
  end.


(** The pages handed to [process_page], in order: the URLs of the
    "Processing page" log lines. *)
Fixpoint processed (tr : list Event) : list string :=
  match tr with
  | [] => []
  | EvLog _ (ProcessingPage u) :: tr' => u :: processed tr'
  | _ :: tr' => processed tr'
  end.

(** The URLs requested through the session, in order. *)
Fixpoint fetched (tr : list Event) : list string :=
  match tr with
  | [] => []
  | EvGet u _ _ :: tr' => u :: fetched tr'
  | _ :: tr' => fetched tr'
  end.

(** A URL as the link loop of [process_page] normalizes it: cut at
    its first [#]. *)
Definition normalized (u : string) : string := Py.split_first "#" u.

(** Marking at enqueue time: no URL sits twice in the queue, and what
    is queued is marked visited. *)
Definition marked_when_enqueued (queue : list string) (visited : gset string) : Prop :=
  NoDup queue ∧ ∀ u, u ∈ queue → u ∈ visited.

(** The state with one more error record, for [url] and [e]. *)
Definition with_error {X} (url : string) (e : Exn) (s : State (PoliteCrawler.t X))
    : State (PoliteCrawler.t X) :=
  {| env := env s;
     self := PoliteCrawler.with_stats
               (CrawlerStats.errors_append {| err_url := url; err_error := exn_str e |})
               (self s) |}.

(** A world whose every answer has the given status. *)
Definition always_status (status : Z) : World :=
  {| http_get := fun _ _ => Responded (Sample.response status [] "");
     robots_fetch := Sample.allow_everything;
     parse_html := fun _ => inr (Sample.page [] [] []);
     urlparse := Sample.plain_urlparse;
     urljoin := Sample.plain_urljoin;
     open_error := fun _ => None;
     write_error := fun _ _ => None;
     makedirs_error := fun _ => None;
     extract_all := fun _ _ => None;
     clock := fun n => Z.of_nat n |}.

(** A fresh crawler for the sample seed, before [crawl]. *)
Definition sample_object {X} (limit : Z) (x : X) : PoliteCrawler.t X :=
  {| PoliteCrawler.start_url := Sample.seed; PoliteCrawler.max_pages := limit;
     PoliteCrawler.delay := 3 # 2; PoliteCrawler.domain := "example.test";
     PoliteCrawler.base_url := "https://example.test";
     PoliteCrawler.visited_urls := ∅; PoliteCrawler.url_queue := [];
     PoliteCrawler.stats := CrawlerStats.init;
     PoliteCrawler.results :=
       {| PoliteCrawler.metadata := None; PoliteCrawler.pages := [];
          PoliteCrawler.assets_images := []; PoliteCrawler.assets_svgs := [];
          PoliteCrawler.assets_data_files := [] |};
     PoliteCrawler.folders := ∅;
     PoliteCrawler.robots_parser := RobotFileParser.init;
     PoliteCrawler.ext := x |}.

Definition sample_crawler (limit : Z) : PoliteCrawler.t unit := sample_object limit tt.

(** The sample crawler in the middle of a run: the seed is queued, and
    the parser forbids everything. *)
Definition sample_forbidden : State (PoliteCrawler.t unit) :=
  fresh ∅
    (PoliteCrawler.with_url_queue (fun _ => [Sample.seed])
       (PoliteCrawler.with_robots_parser
          (fun p => {| RobotFileParser.url := RobotFileParser.url p;
                       RobotFileParser.disallow_all := true;
                       RobotFileParser.allow_all := RobotFileParser.allow_all p;
                       RobotFileParser.last_checked := RobotFileParser.last_checked p;
                       RobotFileParser.entries := RobotFileParser.entries p |})
          (sample_crawler 10))).

(** A computation leaves a view of the state as it was, and comes to an
    end: it returns or raises. *)
Definition keeps {S V A} (v : S -> V) (m : M S A) : Prop :=
  ∀ s, v (snd (m s)) = v s ∧ fst (m s) ≠ OutOfFuel.

(** What the loop of [PoliteCrawler.crawl] relies on: the queue, the
    visited set, the budget, the counter and the pages processed. *)
Definition loop_view {X} (s : State (PoliteCrawler.t X))
    : list string * gset string * Z * Z * list string :=
  (PoliteCrawler.url_queue (self s), PoliteCrawler.visited_urls (self s),
   PoliteCrawler.max_pages (self s),
   CrawlerStats.pages_crawled (PoliteCrawler.stats (self s)),
   processed (trace (env s))).

(** That, and the end time, which [crawl] stamps once the loop has
    ended. *)
Definition crawl_view {X} (s : State (PoliteCrawler.t X))
    : list string * gset string * Z * Z * list string * option Z :=
  (loop_view s, CrawlerStats.end_time (PoliteCrawler.stats (self s))).

(** No page was processed twice, none that is processed is still
    queued, and all of them are marked visited. *)
Definition dedup_inv {X} (s : State (PoliteCrawler.t X)) : Prop :=
  NoDup (processed (trace (env s)) ++ PoliteCrawler.url_queue (self s))
  ∧ ∀ u, u ∈ processed (trace (env s)) ++ PoliteCrawler.url_queue (self s) →
         u ∈ PoliteCrawler.visited_urls (self s).

(** A [process_page] that behaves like that of [PoliteCrawler] towards
    the loop: it logs its page and keeps the rest of the view. *)
Definition page_processor {X}
    (pp : string -> M (State (PoliteCrawler.t X)) (list string)) : Prop :=
  ∀ url s, crawl_view (snd (pp url s))
           = crawl_view (after_events [EvLog INFO (ProcessingPage url)] s)
           ∧ fst (pp url s) ≠ OutOfFuel.

(** What the loop of [IndustrialCrawler.crawl] relies on for its
    requests: the visited set and the URLs requested so far. *)
Definition fetch_view (s : State IndustrialCrawler.t) : gset string * list string :=
  (IndustrialCrawler.visited_urls (self s), fetched (trace (env s))).

(** No URL was requested twice, and what was requested is marked
    visited. *)
Definition fetch_inv (s : State IndustrialCrawler.t) : Prop :=
  NoDup (fetched (trace (env s)))
  ∧ ∀ u, u ∈ fetched (trace (env s)) → u ∈ IndustrialCrawler.visited_urls (self s).

(** A page that links twice to the same page. *)
Definition double_link : World :=
  Sample.site [ (Sample.seed, Sample.page ["/a"; "/a"] [] []) ] Sample.allow_everything.

Definition sample_industrial : IndustrialCrawler.t :=
  {| IndustrialCrawler.start_url := Sample.seed; IndustrialCrawler.max_pages := 50;
     IndustrialCrawler.delay := 1 # 2; IndustrialCrawler.has_callback := false;
     IndustrialCrawler.domain := "example.test";
     IndustrialCrawler.visited_urls := ∅; IndustrialCrawler.url_queue := [Sample.seed];
     IndustrialCrawler.extracted_data := []; IndustrialCrawler.stats_pages := 0;
     IndustrialCrawler.stats_errors := 0 |}.

(** The requests and sleeps of [k] attempts in a row: a request with a
    timeout of 10, and one second of sleep before each further one. *)
Fixpoint retry_schedule (url : string) (stream : bool) (k : nat) : list Event :=
  match k with
  | O => []
  | S k' =>
      EvGet url stream 10
      :: match k' with
         | O => []
         | S _ => EvSleep 1 :: retry_schedule url stream k'
         end
  end.

(** Reading robots.txt did not give a rule set to consult: [urlopen] or
    the decoding raised, or the server answered with an HTTP error
    other than the 4xx that [read] takes for "no robots.txt". *)
Definition robots_unavailable (f : RobotsFetch) : bool :=
  match f with
  | RobotsRaised _ => true
  | RobotsHTTPError code =>
      (code =? 401) || (code =? 403) || negb ((400 <=? code) && (code <? 500))
  | RobotsRules _ => false
  end.

(** The sample site, with robots.txt out of reach. *)
Definition robots_out_of_reach : World :=
  Sample.site [ (Sample.seed, Sample.page ["/a"] [] []) ]
    (RobotsRaised (URLError "<urlopen error [Errno 111] Connection refused>")).


(** A site that refuses every connection. *)
Definition connection_refused : World :=
  {| http_get := fun _ _ => Failed "Connection refused";
     robots_fetch := Sample.allow_everything;
     parse_html := fun _ => inr (Sample.page [] [] []);
     urlparse := Sample.plain_urlparse;
     urljoin := Sample.plain_urljoin;
     open_error := fun _ => None;
     write_error := fun _ _ => None;
     makedirs_error := fun _ => None;
     extract_all := fun _ _ => None;
     clock := fun n => Z.of_nat n |}.

(** A home page with an inline drawing. *)
Definition inline_svg : World :=
  Sample.site [ (Sample.seed, Sample.page ["/a"] [] ["<svg></svg>"]) ]
    Sample.allow_everything.

(** A site of three pages, and a disk on which the second page cannot
    be written. *)
Definition page_not_writable : World :=
  let W := Sample.site
             [ (Sample.seed, Sample.page ["/a"; "/b"] [] []);
               ("https://example.test/a", Sample.page [] [] []);
               ("https://example.test/b", Sample.page [] [] []) ]
             Sample.allow_everything in
  {| http_get := http_get W; robots_fetch := robots_fetch W;
     parse_html := parse_html W; urlparse := urlparse W; urljoin := urljoin W;
     open_error := fun p =>
       if String.eqb p "example.test/pages/a.html"
       then Some (OSError "[Errno 28] No space left on device")
       else None;
     write_error := write_error W;
     makedirs_error := makedirs_error W; extract_all := extract_all W;
     clock := clock W |}.

(** A home page that links to a page and to a place in that page; the
    server answers both names. *)
Definition fragment_links : World :=
  Sample.site [ (Sample.seed, Sample.page ["/a"; "/a#top"] [] []);
                ("https://example.test/a", Sample.page [] [] []);
                ("https://example.test/a#top", Sample.page [] [] []) ]
    Sample.allow_everything.

(** A URL whose host has an empty label: when it connects,
    [session.get] raises urllib3's [LocationParseError], which is a
    [ValueError] and no [RequestException]. *)
Definition bad_host : string := "https://example..test/".

Definition bad_host_error : Exn :=
  ValueError "Failed to parse: 'example..test', label empty or too long".

Definition unparsable_host : World :=
  {| http_get := fun _ _ => Raised bad_host_error;
     robots_fetch := Sample.allow_everything;
     parse_html := fun _ => inr (Sample.page [] [] []);
     urlparse := Sample.plain_urlparse;
     urljoin := Sample.plain_urljoin;
     open_error := fun _ => None;
     write_error := fun _ _ => None;
     makedirs_error := fun _ => None;
     extract_all := fun _ _ => None;
     clock := fun n => Z.of_nat n |}.

(** A home page that links to itself, and a seed that names it with a
    fragment; the server answers both names with the same page. *)
Definition seed_with_fragment : string := "https://example.test/#top".

Definition home_twice : World :=
  Sample.site [ (seed_with_fragment, Sample.page ["/"] [] []);
                (Sample.seed, Sample.page ["/"] [] []) ]
    Sample.allow_everything.

(** What is looked at in the outcome of a sample run. *)
Record Outcome : Type := {
  result : Result unit;            (* how [crawl] ended *)
  counted : Z;                     (* [stats.pages_crawled] *)
  queued : list string;            (* [url_queue] *)
  requested : list string;         (* the URLs of the requests, in order *)
  recorded : list ErrorRecord;     (* [stats.errors] *)
  archived : list string;          (* the ['url'] of each of [results['pages']] *)
  stamped : bool                   (* [stats.end_time] is set *)
}.

Definition outcome (run : option (Result unit * State (PoliteCrawler.t unit)))
    : option Outcome :=
  (fun r : Result unit * State (PoliteCrawler.t unit) =>
     {| result := r.1;
        counted := CrawlerStats.pages_crawled (PoliteCrawler.stats (self r.2));
        queued := PoliteCrawler.url_queue (self r.2);
        requested := fetched (trace (env r.2));
        recorded := CrawlerStats.errors (PoliteCrawler.stats (self r.2));
        archived :=
          PoliteCrawler.pd_url <$> PoliteCrawler.pages (PoliteCrawler.results (self r.2));
        stamped :=
          match CrawlerStats.end_time (PoliteCrawler.stats (self r.2)) with
          | Some _ => true
          | None => false
          end |}) <$> run.

(** The folder table of the object. *)
Definition folders_view {X} (s : State (PoliteCrawler.t X)) : gmap string string :=
  PoliteCrawler.folders (self s).

(** ** Vocabulary of the properties of a whole run *)

(** A computation takes every state to a state that is related to it,
    and comes to an end: it returns or raises. *)
Definition follows {S A} (R : S → S → Prop) (m : M S A) : Prop :=
  ∀ s, R s (snd (m s)) ∧ fst (m s) ≠ OutOfFuel.

(** From one state to a later one: what happened is still on record,
    followed by events that all satisfy [P]; the files that existed
    still exist; and the view [v] of the object is as it was. *)
Definition grows {Self V} (P : Event → bool) (v : Self → V) (s s' : State Self) : Prop :=
  v (self s') = v (self s)
  ∧ fs (env s) ⊆ fs (env s')
  ∧ ∃ evs, trace (env s') = trace (env s) ++ evs ∧ forallb P evs = true.

(** What [crawl] sets before its loop and the rounds of the loop leave
    to the loop itself. *)
Definition config_view {X} (c : PoliteCrawler.t X)
    : string * Z * Q * string * string * gset string * list string * Z :=
  (PoliteCrawler.start_url c, PoliteCrawler.max_pages c, PoliteCrawler.delay c,
   PoliteCrawler.domain c, PoliteCrawler.base_url c,
   PoliteCrawler.visited_urls c, PoliteCrawler.url_queue c,
   CrawlerStats.pages_crawled (PoliteCrawler.stats c)).

(** That, with the folder table and the robots.txt parser, which are
    set before the loop. *)
Definition static_view {X} (c : PoliteCrawler.t X)
    : string * Z * Q * string * string * gset string * list string * Z
      * gmap string string * RobotFileParser.t :=
  (config_view c, PoliteCrawler.folders c, PoliteCrawler.robots_parser c).

(** What [process_page] leaves alone: all of the object but the
    statistics of assets, links and errors, and the results. *)
Definition page_view {X} (c : PoliteCrawler.t X)
    : string * Z * Q * string * string * gset string * list string * Z
      * gmap string string * RobotFileParser.t * option Z * option Z * X
      * option PoliteCrawler.Metadata :=
  (static_view c, CrawlerStats.start_time (PoliteCrawler.stats c),
   CrawlerStats.end_time (PoliteCrawler.stats c), PoliteCrawler.ext c,
   PoliteCrawler.metadata (PoliteCrawler.results c)).

(** The events of [crawl] outside the rounds of its loop: log lines
    other than "Processing page", folders, robots.txt and the results
    file; no request and no sleep. *)
Definition quiet (e : Event) : bool :=
  match e with
  | EvLog _ (ProcessingPage _) => false
  | EvLog _ _ => true
  | EvMakedirs _ | EvUrlopen _ | EvOpen _ | EvJsonDump _ | EvPrintSummary => true
  | _ => false
  end.

(** The events of a page once it is fetched: log lines other than
    "Processing page", requests for assets ([stream=True]) with a
    timeout of 10, the second of sleep before a retry, and files. *)
Definition asset_event (e : Event) : bool :=
  match e with
  | EvLog _ (ProcessingPage _) => false
  | EvLog _ _ => true
  | EvGet _ true t => t =? 10
  | EvSleep d => Qeq_bool d 1
  | EvOpen _ | EvWrite _ _ => true
  | _ => false
  end.

(** What [PoliteCrawler.can_fetch] answers for a URL: the answer of
    the parser, and [True] when the parser raises. *)
Definition allowed (p : RobotFileParser.t) (u : string) : bool :=
  match RobotFileParser.can_fetch p "PoliteCrawler" u with
  | inl _ => true
  | inr b => b
  end.

(** The requests for the page [u] ([stream=False]) among the events. *)
Definition is_page_request (u : string) (e : Event) : bool :=
  match e with
  | EvGet v false _ => String.eqb v u
  | _ => false
  end.

Definition page_requests (u : string) (tr : list Event) : nat :=
  length (List.filter (is_page_request u) tr).

(** Every request has a timeout of 10 seconds. *)
Definition has_timeout (e : Event) : bool :=
  match e with
  | EvGet _ _ t => t =? 10
  | _ => true
  end.

(** For each "Processing page" line, the event just before it ([prev]
    before the first event). *)
Fixpoint page_predecessors (prev : option Event) (tr : list Event) : list (option Event) :=
  match tr with
  | [] => []
  | e :: tr' =>
      match e with
      | EvLog _ (ProcessingPage _) => prev :: page_predecessors (Some e) tr'
      | _ => page_predecessors (Some e) tr'
      end
  end.

(** A link of the domain [d] as [process_page] returns it: a URL whose
    network location is [d], cut at its first [#]. *)
Definition in_scope (W : World) (d : string) (link : string) : Prop :=
  ∃ full parsed,
    urlparse W full = inr parsed ∧ netloc parsed = d
    ∧ link = Py.split_first "#" full.

(** The object once the seed is queued and marked. *)
Definition seeded {X} (s : State (PoliteCrawler.t X)) : State (PoliteCrawler.t X) :=
  {| env := env s;
     self := PoliteCrawler.with_visited_urls
               (fun v => {[PoliteCrawler.start_url (self s)]} ∪ v)
               (PoliteCrawler.with_url_queue
                  (fun q => q ++ [PoliteCrawler.start_url (self s)]) (self s)) |}.

(** What [crawl] does once its loop has ended. *)
Definition finish {X} (W : World) : M (State (PoliteCrawler.t X)) unit :=
  now <- datetime_now W ;;
  modify_self (PoliteCrawler.with_stats (CrawlerStats.with_end_time (Some now))) ;;
  PoliteCrawler.save_results W ;;
  PoliteCrawler.print_summary.

(** The pause before a round of the loop, by the counter. *)
Definition page_pause (counter : Z) (d : Q) : list Event :=
  if 0 <? counter then [EvLog DEBUG (SleepingFor d); EvSleep d] else [].

(** What no method changes once [crawl] has read robots.txt. *)
Definition settings {X} (c : PoliteCrawler.t X)
    : string * Z * Q * string * string * gmap string string * RobotFileParser.t :=
  (PoliteCrawler.start_url c, PoliteCrawler.max_pages c, PoliteCrawler.delay c,
   PoliteCrawler.domain c, PoliteCrawler.base_url c, PoliteCrawler.folders c,
   PoliteCrawler.robots_parser c).

(** A round of the loop of [crawl] up to the call of [process_page]:
    the pause, and the head of the queue taken off. *)
Definition popped {X} (rest : list string) (s : State (PoliteCrawler.t X))
    : State (PoliteCrawler.t X) :=
  {| env := {| trace := trace (env s)
                        ++ page_pause (CrawlerStats.pages_crawled (PoliteCrawler.stats (self s)))
                             (PoliteCrawler.delay (self s));
               fs := fs (env s) |};
     self := PoliteCrawler.with_url_queue (fun _ => rest) (self s) |}.

(** A round of the loop from the return of [process_page] to the loop
    over the links: the page is counted and the progress reported. *)
Definition page_counted {X} (url : string) (s : State (PoliteCrawler.t X))
    : State (PoliteCrawler.t X) :=
  let c := PoliteCrawler.with_stats (CrawlerStats.with_pages_crawled (fun n => n + 1))
             (self s) in
  {| env := {| trace := trace (env s)
                        ++ [EvProgress
                              {| p_pages_crawled :=
                                   CrawlerStats.pages_crawled (PoliteCrawler.stats c);
                                 p_max_pages := PoliteCrawler.max_pages c;
                                 p_current_url := url;
                                 p_assets_downloaded :=
                                   CrawlerStats.assets_downloaded (PoliteCrawler.stats c);
                                 p_queue_size :=
                                   Z.of_nat (length (PoliteCrawler.url_queue c)) |}];
               fs := fs (env s) |};
     self := c |}.

(** The object with [n] more links found. *)
Definition after_links {X} (n : Z) (s : State (PoliteCrawler.t X))
    : State (PoliteCrawler.t X) :=
  {| env := env s;
     self := PoliteCrawler.with_stats (CrawlerStats.with_urls_found (fun m => m + n))
               (self s) |}.

(** Any event at all. *)
Definition any_event (e : Event) : bool := true.

(** The last event, or [prev] when nothing has happened. *)
Definition last_event (prev : option Event) (tr : list Event) : option Event :=
  match last tr with
  | Some e => Some e
  | None => prev
  end.

(** Every page but the first is handed to [process_page] right after
    a sleep of [d] seconds. *)
Definition paced (d : Q) (tr : list Event) : Prop :=
  Forall (λ prev, prev = Some (EvSleep d)) (tail (page_predecessors None tr)).

(** How many times [u] is in a list of URLs. *)
Definition times (u : string) (l : list string) : nat :=
  length (List.filter (String.eqb u) l).

(** A request for a page ([stream=False]) is for a URL that
    [can_fetch] allows. *)
Definition compliant (p : RobotFileParser.t) (e : Event) : bool :=
  match e with
  | EvGet u false _ => allowed p u
  | _ => true
  end.

(** [link] is what [find_internal_links] makes of the anchor [href] of
    the page at [url], for the domain [d]: the anchor does not hold
    ["mailto:"], its URL resolves to the domain, and the link is that
    URL cut at its first [#]. *)
Definition link_of (W : World) (url d href link : string) : Prop :=
  ∃ full parsed,
    urljoin W url href = inr full
    ∧ urlparse W full = inr parsed
    ∧ netloc parsed = d
    ∧ Py.contains "mailto:" href = false
    ∧ link = Py.split_first "#" full.

(** The two counters of assets. *)
Definition asset_counters {X} (c : PoliteCrawler.t X) : Z * Z :=
  (CrawlerStats.assets_downloaded (PoliteCrawler.stats c),
   CrawlerStats.total_bytes (PoliteCrawler.stats c)).

(** [len] of all the chunks of a body. *)
Definition total_len (chunks : list string) : Z :=
  foldr (fun chunk n => Py.len chunk + n) 0 chunks.

(** The chunks of a body that are written to the file at [p] before a
    write fails, if one does. *)
Fixpoint written (W : World) (p : string) (chunks : list string) : list string :=
  match chunks with
  | [] => []
  | chunk :: chunks' =>
      match write_error W p chunk with
      | Some _ => []
      | None => chunk :: written W p chunks'
      end
  end.

(** What breaks the writing of a body off, if anything: the first
    write that fails, or else what the stream raises after its chunks
    ([broken]). *)
Fixpoint body_error (W : World) (p : string) (chunks : list string)
    (broken : option Exn) : option Exn :=
  match chunks with
  | [] => broken
  | chunk :: chunks' =>
      match write_error W p chunk with
      | Some e => Some e
      | None => body_error W p chunks' broken
      end
  end.

(** The answer of [can_fetch] once robots.txt was read or found
    missing. *)
Definition robots_answer (f : RobotsFetch) (url : string) : bool :=
  match f with
  | RobotsRules rules =>
      match rules "PoliteCrawler" url with
      | inl _ => true
      | inr b => b
      end
  | _ => true
  end.

(** The folders of [setup_folders], by key. *)
Definition folder_table (d : string) : list (string * string) :=
  [ ("root", d);
    ("html", Py.path_join d "pages");
    ("images", Py.path_join (Py.path_join d "assets") "images");
    ("svgs", Py.path_join (Py.path_join d "assets") "svgs");
    ("data", Py.path_join d "data") ].

(** A URL whose network location is [d]. *)
Definition same_domain (W : World) (d : string) (u : string) : Prop :=
  ∃ parsed, urlparse W u = inr parsed ∧ netloc parsed = d.


(** What [IndustrialCrawler.crawl] never changes. *)
Definition industrial_consts (c : IndustrialCrawler.t) : string * Z * Q * bool * string :=
  (IndustrialCrawler.start_url c, IndustrialCrawler.max_pages c,
   IndustrialCrawler.delay c, IndustrialCrawler.has_callback c,
   IndustrialCrawler.domain c).

(** What a round of [IndustrialCrawler.crawl] leaves alone once the
    page is counted: all of the object but the queue. *)
Definition industrial_view (c : IndustrialCrawler.t)
    : string * Z * Q * bool * string * gset string * list string * Z * Z :=
  (industrial_consts c, IndustrialCrawler.visited_urls c,
   IndustrialCrawler.extracted_data c, IndustrialCrawler.stats_pages c,
   IndustrialCrawler.stats_errors c).

(** A cookie that [check_cookies] has nothing to say about: it has the
    [HttpOnly] and [SameSite] attributes, and the [Secure] flag unless
    the page is not an [https://] one. *)
Definition cookie_is_safe (url : string) (c : SecurityCrawler.Cookie) : bool :=
  (SecurityCrawler.cookie_secure c || negb (Py.startswith "https://" url))
  && SecurityCrawler.has_nonstandard_attr "HttpOnly" c
  && SecurityCrawler.has_nonstandard_attr "SameSite" c.

(** The findings of a severity *)
Definition findings (sev : SecurityCrawler.Severity)
    (s : State (PoliteCrawler.t SecurityCrawler.Ext)) : list SecurityCrawler.Finding :=
  SecurityCrawler.issues sev (SecurityCrawler.security_issues (PoliteCrawler.ext (self s))).

(** The URLs of the files that [check_sensitive_files] probes *)
Definition probe_urls (W : World) (base : string) (files : list string) : list string :=
  omap (fun file => match urljoin W base file with
                    | inr url => Some url
                    | inl _ => None
                    end) files.

(** All of the object of a [SecurityCrawler] but its findings *)
Definition beside_findings (c : PoliteCrawler.t SecurityCrawler.Ext)
    : PoliteCrawler.t unit * option string * gset string :=
  ({| PoliteCrawler.start_url := PoliteCrawler.start_url c;
      PoliteCrawler.max_pages := PoliteCrawler.max_pages c;
      PoliteCrawler.delay := PoliteCrawler.delay c;
      PoliteCrawler.domain := PoliteCrawler.domain c;
      PoliteCrawler.base_url := PoliteCrawler.base_url c;
      PoliteCrawler.visited_urls := PoliteCrawler.visited_urls c;
      PoliteCrawler.url_queue := PoliteCrawler.url_queue c;
      PoliteCrawler.stats := PoliteCrawler.stats c;
      PoliteCrawler.results := PoliteCrawler.results c;
      PoliteCrawler.folders := PoliteCrawler.folders c;
      PoliteCrawler.robots_parser := PoliteCrawler.robots_parser c;
      PoliteCrawler.ext := tt |},
   SecurityCrawler.cms_detected (PoliteCrawler.ext c),
   SecurityCrawler.subdomains_found (PoliteCrawler.ext c)).

(** The events that are requests *)
Definition requests (tr : list Event) : list Event := List.filter is_get tr.

(** The object of a [SecurityCrawler] as a [PoliteCrawler]: all but
    what the subclass adds. *)
Definition polite_part (c : PoliteCrawler.t SecurityCrawler.Ext) : PoliteCrawler.t unit :=
  fst (fst (beside_findings c)).

(** The anchors that [extract_links] does not skip *)
Definition kept_anchors (anchors : list DataExtractor.Anchor) : list DataExtractor.Anchor :=
  List.filter (fun a => negb (DataExtractor.skipped_href (DataExtractor.a_href a))) anchors.

(** ** More sample worlds *)


(** A server whose pages the parser cannot read. *)
Definition unparsable : World :=
  {| http_get := fun _ _ => Responded (Sample.response 200 [] "<html");
     robots_fetch := Sample.allow_everything;
     parse_html := fun _ => inl (OtherException "parser failure");
     urlparse := Sample.plain_urlparse;
     urljoin := Sample.plain_urljoin;
     open_error := fun _ => None;
     write_error := fun _ _ => None;
     makedirs_error := fun _ => None;
     extract_all := fun _ _ => None;
     clock := fun n => Z.of_nat n |}.

(** The sample site, with a robots.txt that closes [/private]. *)
Definition private_area : World :=
  Sample.site [ (Sample.seed, Sample.page ["/a"; "/private/b"] [] []);
                ("https://example.test/a", Sample.page [] [] []);
                ("https://example.test/private/b", Sample.page [] [] []) ]
    (RobotsRules (fun _ url => inr (negb (Py.contains "/private" url)))).

(** A site that serves its [.env]. *)
Definition exposed_env : World :=
  Sample.site [ (Sample.seed, Sample.page [] [] []);
                ("https://example.test/.env", Sample.page [] [] []) ]
    Sample.allow_everything.

(** A fresh [SecurityCrawler] for the sample seed. *)
Definition sample_auditor : State (PoliteCrawler.t SecurityCrawler.Ext) :=
  fresh ∅ (sample_object 10 SecurityCrawler.init_ext).

(** A line of free text in the samples. *)
Definition sample_line (text : string) : LogMsg := CouldNotReadRobots text.

(** The anchors of a sample page: one on the site, one that is
    skipped, one elsewhere, and the first one again. *)
Definition sample_anchors : list DataExtractor.Anchor :=
  [ {| DataExtractor.a_href := "/a"; DataExtractor.a_text := "A" |};
    {| DataExtractor.a_href := "mailto:team@example.test"; DataExtractor.a_text := "Mail" |};
    {| DataExtractor.a_href := "https://other.test/"; DataExtractor.a_text := "Other" |};
    {| DataExtractor.a_href := "/a"; DataExtractor.a_text := "A again" |} ].

(** * Properties *)

(** ** The summary of the statistics *)

Lemma round_half_even_nearest (n d : Z) :
  0 < d → 2 * Z.abs (n - d * Py.round_half_even n d) <= d.
Proof.
  intros Hd. unfold Py.round_half_even.
  pose proof (Z.div_mod n d ltac:(lia)) as Hdm.
  pose proof (Z.mod_pos_bound n d Hd) as Hb.
  destruct (2 * (n mod d) <? d) eqn:E1; [apply Z.ltb_lt in E1 | apply Z.ltb_ge in E1].
  - lia.
  - destruct (d <? 2 * (n mod d)) eqn:E2; [apply Z.ltb_lt in E2 | apply Z.ltb_ge in E2].
    + lia.
    + destruct (Z.even (n / d)); lia.
Qed.

(** C7. [to_dict] reports a duration of 0 as soon as the start time or
    the end time is unset; [total_mb] is [total_bytes / 1048576] rounded
    to the nearest hundredth, so that 1,572,864 bytes give 1.5; the
    stored errors are the first 10 at most, while [errors_count] is the
    number of all errors. *)
Theorem to_dict_summary (s : CrawlerStats.t) :
  let d := CrawlerStats.to_dict s in
  (CrawlerStats.start_time s = None ∨ CrawlerStats.end_time s = None →
     CrawlerStats.d_duration_seconds_x100 d = 0)
  ∧ 2 * Z.abs (100 * CrawlerStats.total_bytes s
               - 1048576 * CrawlerStats.d_total_mb_x100 d) <= 1048576
  ∧ (CrawlerStats.total_bytes s = 1572864 → CrawlerStats.d_total_mb_x100 d = 150)
  ∧ CrawlerStats.d_errors d = take 10 (CrawlerStats.errors s)
  ∧ (length (CrawlerStats.d_errors d) <= 10)%nat
  ∧ CrawlerStats.d_errors_count d = Z.of_nat (length (CrawlerStats.errors s)).
Proof.
  cbv zeta. repeat split.
  - intros H. unfold CrawlerStats.to_dict, CrawlerStats.duration_us; simpl.
    destruct H as [-> | ->]; [| destruct (CrawlerStats.start_time s)]; reflexivity.
  - unfold CrawlerStats.to_dict, CrawlerStats.round2; simpl.
    apply (round_half_even_nearest (100 * CrawlerStats.total_bytes s) 1048576). lia.
  - intros H. unfold CrawlerStats.to_dict; simpl. rewrite H. reflexivity.
  - unfold CrawlerStats.to_dict; simpl. rewrite length_take. lia.
Qed.

Lemma to_dict_summary_witness :
  CrawlerStats.d_duration_seconds_x100 (CrawlerStats.to_dict CrawlerStats.init) = 0
  ∧ CrawlerStats.d_total_mb_x100
      (CrawlerStats.to_dict
         (CrawlerStats.with_total_bytes (fun _ => 1572864) CrawlerStats.init)) = 150.
Proof.
  split.
  - apply (proj1 (to_dict_summary CrawlerStats.init)). left. reflexivity.
  - apply (proj1 (proj2 (proj2 (to_dict_summary
             (CrawlerStats.with_total_bytes (fun _ => 1572864) CrawlerStats.init))))).
    reflexivity.
Defined.

(** Running the monad: the plumbing is unfolded, what the methods
    compute stays folded. *)
Ltac run_monad :=
  cbv beta iota delta
    [bind ret raise out_of_fuel try_except gets modify gets_self modify_self
     emit logger time_sleep session_get touch open_w write os_makedirs
     os_path_exists datetime_now call when raise_for_status
     PoliteCrawler.record_error is_Exception is_RequestException];
  cbn [fst snd env self trace fs];
  try unfold PoliteCrawler.TIMEOUT.

(** ** Fetching with retries *)

Section Retry.
Context {X : Type}.
Variable W : World.
Implicit Types s : State (PoliteCrawler.t X).

Lemma requests_made_app (tr evs : list Event) :
  requests_made (tr ++ evs) = (requests_made tr + requests_made evs)%nat.
Proof. unfold requests_made. rewrite List.filter_app, length_app. reflexivity. Qed.

Lemma after_events_app s (evs1 evs2 : list Event) :
  after_events evs2 (after_events evs1 s) = after_events (evs1 ++ evs2) s.
Proof. unfold after_events; simpl. rewrite <- app_assoc. reflexivity. Qed.

(** An attempt fails with a [RequestException] unless [requests] let
    another exception through. *)
Lemma attempt_raises_RequestException (n : nat) (url : string) (e : Exn) :
  attempt W n url = inl e →
  is_RequestException e = true ∨ http_get W n url = Raised e.
Proof.
  unfold attempt. destruct (http_get W n url) as [r | msg | e'].
  - destruct (http_error_msg r); intros H; inversion H; left; reflexivity.
  - intros H; inversion H; left; reflexivity.
  - intros H; inversion H; right; reflexivity.
Qed.

(** One round of the loop of [download_with_retry]. *)
Lemma retry_from_step (url : string) (stream : bool) (left : nat) (a : Z) s :
  PoliteCrawler.retry_from W url stream (S left) a s =
  match attempt W (requests_made (trace (env s))) url with
  | inr r => (Ok (Some r), after_events [EvGet url stream 10] s)
  | inl e =>
      if is_RequestException e then
        if a =? 2 then
          (Ok None,
           with_error url e
             (after_events [EvGet url stream 10;
                            EvLog ERROR (FailedDownload url 3 (exn_str e))] s))
        else
          PoliteCrawler.retry_from W url stream left (a + 1)
            (after_events [EvGet url stream 10; EvSleep 1] s)
      else (Raise e, after_events [EvGet url stream 10] s)
  end.
Proof.
  unfold attempt. cbn [PoliteCrawler.retry_from].
  run_monad.
  destruct (http_get W (requests_made (trace (env s))) url) as [r | msg | e].
  - run_monad. destruct (http_error_msg r) as [msg |]; run_monad.
    + change (PoliteCrawler.MAX_RETRIES - 1) with 2.
      destruct (a =? 2); run_monad;
        unfold after_events, with_error; cbn; rewrite <- app_assoc; reflexivity.
    + reflexivity.
  - change (PoliteCrawler.MAX_RETRIES - 1) with 2.
    destruct (a =? 2); run_monad;
      unfold after_events, with_error; cbn; rewrite <- app_assoc; reflexivity.
  - destruct e; cbn [is_RequestException]; run_monad; try reflexivity.
    change (PoliteCrawler.MAX_RETRIES - 1) with 2.
    destruct (a =? 2); run_monad;
      unfold after_events, with_error; cbn; rewrite <- app_assoc; reflexivity.
Qed.

Lemma requests_made_after_attempt (tr : list Event) (url : string) (stream : bool)
    (evs : list Event) :
  requests_made evs = O →
  requests_made (tr ++ EvGet url stream 10 :: evs) = S (requests_made tr).
Proof.
  intros H. rewrite requests_made_app. unfold requests_made in *. simpl. lia.
Qed.

(** [download_with_retry], case by case on its three attempts. *)
Lemma download_with_retry_run (url : string) (stream : bool) s :
  let n := requests_made (trace (env s)) in
  let G := EvGet url stream 10 in
  let Z1 := EvSleep 1 in
  PoliteCrawler.download_with_retry W url stream s =
  match attempt W n url with
  | inr r => (Ok (Some r), after_events [G] s)
  | inl e0 =>
      if is_RequestException e0 then
        match attempt W (S n) url with
        | inr r => (Ok (Some r), after_events [G; Z1; G] s)
        | inl e1 =>
            if is_RequestException e1 then
              match attempt W (S (S n)) url with
              | inr r => (Ok (Some r), after_events [G; Z1; G; Z1; G] s)
              | inl e =>
                  if is_RequestException e then
                    (Ok None,
                     with_error url e
                       (after_events
                          [G; Z1; G; Z1; G;
                           EvLog ERROR (FailedDownload url 3 (exn_str e))] s))
                  else (Raise e, after_events [G; Z1; G; Z1; G] s)
              end
            else (Raise e1, after_events [G; Z1; G] s)
        end
      else (Raise e0, after_events [G] s)
  end.
Proof.
  cbv zeta. unfold PoliteCrawler.download_with_retry.
  change (Z.to_nat PoliteCrawler.MAX_RETRIES) with 3%nat.
  rewrite retry_from_step.
  destruct (attempt W (requests_made (trace (env s))) url) as [e0 | r0]; [| reflexivity].
  destruct (is_RequestException e0); [| reflexivity].
  change (0 =? 2) with false. cbv iota.
  rewrite retry_from_step. cbn [after_events env trace].
  rewrite (requests_made_after_attempt _ url stream [EvSleep 1] eq_refl).
  destruct (attempt W (S (requests_made (trace (env s)))) url) as [e1 | r1].
  - destruct (is_RequestException e1);
      [| unfold after_events; cbn; rewrite <- !app_assoc; reflexivity].
    change (0 + 1 =? 2) with false. cbv iota.
    rewrite retry_from_step. cbn [after_events env trace].
    rewrite (requests_made_after_attempt _ url stream [EvSleep 1] eq_refl).
    rewrite (requests_made_after_attempt _ url stream [EvSleep 1] eq_refl).
    destruct (attempt W (S (S (requests_made (trace (env s))))) url) as [e2 | r2].
    + destruct (is_RequestException e2).
      * change (0 + 1 + 1 =? 2) with true. cbv iota.
        unfold with_error, after_events. cbn. rewrite <- !app_assoc. reflexivity.
      * unfold after_events. cbn. rewrite <- !app_assoc. reflexivity.
    + unfold after_events. cbn. rewrite <- !app_assoc. reflexivity.
  - unfold after_events. cbn. rewrite <- !app_assoc. reflexivity.
Qed.

(** C4, as amended. [download_with_retry] makes between one and three
    requests, each with a timeout of 10, with one second of sleep
    before each further one; an attempt fails when the request raises
    a [RequestException] or the status is 4xx or 5xx, and any other
    status is a success; every attempt before the last one made has
    failed.  When the last attempt made succeeds, its response is
    returned and nothing is recorded.  When it fails, it is the third:
    [None] is returned and one error record, for the URL and that
    failure, has been appended.  No [RequestException] ever leaves
    [download_with_retry]; an exception of another class that
    [session.get] raises is not caught: it leaves at once, after that
    request, with nothing logged and nothing recorded. *)
Theorem download_with_retry_outcomes (url : string) (stream : bool) s :
  let n := requests_made (trace (env s)) in
  ∃ attempts : nat,
    (1 <= attempts <= 3)%nat
    ∧ (∀ j, (S j < attempts)%nat →
            ∃ e, attempt W (n + j) url = inl e ∧ is_RequestException e = true)
    ∧ match attempt W (n + (attempts - 1)) url with
      | inr r =>
          PoliteCrawler.download_with_retry W url stream s
          = (Ok (Some r), after_events (retry_schedule url stream attempts) s)
      | inl e =>
          if is_RequestException e then
            attempts = 3%nat
            ∧ PoliteCrawler.download_with_retry W url stream s
              = (Ok None,
                 with_error url e
                   (after_events
                      (retry_schedule url stream 3
                       ++ [EvLog ERROR (FailedDownload url 3 (exn_str e))]) s))
          else
            PoliteCrawler.download_with_retry W url stream s
            = (Raise e, after_events (retry_schedule url stream attempts) s)
      end.
Proof.
  cbv zeta. rewrite download_with_retry_run. cbv zeta.
  destruct (attempt W (requests_made (trace (env s))) url) as [e0 | r0] eqn:H0.
  - destruct (is_RequestException e0) eqn:R0.
    + destruct (attempt W (S (requests_made (trace (env s)))) url) as [e1 | r1] eqn:H1.
      * destruct (is_RequestException e1) eqn:R1.
        -- exists 3%nat. split; [lia |]. split.
           { intros j Hj. destruct j as [| [| j]]; [| | lia].
             - rewrite Nat.add_0_r. eauto.
             - rewrite Nat.add_1_r. eauto. }
           cbn [Nat.sub]. rewrite Nat.add_comm. cbn [Nat.add].
           destruct (attempt W (S (S (requests_made (trace (env s))))) url)
             as [e2 | r2]; [| reflexivity].
           destruct (is_RequestException e2); [split |]; reflexivity.
        -- exists 2%nat. split; [lia |]. split.
           { intros j Hj. destruct j as [| j]; [| lia]. rewrite Nat.add_0_r. eauto. }
           cbn [Nat.sub]. rewrite Nat.add_1_r, H1, R1. reflexivity.
      * exists 2%nat. split; [lia |]. split.
        { intros j Hj. destruct j as [| j]; [| lia]. rewrite Nat.add_0_r. eauto. }
        cbn [Nat.sub]. rewrite Nat.add_1_r, H1. reflexivity.
    + exists 1%nat. split; [lia |]. split.
      { intros j Hj. lia. }
      cbn [Nat.sub]. rewrite Nat.add_0_r, H0, R0. reflexivity.
  - exists 1%nat. split; [lia |]. split.
    { intros j Hj. lia. }
    cbn [Nat.sub]. rewrite Nat.add_0_r, H0. reflexivity.
Qed.

End Retry.

(** C4, the claim as worded fails, twice. A 304 answer is no 2xx
    status, yet the first attempt is taken as a success, with one
    request, no sleep and no error record.  And an exception that is
    no [RequestException] leaves [download_with_retry] for its caller:
    for a host that cannot be parsed, after one request, with no
    retry and no error record. *)
Lemma download_with_retry_accepts_304_and_lets_errors_through :
  let s := fresh ∅ (sample_crawler 10) in
  (∃ r, status_code r = 304
        ∧ ¬ (200 <= status_code r < 300)
        ∧ PoliteCrawler.download_with_retry (always_status 304) Sample.seed false s
          = (Ok (Some r), after_events [EvGet Sample.seed false 10] s))
  ∧ PoliteCrawler.download_with_retry unparsable_host bad_host true s
    = (Raise bad_host_error, after_events [EvGet bad_host true 10] s)
  ∧ is_RequestException bad_host_error = false.
Proof.
  split.
  - eexists. split; [| split]; [| | vm_compute; reflexivity]; [reflexivity | simpl; lia].
  - split; [vm_compute |]; reflexivity.
Qed.

(** ** Assets *)

Section Assets.
Context {X : Type}.
Variable W : World.
Implicit Types s : State (PoliteCrawler.t X).

(** C10. An asset URL whose path has an empty basename is dropped at
    once: [None] is returned and nothing changes, neither what
    happened outside (no request), nor the errors, nor any counter. *)
Theorem download_asset_empty_basename (url dir asset_type : string) (parsed : ParseResult) s :
  urlparse W url = inr parsed →
  Py.basename (path parsed) = "" →
  PoliteCrawler.download_asset W url dir asset_type s = (Ok None, s).
Proof.
  intros Hparse Hbase. unfold PoliteCrawler.download_asset.
  rewrite Hparse. run_monad. rewrite Hbase. reflexivity.
Qed.

(** An asset whose file is already in the folder is not requested. *)
Lemma download_asset_skips (url dir asset_type : string) (parsed : ParseResult) s :
  urlparse W url = inr parsed →
  Py.basename (path parsed) ≠ "" →
  let filename := Py.split_first "?" (Py.basename (path parsed)) in
  Py.path_join dir filename ∈ fs (env s) →
  PoliteCrawler.download_asset W url dir asset_type s
  = (Ok (Some filename), after_events [EvLog DEBUG (AssetExists filename)] s).
Proof.
  intros Hparse Hbase filename Hin. unfold PoliteCrawler.download_asset.
  rewrite Hparse. run_monad.
  destruct (Py.basename (path parsed)) eqn:E; [congruence |].
  cbn [Py.truthy negb]. run_monad.
  rewrite bool_decide_true by exact Hin.
  reflexivity.
Qed.

(** Writing the chunks of a body: the chunks are written in order up
    to the first write that fails, whose exception leaves the loop;
    neither the files that exist nor the object change. *)
Lemma write_chunks_run (p : string) (body : Z → string → M (State (PoliteCrawler.t X)) Z)
    (chunks : list string) (size : Z) s :
  (∀ z chunk s0, body z chunk s0
                 = match write_error W p chunk with
                   | Some e => (Raise e, s0)
                   | None => (Ok (z + Py.len chunk), after_events [EvWrite p chunk] s0)
                   end) →
  for_fold chunks size body s
  = (match body_error W p chunks None with
     | Some e => Raise e
     | None => Ok (size + total_len chunks)
     end,
     after_events (EvWrite p <$> written W p chunks) s).
Proof.
  intros Hbody. revert size s. induction chunks as [| chunk chunks IH]; intros size s.
  - cbn. rewrite Z.add_0_r. unfold after_events. rewrite app_nil_r.
    destruct s as [[tr files] c]. reflexivity.
  - cbn [for_fold body_error written]. unfold bind at 1. rewrite Hbody.
    destruct (write_error W p chunk) as [e |].
    + cbn. unfold after_events. rewrite app_nil_r.
      destruct s as [[tr files] c]. reflexivity.
    + rewrite IH, after_events_app. cbn [total_len foldr fmap list_fmap app].
      destruct (body_error W p chunks None); [reflexivity |].
      f_equal. f_equal. unfold total_len. lia.
Qed.

(** An asset that [download_asset] returns is in the folder afterwards,
    under the name derived from its URL. *)
Lemma download_asset_leaves_file (url dir asset_type : string) (f : string) s s1 :
  PoliteCrawler.download_asset W url dir asset_type s = (Ok (Some f), s1) →
  ∃ parsed,
    urlparse W url = inr parsed
    ∧ Py.basename (path parsed) ≠ ""
    ∧ f = Py.split_first "?" (Py.basename (path parsed))
    ∧ Py.path_join dir f ∈ fs (env s1).
Proof.
  unfold PoliteCrawler.download_asset.
  destruct (urlparse W url) as [e | parsed] eqn:Hparse; run_monad; [discriminate |].
  intros Hrun. exists parsed. split; [reflexivity |].
  destruct (Py.basename (path parsed)) as [| a base] eqn:E;
    cbn [Py.truthy negb] in Hrun; run_monad; [discriminate |].
  split; [discriminate |]. revert Hrun. run_monad.
  destruct (bool_decide (_ ∈ fs (env s))) eqn:Hin.
  - intros Hrun. injection Hrun as <- <-. split; [reflexivity |].
    apply bool_decide_eq_true in Hin. exact Hin.
  - destruct (PoliteCrawler.download_with_retry W url true s) as [[[r |] | e |] s2];
      run_monad; try discriminate.
    destruct (ok r); cbn [negb]; run_monad; [| discriminate].
    destruct (open_error W _) as [e |]; run_monad; [discriminate |].
    match goal with |- context [for_fold (chunks r) 0 ?body ?s3] =>
      rewrite (write_chunks_run
                 (Py.path_join dir (Py.split_first "?" (String a base)))
                 body (chunks r) 0 s3)
        by (intros; destruct (write_error W _ _); reflexivity)
    end.
    destruct (body_error W _ (chunks r) None) as [e |]; [discriminate |].
    unfold after_events. cbn [fst snd env trace fs self].
    destruct (stream_error r) as [e |]; run_monad; [discriminate |].
    intros Hrun. injection Hrun as <- <-. split; [reflexivity |].
    cbn. apply elem_of_union_l, elem_of_singleton. reflexivity.
Qed.

(** C9. [download_asset] is idempotent with respect to the files. When
    the file derived from the URL is already in the folder, it returns
    the name of the file; the object, with its counters and errors, is
    unchanged, the files are unchanged, and all that happened is the
    debug line: there is no request.  So an asset that a call has
    returned is returned by the next call without a request and
    without a change of the counters. *)
Theorem download_asset_existing (url dir asset_type : string) s :
  (∀ parsed,
     urlparse W url = inr parsed →
     Py.basename (path parsed) ≠ "" →
     let filename := Py.split_first "?" (Py.basename (path parsed)) in
     Py.path_join dir filename ∈ fs (env s) →
     PoliteCrawler.download_asset W url dir asset_type s
     = (Ok (Some filename), after_events [EvLog DEBUG (AssetExists filename)] s))
  ∧ (∀ f s1,
       PoliteCrawler.download_asset W url dir asset_type s = (Ok (Some f), s1) →
       PoliteCrawler.download_asset W url dir asset_type s1
       = (Ok (Some f), after_events [EvLog DEBUG (AssetExists f)] s1)).
Proof.
  split.
  - intros parsed. apply download_asset_skips.
  - intros f s1 Hrun.
    destruct (download_asset_leaves_file url dir asset_type f s s1 Hrun)
      as (parsed & Hparse & Hbase & -> & Hin).
    apply (download_asset_skips url dir asset_type parsed s1 Hparse Hbase Hin).
Qed.

End Assets.

(** ** The header audit *)

(** C8. For a response without [Strict-Transport-Security],
    [Content-Security-Policy] and [X-Content-Type-Options], the audit
    appends to the high findings the HSTS finding and nothing else, and
    to the medium findings exactly one CSP finding and exactly one
    MIME-sniffing finding (with the clickjacking finding when
    [X-Frame-Options] is missing too); each of them is located at the
    page and has a recommendation that is not empty. *)
Theorem check_security_headers_three_missing (response : Response) (url : string)
    (s : State (PoliteCrawler.t SecurityCrawler.Ext)) :
  header_in "Strict-Transport-Security" (headers response) = false →
  header_in "Content-Security-Policy" (headers response) = false →
  header_in "X-Content-Type-Options" (headers response) = false →
  ∃ s' new_medium,
    SecurityCrawler.check_security_headers response url s = (Ok tt, s')
    ∧ SecurityCrawler.issues SecurityCrawler.high
        (SecurityCrawler.security_issues (PoliteCrawler.ext (self s')))
      = SecurityCrawler.issues SecurityCrawler.high
          (SecurityCrawler.security_issues (PoliteCrawler.ext (self s)))
        ++ [SecurityCrawler.missing_hsts url]
    ∧ SecurityCrawler.issues SecurityCrawler.medium
        (SecurityCrawler.security_issues (PoliteCrawler.ext (self s')))
      = SecurityCrawler.issues SecurityCrawler.medium
          (SecurityCrawler.security_issues (PoliteCrawler.ext (self s)))
        ++ new_medium
    ∧ SecurityCrawler.count_type "Missing Content Security Policy" new_medium = 1%nat
    ∧ SecurityCrawler.count_type "Missing X-Content-Type-Options" new_medium = 1%nat
    ∧ (∀ f, f ∈ SecurityCrawler.missing_hsts url :: new_medium →
            SecurityCrawler.has_recommendation f = true
            ∧ SecurityCrawler.f_location f = url).
Proof.
  intros Hhsts Hcsp Hmime.
  unfold SecurityCrawler.check_security_headers. cbv zeta.
  rewrite Hhsts, Hcsp, Hmime.
  destruct (header_in "X-Frame-Options" (headers response));
    destruct (header_in "X-XSS-Protection" (headers response));
    destruct (header_in "Referrer-Policy" (headers response));
    destruct (header_in "Permissions-Policy" (headers response));
    destruct (header_in "Feature-Policy" (headers response));
    cbn [negb andb]; unfold SecurityCrawler.report; run_monad;
    eexists; eexists; (split; [reflexivity |]);
    cbn [self PoliteCrawler.with_ext PoliteCrawler.ext SecurityCrawler.security_issues
         SecurityCrawler.append_issue SecurityCrawler.issues
         SecurityCrawler.issues_high SecurityCrawler.issues_medium];
    rewrite <- ?app_assoc;
    (split; [reflexivity |]); (split; [reflexivity |]);
    (split; [reflexivity |]); (split; [reflexivity |]);
    intros f Hf; cbn [app] in Hf;
    repeat (apply elem_of_cons in Hf as [-> | Hf]; [split; reflexivity |]);
    apply elem_of_nil in Hf; destruct Hf.
Qed.

(** ** What a method leaves alone *)

Section Keeps.
Context {S V : Type} (v : S → V).

Lemma keeps_ret {A} (a : A) : keeps v (ret a).
Proof. intros s. split; [reflexivity | discriminate]. Qed.

Lemma keeps_raise {A} (e : Exn) : keeps v (@raise S A e).
Proof. intros s. split; [reflexivity | discriminate]. Qed.

Lemma keeps_gets {A} (f : S → A) : keeps v (gets f).
Proof. intros s. split; [reflexivity | discriminate]. Qed.

Lemma keeps_call {A} (r : Exn + A) : keeps v (@call S A r).
Proof. intros s. destruct r; (split; [reflexivity | discriminate]). Qed.

Lemma keeps_modify (f : S → S) : (∀ s, v (f s) = v s) → keeps v (modify f).
Proof. intros H s. split; [apply H | discriminate]. Qed.

Lemma keeps_bind {A B} (m : M S A) (k : A → M S B) :
  keeps v m → (∀ a, keeps v (k a)) → keeps v (bind m k).
Proof.
  intros Hm Hk s. unfold bind. destruct (Hm s) as [Hv Hr].
  destruct (m s) as [[a | e |] s']; simpl in *.
  - destruct (Hk a s') as [Hv' Hr']. split; [congruence | exact Hr'].
  - split; [exact Hv | discriminate].
  - contradiction.
Qed.

Lemma keeps_try_except {A} (m : M S A) (catches : Exn → bool) (h : Exn → M S A) :
  keeps v m → (∀ e, keeps v (h e)) → keeps v (try_except m catches h).
Proof.
  intros Hm Hh s. unfold try_except. destruct (Hm s) as [Hv Hr].
  destruct (m s) as [[a | e |] s']; simpl in *.
  - split; [exact Hv | discriminate].
  - destruct (catches e).
    + destruct (Hh e s') as [Hv' Hr']. split; [congruence | exact Hr'].
    + split; [exact Hv | discriminate].
  - contradiction.
Qed.

Lemma keeps_when (c : bool) (m : M S unit) : keeps v m → keeps v (when c m).
Proof. intros Hm. destruct c; [exact Hm | apply keeps_ret]. Qed.

Lemma keeps_for_each {A} (l : list A) (body : A → M S unit) :
  (∀ x, keeps v (body x)) → keeps v (for_each l body).
Proof.
  intros Hb. induction l as [| x l IH]; simpl.
  - apply keeps_ret.
  - apply keeps_bind; [apply Hb | intros _; exact IH].
Qed.

Lemma keeps_for_fold {A B} (l : list A) (acc : B) (body : B → A → M S B) :
  (∀ b x, keeps v (body b x)) → keeps v (for_fold l acc body).
Proof.
  intros Hb. revert acc. induction l as [| x l IH]; intros acc; simpl.
  - apply keeps_ret.
  - apply keeps_bind; [apply Hb | intros b; apply IH].
Qed.

(** After a first step, a continuation that keeps the view leaves it as
    the first step made it. *)
Lemma after_first {A B} (m : M S A) (k : A → M S B) (s : S) :
  (∀ a, keeps v (k a)) →
  v (bind m k s).2 = v (m s).2
  ∧ ((m s).1 ≠ OutOfFuel → (bind m k s).1 ≠ OutOfFuel).
Proof.
  intros Hk. unfold bind. destruct (m s) as [[a | e |] s1]; cbn [fst snd]; auto.
  destruct (Hk a s1) as [Hv He]. auto.
Qed.

End Keeps.

(** One step of a proof that a method keeps a view: the shape of the
    method decides. *)
Ltac keeps_step :=
  lazymatch goal with
  | |- keeps _ (bind _ _) => apply keeps_bind; [| intros ?]
  | |- keeps _ (ret _) => apply keeps_ret
  | |- keeps _ (raise _) => apply keeps_raise
  | |- keeps _ (try_except _ _ _) => apply keeps_try_except; [| intros ?]
  | |- keeps _ (when _ _) => apply keeps_when
  | |- keeps _ (for_each _ _) => apply keeps_for_each; intros ?
  | |- keeps _ (for_fold _ _ _) => apply keeps_for_fold; intros ? ?
  | |- keeps _ (call _) => apply keeps_call
  | |- keeps _ (gets _) => apply keeps_gets
  | |- keeps _ (gets_self _) => apply keeps_gets
  | |- keeps _ (match ?x with _ => _ end) => destruct x
  end.

Lemma processed_app (tr evs : list Event) :
  processed (tr ++ evs) = processed tr ++ processed evs.
Proof.
  induction tr as [| e tr IH]; simpl; [reflexivity |].
  destruct e as [lvl msg | | | | | | | | | |]; try exact IH.
  destruct msg; simpl; rewrite ?IH; reflexivity.
Qed.

Lemma fetched_app (tr evs : list Event) :
  fetched (tr ++ evs) = fetched tr ++ fetched evs.
Proof.
  induction tr as [| e tr IH]; simpl; [reflexivity |].
  destruct e; simpl; rewrite ?IH; reflexivity.
Qed.

Section PoliteFrames.
Context {X : Type}.
Variable W : World.
Implicit Types s : State (PoliteCrawler.t X).

Abbreviation view := (@crawl_view X).

(** An event that is no "Processing page" line keeps the view. *)
Lemma keeps_emit (e : Event) : processed [e] = [] → keeps view (emit e).
Proof.
  intros He s. split; [| discriminate]. unfold crawl_view, loop_view, emit, modify; simpl.
  rewrite processed_app, He, app_nil_r. reflexivity.
Qed.

Lemma keeps_touch (e : Event) (p : string) : processed [e] = [] → keeps view (touch e p).
Proof.
  intros He s. split; [| discriminate]. unfold crawl_view, loop_view, touch, modify; simpl.
  rewrite processed_app, He, app_nil_r. reflexivity.
Qed.

Lemma keeps_modify_self (f : PoliteCrawler.t X → PoliteCrawler.t X) :
  (∀ c, PoliteCrawler.url_queue (f c) = PoliteCrawler.url_queue c
        ∧ PoliteCrawler.visited_urls (f c) = PoliteCrawler.visited_urls c
        ∧ PoliteCrawler.max_pages (f c) = PoliteCrawler.max_pages c
        ∧ CrawlerStats.pages_crawled (PoliteCrawler.stats (f c))
          = CrawlerStats.pages_crawled (PoliteCrawler.stats c)
        ∧ CrawlerStats.end_time (PoliteCrawler.stats (f c))
          = CrawlerStats.end_time (PoliteCrawler.stats c)) →
  keeps view (modify_self f).
Proof.
  intros H s. split; [| discriminate]. unfold crawl_view, loop_view, modify_self, modify; simpl.
  destruct (H (self s)) as (-> & -> & -> & -> & ->). reflexivity.
Qed.

End PoliteFrames.

(** A proof that a method of [PoliteCrawler] keeps the view of the
    crawl loop. *)
Ltac keeps_view :=
  repeat first
    [ keeps_step
    | apply keeps_emit; reflexivity
    | apply keeps_touch; reflexivity
    | apply keeps_modify_self; intros ?; repeat split; reflexivity
    | match goal with H : _ |- _ => apply H end ].

Ltac unfold_effects :=
  unfold logger, time_sleep, write, open_w, os_makedirs, datetime_now,
    os_path_exists, raise_for_status, session_get,
    PoliteCrawler.record_error, PoliteCrawler.folder.

Section PoliteMethods.
Context {X : Type}.
Variable W : World.
Implicit Types s : State (PoliteCrawler.t X).

Lemma keeps_retry_from (url : string) (stream : bool) (left : nat) (a : Z) :
  keeps (@crawl_view X) (PoliteCrawler.retry_from W url stream left a).
Proof.
  revert a. induction left as [| left IH]; intros a; simpl.
  - apply keeps_ret.
  - unfold_effects. keeps_view.
Qed.

Lemma keeps_download_with_retry (url : string) (stream : bool) :
  keeps (@crawl_view X) (PoliteCrawler.download_with_retry W url stream).
Proof. apply keeps_retry_from. Qed.

Lemma keeps_download_asset (url dir asset_type : string) :
  keeps (@crawl_view X) (PoliteCrawler.download_asset W url dir asset_type).
Proof.
  pose proof keeps_download_with_retry.
  unfold PoliteCrawler.download_asset. unfold_effects. keeps_view.
Qed.

Lemma keeps_can_fetch (url : string) :
  keeps (@crawl_view X) (PoliteCrawler.can_fetch url).
Proof. unfold PoliteCrawler.can_fetch. keeps_view. Qed.

Lemma keeps_setup_folders : keeps (@crawl_view X) (PoliteCrawler.setup_folders W).
Proof. unfold PoliteCrawler.setup_folders. unfold_effects. keeps_view. Qed.

Lemma keeps_check_robots_txt : keeps (@crawl_view X) (PoliteCrawler.check_robots_txt W).
Proof. unfold PoliteCrawler.check_robots_txt. unfold_effects. keeps_view. Qed.

Lemma keeps_save_results : keeps (@crawl_view X) (PoliteCrawler.save_results W).
Proof. unfold PoliteCrawler.save_results. unfold_effects. keeps_view. Qed.

Lemma keeps_print_summary : keeps (@crawl_view X) (@PoliteCrawler.print_summary X).
Proof. unfold PoliteCrawler.print_summary. keeps_view. Qed.

Lemma keeps_archive_page (url : string) (soup : Soup) :
  keeps (@crawl_view X) (PoliteCrawler.archive_page W url soup).
Proof.
  pose proof keeps_download_asset.
  unfold PoliteCrawler.archive_page, PoliteCrawler.extract_images,
    PoliteCrawler.resolve_only, PoliteCrawler.save_svgs,
    PoliteCrawler.find_internal_links.
  unfold_effects. keeps_view.
Qed.

(** [process_page] logs the page it is given and, that line apart,
    leaves the view of the loop as it was, whatever happens to the
    page; and it comes to an end. *)
Lemma process_page_processor : page_processor (X:=X) (PoliteCrawler.process_page W).
Proof.
  intros url s. unfold PoliteCrawler.process_page.
  assert (Hrest : ∀ k : M (State (PoliteCrawler.t X)) (list string),
            keeps crawl_view k →
            let run := bind (logger INFO (ProcessingPage url)) (fun _ => k) s in
            crawl_view run.2
            = crawl_view (after_events [EvLog INFO (ProcessingPage url)] s)
            ∧ run.1 ≠ OutOfFuel).
  { intros k Hk. unfold bind, logger, emit, modify. cbn [fst snd].
    specialize (Hk (after_events [EvLog INFO (ProcessingPage url)] s)).
    unfold after_events in *. destruct (k _) as [[? | ? |] ?]; exact Hk. }
  apply Hrest.
  pose proof keeps_download_with_retry. pose proof keeps_can_fetch.
  pose proof keeps_archive_page.
  unfold_effects. keeps_view.
Qed.

End PoliteMethods.

(** ** Saving a page *)

Section Archive.
Context {X : Type}.
Variable W : World.
Implicit Types s : State (PoliteCrawler.t X).

Lemma keeps_folders_emit (e : Event) : keeps (@folders_view X) (emit e).
Proof. intros s. split; [reflexivity | discriminate]. Qed.

Lemma keeps_folders_touch (e : Event) (p : string) : keeps (@folders_view X) (touch e p).
Proof. intros s. split; [reflexivity | discriminate]. Qed.

Lemma keeps_folders_modify_self (f : PoliteCrawler.t X → PoliteCrawler.t X) :
  (∀ c, PoliteCrawler.folders (f c) = PoliteCrawler.folders c) →
  keeps (@folders_view X) (modify_self f).
Proof. intros H s. split; [apply H | discriminate]. Qed.

Ltac keeps_folders :=
  repeat first
    [ keeps_step
    | apply keeps_folders_emit
    | apply keeps_folders_touch
    | apply keeps_folders_modify_self; intros ?; reflexivity
    | match goal with H : _ |- _ => apply H end ].

Lemma keeps_folders_retry_from (url : string) (stream : bool) (left : nat) (a : Z) :
  keeps (@folders_view X) (PoliteCrawler.retry_from W url stream left a).
Proof.
  revert a. induction left as [| left IH]; intros a; simpl.
  - apply keeps_ret.
  - unfold_effects. keeps_folders.
Qed.

Lemma keeps_folders_download_asset (url dir asset_type : string) :
  keeps (@folders_view X) (PoliteCrawler.download_asset W url dir asset_type).
Proof.
  pose proof keeps_folders_retry_from.
  unfold PoliteCrawler.download_asset, PoliteCrawler.download_with_retry.
  unfold_effects. keeps_folders.
Qed.

(** The table that [setup_folders] builds has a key ["svgs"] and no
    key ["svg"]. *)
Lemma setup_folders_keys s s1 :
  PoliteCrawler.setup_folders W s = (Ok tt, s1) →
  PoliteCrawler.folders (self s1) !! "svgs"
  = Some (Py.path_join (Py.path_join (PoliteCrawler.domain (self s)) "assets") "svgs")
  ∧ PoliteCrawler.folders (self s1) !! "svg" = None.
Proof.
  unfold PoliteCrawler.setup_folders.
  unfold bind at 1. unfold gets_self at 1, gets at 1.
  match goal with |- bind (modify_self ?f) ?k s = _ → _ =>
    assert (Hk : ∀ u, keeps (@folders_view X) (k u))
      by (intros u; unfold_effects; keeps_folders);
    destruct (after_first folders_view (modify_self f) k s Hk) as [Hv _];
    destruct (bind (modify_self f) k s) as [r s2]
  end.
  intros Hrun. injection Hrun as _ <-. unfold folders_view in Hv. cbn in Hv.
  rewrite Hv. split; reflexivity.
Qed.

(** The loop over the inline drawings raises at its first round when
    the table has no key ["svg"]. *)
Lemma save_svgs_raises (page_name : string) (soup : Soup)
    (page_data : PoliteCrawler.PageData) s :
  PoliteCrawler.folders (self s) !! "svg" = None →
  soup_svgs soup ≠ [] →
  PoliteCrawler.save_svgs W page_name soup page_data s = (Raise (KeyError "svg"), s).
Proof.
  intros Hkey Hsvg. unfold PoliteCrawler.save_svgs.
  destruct (soup_svgs soup) as [| svg svgs]; [contradiction |].
  cbn [PoliteCrawler.enumerate_from for_fold]. unfold PoliteCrawler.folder. run_monad.
  rewrite Hkey. reflexivity.
Qed.

(** A page with an inline drawing is never archived: once it is
    fetched and parsed, what follows the [try] block of [process_page]
    raises, whatever the world, and the exception leaves [process_page]. *)
Lemma archive_page_inline_svg (url : string) (soup : Soup) s :
  PoliteCrawler.folders (self s) !! "svg" = None →
  soup_svgs soup ≠ [] →
  ∃ e s1, PoliteCrawler.archive_page W url soup s = (Raise e, s1).
Proof.
  intros Hkey Hsvg. unfold PoliteCrawler.archive_page.
  assert (Hgo : ∀ {A} (m : M (State (PoliteCrawler.t X)) A)
                  (k : A → M (State (PoliteCrawler.t X)) (list string)) s0,
            keeps folders_view m →
            PoliteCrawler.folders (self s0) !! "svg" = None →
            (∀ a s1, PoliteCrawler.folders (self s1) !! "svg" = None →
                     ∃ e s2, k a s1 = (Raise e, s2)) →
            ∃ e s2, bind m k s0 = (Raise e, s2)).
  { intros A m k s0 Hm Hs0 Hk. unfold bind. destruct (Hm s0) as [Hv He].
    unfold folders_view in Hv.
    destruct (m s0) as [[a | e |] s1]; cbn [fst snd] in *.
    - apply Hk. rewrite Hv. exact Hs0.
    - eauto.
    - contradiction. }
  pose proof keeps_folders_download_asset as Hasset.
  apply Hgo; [keeps_folders | exact Hkey | intros parsed s1 H1].
  apply Hgo; [unfold_effects; keeps_folders | exact H1 | intros dir s2 H2].
  apply Hgo; [unfold_effects; keeps_folders | exact H2 | intros [] s3 H3].
  apply Hgo; [unfold_effects; keeps_folders | exact H3 | intros [] s4 H4].
  apply Hgo;
    [ unfold PoliteCrawler.extract_images; unfold_effects; keeps_folders
    | exact H4 | intros pd s5 H5].
  apply Hgo;
    [ unfold PoliteCrawler.resolve_only; keeps_folders | exact H5 | intros [] s6 H6].
  apply Hgo;
    [ unfold PoliteCrawler.resolve_only; keeps_folders | exact H6 | intros [] s7 H7].
  unfold bind at 1. rewrite save_svgs_raises by assumption. eauto.
Qed.

(** A page whose file cannot be written is not archived either: the
    [OSError] of [open] leaves [process_page]. *)
Lemma archive_page_not_writable (url : string) (soup : Soup) (parsed : ParseResult)
    (dir : string) (e : Exn) s :
  urlparse W url = inr parsed →
  PoliteCrawler.folders (self s) !! "html" = Some dir →
  let stem := Py.strip "/" (path parsed) in
  let page_name :=
    Py.replace "/" "_" (if Py.truthy stem then stem else "index") +:+ ".html" in
  open_error W (Py.path_join dir page_name) = Some e →
  PoliteCrawler.archive_page W url soup s = (Raise e, s).
Proof.
  intros Hparse Hdir stem page_name Hopen. unfold PoliteCrawler.archive_page.
  rewrite Hparse. unfold PoliteCrawler.folder. run_monad. rewrite Hdir. run_monad.
  fold stem. fold page_name. rewrite Hopen. reflexivity.
Qed.

End Archive.

(** ** The crawl loop *)

Section CrawlLoop.
Context {X : Type}.
Variable W : World.
Implicit Types s : State (PoliteCrawler.t X).

Abbreviation pc s := (CrawlerStats.pages_crawled (PoliteCrawler.stats (self s))).
Abbreviation budget s := (PoliteCrawler.max_pages (self s)).
Abbreviation queue s := (PoliteCrawler.url_queue (self s)).
Abbreviation visited s := (PoliteCrawler.visited_urls (self s)).
Abbreviation ended s := (CrawlerStats.end_time (PoliteCrawler.stats (self s))).

Lemma dedup_inv_enqueue (P q : list string) (vis : gset string) (link : string) :
  NoDup (P ++ q) → (∀ u, u ∈ P ++ q → u ∈ vis) → link ∉ vis →
  NoDup (P ++ q ++ [link]) ∧ ∀ u, u ∈ P ++ q ++ [link] → u ∈ {[link]} ∪ vis.
Proof.
  intros Hnd Hsub Hlink. split.
  - rewrite app_assoc. apply NoDup_app. split; [exact Hnd |]. split.
    + intros u Hu Hu'. apply list_elem_of_singleton in Hu'. subst u.
      apply Hlink, Hsub, Hu.
    + apply NoDup_singleton.
  - intros u Hu. rewrite app_assoc in Hu. apply elem_of_app in Hu as [Hu | Hu].
    + apply elem_of_union_r, Hsub, Hu.
    + apply list_elem_of_singleton in Hu. subst u. apply elem_of_union_l, elem_of_singleton.
      reflexivity.
Qed.

(** The loop over the links found: it returns, touches neither the
    outside nor the statistics, and keeps the marking discipline. *)
Lemma for_each_enqueue_new (links : list string) s :
  ∃ s', for_each links PoliteCrawler.enqueue_new s = (Ok tt, s')
        ∧ env s' = env s
        ∧ budget s' = budget s
        ∧ PoliteCrawler.stats (self s') = PoliteCrawler.stats (self s)
        ∧ (dedup_inv s → dedup_inv s').
Proof.
  revert s. induction links as [| link links IH]; intros s.
  - exists s. split; [reflexivity |]. repeat (split; [reflexivity |]). auto.
  - cbn [for_each]. unfold PoliteCrawler.enqueue_new at 1. run_monad.
    destruct (bool_decide (link ∈ visited s)) eqn:Hv; cbn [negb]; run_monad.
    + apply IH.
    + match goal with |- context [for_each links _ ?s0] =>
        destruct (IH s0) as (s' & Hrun & Henv & Hmax & Hstats & Hinv) end.
      exists s'. split; [exact Hrun |]. cbn in Henv, Hmax, Hstats.
      repeat (split; [assumption |]).
      intros [Hnd Hsub]. apply Hinv. unfold dedup_inv. cbn.
      apply bool_decide_eq_false in Hv.
      apply dedup_inv_enqueue; assumption.
Qed.


(** One round of the loop: the budget stays, the marking discipline is
    kept, and the counter goes up by one exactly when the round comes
    to its end. *)
Lemma keep_crawling_queue s :
  PoliteCrawler.keep_crawling (self s) = true → queue s ≠ [].
Proof.
  unfold PoliteCrawler.keep_crawling. destruct (queue s); [discriminate |].
  intros _. discriminate.
Qed.

Lemma crawl_step_round pp s :
  page_processor pp →
  queue s ≠ [] →
  let r := fst (PoliteCrawler.crawl_step pp s) in
  let s' := snd (PoliteCrawler.crawl_step pp s) in
  budget s' = budget s
  ∧ (dedup_inv s → dedup_inv s')
  ∧ pc s' = match r with Ok _ => pc s + 1 | _ => pc s end
  ∧ r ≠ OutOfFuel
  ∧ ended s' = ended s.
Proof.
  intros Hpp Hkeep. cbv zeta.
  unfold PoliteCrawler.crawl_step. run_monad. cbn [id].
  destruct (queue s) as [| url rest] eqn:Hq; [contradiction |].
  (* the page, handed over once it is popped *)
  assert (Hpop : ∀ s1,
    crawl_view s1
    = (rest, visited s, budget s, pc s, processed (trace (env s)), ended s) →
    budget (pp url s1).2 = budget s
    ∧ pc (pp url s1).2 = pc s
    ∧ (dedup_inv s → dedup_inv (pp url s1).2)
    ∧ (pp url s1).1 ≠ OutOfFuel
    ∧ ended (pp url s1).2 = ended s).
  { intros s1 Hs1.
    destruct (Hpp url s1) as [Hv Hend]. unfold crawl_view, loop_view in Hv, Hs1.
    cbn in Hv. rewrite processed_app in Hv. cbn in Hv.
    injection Hs1 as Hq0 Hvis0 Hmax0 Hpc0 Hproc0 Het0.
    injection Hv as Hq1 Hvis1 Hmax1 Hpc1 Hproc1 Het1.
    split; [congruence |]. split; [congruence |].
    split; [| split; [exact Hend | congruence]].
    unfold dedup_inv. rewrite Hq1, Hvis1, Hproc1, Hq0, Hvis0, Hproc0, Hq.
    rewrite <- app_assoc. cbn. auto. }
  destruct (0 <? pc s);
    (match goal with |- context [pp url ?s1] =>
       destruct (Hpop s1) as (Hmax & Hpc & Hinv & Hend & Het);
         [ unfold crawl_view, loop_view; cbn; rewrite ?processed_app; cbn;
           rewrite ?app_nil_r; reflexivity |];
       destruct (pp url s1) as [[links | e |] s2]; cbn [fst snd] in *;
         [| split; [exact Hmax |]; split; [exact Hinv |];
            split; [exact Hpc |]; split; [discriminate | exact Het]
          | contradiction]
     end;
     match goal with |- context [for_each ?l _ ?s3] =>
       destruct (for_each_enqueue_new l s3)
         as (s' & Hrun & Henv & Hmax' & Hstats & Hinv')
     end;
     rewrite Hrun; cbn [fst snd]; cbn in Hmax', Hstats;
     (split; [congruence |]);
     (split;
       [ intros H; apply Hinv'; specialize (Hinv H);
         unfold dedup_inv in *; cbn; rewrite processed_app; cbn; rewrite app_nil_r;
         exact Hinv
       | split; [rewrite Hstats; cbn; lia |];
         split; [discriminate | rewrite Hstats; cbn; exact Het] ])).
Qed.

(** The loop, for a property [I] of the state that every round keeps. *)
Lemma crawl_loop_run pp (I : State (PoliteCrawler.t X) → Prop) (fuel : nat) s :
  page_processor pp →
  (∀ s1, I s1 → PoliteCrawler.keep_crawling (self s1) = true →
         I (PoliteCrawler.crawl_step pp s1).2) →
  I s →
  let run := PoliteCrawler.crawl_loop pp fuel s in
  I run.2
  ∧ budget run.2 = budget s
  ∧ (run.1 = Ok tt → PoliteCrawler.keep_crawling (self run.2) = false)
  ∧ (budget s - pc s <= Z.of_nat fuel → run.1 ≠ OutOfFuel)
  ∧ ended run.2 = ended s.
Proof.
  intros Hpp Hstep. revert s. induction fuel as [| fuel IH]; intros s HI; cbv zeta.
  - cbn [PoliteCrawler.crawl_loop]. run_monad. cbn [id].
    destruct (PoliteCrawler.keep_crawling (self s)) eqn:Hk; cbn [fst snd].
    + repeat split; auto; try discriminate.
      intros Hfuel. exfalso. unfold PoliteCrawler.keep_crawling in Hk.
      destruct (queue s); [discriminate |]. apply Z.ltb_lt in Hk. lia.
    + repeat split; auto; discriminate.
  - cbn [PoliteCrawler.crawl_loop]. run_monad. cbn [id].
    destruct (PoliteCrawler.keep_crawling (self s)) eqn:Hk; cbn [fst snd].
    + destruct (crawl_step_round pp s Hpp (keep_crawling_queue s Hk))
        as (Hmax & _ & Hpc & Hend & Het).
      specialize (Hstep s HI Hk).
      destruct (PoliteCrawler.crawl_step pp s) as [[[] | e |] s1]; cbn [fst snd] in *.
      * destruct (IH s1 Hstep) as (HI' & Hmax' & Hexit & Hfuel & Het').
        repeat split; auto; [congruence | | congruence].
        intros Hle. apply Hfuel. lia.
      * repeat split; auto; discriminate.
      * contradiction.
    + repeat split; auto; discriminate.
Qed.


(** The whole of [crawl], for a property [I] that depends on the view
    only, holds of the view before the run and of the view once the
    seed is queued, and is kept by every round.  Either the run stopped
    before its loop had ended, and the end time is as it was, or the
    test of the loop has failed. *)
Lemma crawl_rounds_run (rounds : option nat) setup pp
    (I : State (PoliteCrawler.t X) → Prop) s :
  keeps crawl_view setup →
  page_processor pp →
  (∀ s1 s2, loop_view s1 = loop_view s2 → I s1 → I s2) →
  I s →
  (∀ s1, crawl_view s1
         = (queue s ++ [PoliteCrawler.start_url (self s)],
            {[PoliteCrawler.start_url (self s)]} ∪ visited s,
            budget s, pc s, processed (trace (env s)), ended s) → I s1) →
  (∀ s1, I s1 → PoliteCrawler.keep_crawling (self s1) = true →
         I (PoliteCrawler.crawl_step pp s1).2) →
  let run := PoliteCrawler.crawl_rounds W rounds setup pp s in
  I run.2
  ∧ budget run.2 = budget s
  ∧ (run.1 = Ok tt → PoliteCrawler.keep_crawling (self run.2) = false)
  ∧ (rounds = None → run.1 ≠ OutOfFuel)
  ∧ (ended run.2 = ended s ∨ PoliteCrawler.keep_crawling (self run.2) = false).
Proof.
  intros Hsetup Hpp Hview HI Hentry Hstep. cbv zeta.
  assert (Hsame : ∀ (r : Result unit) s1, crawl_view s1 = crawl_view s → r ≠ Ok tt →
            r ≠ OutOfFuel →
            I s1 ∧ budget s1 = budget s
            ∧ (r = Ok tt → PoliteCrawler.keep_crawling (self s1) = false)
            ∧ (rounds = None → r ≠ OutOfFuel)
            ∧ (ended s1 = ended s ∨ PoliteCrawler.keep_crawling (self s1) = false)).
  { intros r s1 Hv Hr Hr'.
    split; [apply (Hview s); [symmetry; exact (f_equal fst Hv) | exact HI] |].
    unfold crawl_view, loop_view in Hv. injection Hv as _ _ Hm _ _ Het.
    split; [exact Hm |]. split; [contradiction |]. split; [auto |]. left. exact Het. }
  unfold PoliteCrawler.crawl_rounds. run_monad. cbn [id].
  (* setup *)
  match goal with |- context [setup ?s0] =>
    assert (Hs0 : crawl_view s0 = crawl_view s)
      by (unfold crawl_view, loop_view; cbn; rewrite processed_app; cbn; rewrite app_nil_r;
          reflexivity);
    destruct (Hsetup s0) as [Hv1 He1];
    destruct (setup s0) as [[[] | e |] s1]
  end; cbn [fst snd] in *;
    [| apply Hsame; [congruence | discriminate | discriminate] | contradiction].
  (* robots.txt *)
  destruct (keeps_check_robots_txt W s1) as [Hv2 He2].
  destruct (PoliteCrawler.check_robots_txt W s1) as [[[] | e |] s2]; cbn [fst snd] in *;
    [| apply Hsame; [congruence | discriminate | discriminate] | contradiction].
  assert (Hs2 : crawl_view s2 = crawl_view s) by congruence.
  unfold crawl_view, loop_view in Hs2.
  injection Hs2 as Hq2 Hvis2 Hmax2 Hpc2 Hproc2 Het2.
  (* the loop *)
  match goal with |- context [PoliteCrawler.crawl_loop pp ?fuel ?s3] =>
    assert (HI3 : I s3)
      by (apply Hentry; unfold crawl_view, loop_view; cbn; congruence);
    assert (Hmax3 : budget s3 = budget s) by (cbn; congruence);
    assert (Hpc3 : pc s3 = pc s) by (cbn; congruence);
    assert (Het3 : ended s3 = ended s) by (cbn; congruence);
    destruct (crawl_loop_run pp I fuel s3 Hpp Hstep HI3)
      as (HI4 & Hmax4 & Hexit & Hfuel & Het4);
    assert (Hfuel' : rounds = None →
              (PoliteCrawler.crawl_loop pp fuel s3).1 ≠ OutOfFuel)
      by (intros ->; apply Hfuel; cbn; lia);
    clear Hfuel;
    destruct (PoliteCrawler.crawl_loop pp fuel s3) as [[[] | e |] s4]
  end; cbn [fst snd] in *.
  - (* the loop has come to its end *)
    specialize (Hexit eq_refl).
    assert (Hdone : ∀ s7, PoliteCrawler.url_queue (self s7) = queue s4 →
              PoliteCrawler.max_pages (self s7) = budget s4 →
              CrawlerStats.pages_crawled (PoliteCrawler.stats (self s7)) = pc s4 →
              PoliteCrawler.keep_crawling (self s7) = false).
    { intros s7 Hq7 Hmax7 Hpc7. unfold PoliteCrawler.keep_crawling in *.
      rewrite Hq7, Hpc7, Hmax7. exact Hexit. }
    match goal with |- context [PoliteCrawler.save_results W ?s5] =>
      assert (Hs5 : crawl_view s5
                    = (queue s4, visited s4, budget s4, pc s4,
                       processed (trace (env s4)), ended s5)) by reflexivity;
      destruct (keeps_save_results W s5) as [Hv6 He6];
      destruct (PoliteCrawler.save_results W s5) as [[[] | e |] s6]
    end; cbn [fst snd] in *; [| | contradiction].
    + unfold PoliteCrawler.print_summary. run_monad.
      rewrite Hs5 in Hv6. unfold crawl_view, loop_view in Hv6.
      injection Hv6 as Hq6 Hvis6 Hmax6 Hpc6 Hproc6 Het6.
      split.
      { apply (Hview s4); [| exact HI4]. unfold loop_view. cbn.
        rewrite processed_app. cbn. rewrite app_nil_r. congruence. }
      split; [cbn; congruence |].
      split; [intros _; apply Hdone; assumption |].
      split; [discriminate |]. right. apply Hdone; assumption.
    + rewrite Hs5 in Hv6. unfold crawl_view, loop_view in Hv6.
      injection Hv6 as Hq6 Hvis6 Hmax6 Hpc6 Hproc6 Het6.
      split.
      { apply (Hview s4); [| exact HI4]. unfold loop_view. congruence. }
      split; [congruence |]. split; [discriminate |].
      split; [discriminate |]. right. apply Hdone; assumption.
  - split; [exact HI4 |]. split; [congruence |]. split; [discriminate |].
    split; [discriminate |]. left. congruence.
  - split; [exact HI4 |]. split; [congruence |]. split; [discriminate |].
    split; [exact Hfuel' |]. left. congruence.
Qed.

Lemma init_fields (start : string) (limit : Z) (pause : Q) (x : X)
    (c : PoliteCrawler.t X) :
  PoliteCrawler.init W start limit pause x = inr c →
  PoliteCrawler.start_url c = start
  ∧ PoliteCrawler.max_pages c = limit
  ∧ PoliteCrawler.url_queue c = []
  ∧ PoliteCrawler.visited_urls c = ∅
  ∧ PoliteCrawler.stats c = CrawlerStats.init
  ∧ PoliteCrawler.robots_parser c = RobotFileParser.init.
Proof.
  unfold PoliteCrawler.init. destruct (urlparse W start); [discriminate |].
  intros H. injection H as <-. repeat split.
Qed.

(** [crawl] is the run that is not cut off. *)
Lemma crawl_unfold :
  PoliteCrawler.crawl (X:=X) W
  = PoliteCrawler.crawl_rounds W None (PoliteCrawler.setup_folders W)
      (PoliteCrawler.process_page W).
Proof. reflexivity. Qed.

(** C1. In every run of a fresh crawler with a budget that is not
    negative, whether it is still in progress (cut off after some
    rounds), was left by an exception or has returned, the counter is
    at most [max_pages]; the loop needs no more rounds than the budget
    allows, so that [crawl] returns or raises; and when [crawl] has
    returned, or at least its loop has ended and the end time is
    stamped, with URLs left in the queue, the counter equals
    [max_pages]. *)
Theorem crawl_page_budget (start : string) (limit : Z) (pause : Q) (x : X)
    (c : PoliteCrawler.t X) (files : gset string) (rounds : option nat) :
  PoliteCrawler.init W start limit pause x = inr c →
  0 <= limit →
  let run := PoliteCrawler.crawl_rounds W rounds (PoliteCrawler.setup_folders W)
               (PoliteCrawler.process_page W) (fresh files c) in
  pc run.2 <= limit
  ∧ (rounds = None → run.1 ≠ OutOfFuel)
  ∧ (run.1 = Ok tt ∨ ended run.2 ≠ None → queue run.2 ≠ [] → pc run.2 = limit).
Proof.
  intros Hinit Hlimit. cbv zeta.
  destruct (init_fields _ _ _ _ _ Hinit) as (Hstart & Hmax & Hq & Hvis & Hstats & _).
  destruct (crawl_rounds_run rounds (PoliteCrawler.setup_folders W)
              (PoliteCrawler.process_page W) (λ s1, pc s1 <= budget s1) (fresh files c))
    as (HI & Hbudget & Hexit & Hfuel & Hended).
  - apply keeps_setup_folders.
  - apply process_page_processor.
  - intros s1 s2 Hv. unfold loop_view in Hv. injection Hv as _ _ Hm Hp _.
    rewrite Hm, Hp. auto.
  - cbn. rewrite Hstats, Hmax. cbn. exact Hlimit.
  - intros s1 Hv. unfold crawl_view, loop_view in Hv. injection Hv as _ _ Hm Hp _ _.
    rewrite Hm, Hp. cbn. rewrite Hstats, Hmax. cbn. exact Hlimit.
  - intros s1 HI Hk.
    destruct (crawl_step_round (PoliteCrawler.process_page W) s1
                (process_page_processor W) (keep_crawling_queue s1 Hk))
      as (Hm & _ & Hp & _).
    cbv zeta in Hm, Hp. rewrite Hm, Hp.
    unfold PoliteCrawler.keep_crawling in Hk.
    destruct (queue s1); [discriminate |]. apply Z.ltb_lt in Hk.
    destruct (PoliteCrawler.crawl_step _ s1).1; lia.
  - assert (Hb : budget (fresh files c) = limit) by exact Hmax.
    assert (Het : ended (fresh files c) = None) by (cbn; rewrite Hstats; reflexivity).
    rewrite Hb in Hbudget. rewrite Het in Hended.
    split; [rewrite <- Hbudget; exact HI |]. split; [exact Hfuel |].
    intros Hdone Hne.
    assert (Hstop : PoliteCrawler.keep_crawling
                      (self (PoliteCrawler.crawl_rounds W rounds
                               (PoliteCrawler.setup_folders W)
                               (PoliteCrawler.process_page W) (fresh files c)).2)
                    = false).
    { destruct Hdone as [Hok | Hstamp]; [exact (Hexit Hok) |].
      destruct Hended as [Hnone | Hstop]; [contradiction | exact Hstop]. }
    unfold PoliteCrawler.keep_crawling in Hstop.
    destruct (queue _); [contradiction |]. apply Z.ltb_ge in Hstop.
    rewrite Hbudget in *. lia.
Qed.

(** The marking discipline of [PoliteCrawler.crawl]: at any point of a
    run, no page was processed twice, no URL sits twice in the queue,
    and every queued URL is marked visited. *)
Lemma polite_dedup (start : string) (limit : Z) (pause : Q) (x : X)
    (c : PoliteCrawler.t X) (files : gset string) (rounds : option nat) :
  PoliteCrawler.init W start limit pause x = inr c →
  let run := PoliteCrawler.crawl_rounds W rounds (PoliteCrawler.setup_folders W)
               (PoliteCrawler.process_page W) (fresh files c) in
  NoDup (processed (trace (env run.2)))
  ∧ marked_when_enqueued (queue run.2) (visited run.2).
Proof.
  intros Hinit. cbv zeta.
  destruct (init_fields _ _ _ _ _ Hinit) as (Hstart & Hmax & Hq & Hvis & Hstats & _).
  destruct (crawl_rounds_run rounds (PoliteCrawler.setup_folders W)
              (PoliteCrawler.process_page W) dedup_inv (fresh files c))
    as ((Hnd & Hsub) & _).
  - apply keeps_setup_folders.
  - apply process_page_processor.
  - intros s1 s2 Hv. unfold loop_view in Hv. injection Hv as Hq' Hvis' _ _ Hproc.
    unfold dedup_inv. rewrite Hq', Hvis', Hproc. auto.
  - unfold dedup_inv. cbn. rewrite Hq. cbn. split; [apply NoDup_nil_2 |].
    intros u Hu. apply elem_of_nil in Hu. destruct Hu.
  - intros s1 Hv. unfold crawl_view, loop_view in Hv.
    injection Hv as Hq' Hvis' _ _ Hproc _.
    unfold dedup_inv. rewrite Hq', Hvis', Hproc. cbn. rewrite Hq. cbn.
    split; [apply NoDup_singleton |].
    intros u Hu. apply list_elem_of_singleton in Hu. subst u.
    apply elem_of_union_l, elem_of_singleton. reflexivity.
  - intros s1 HI Hk.
    destruct (crawl_step_round (PoliteCrawler.process_page W) s1
                (process_page_processor W) (keep_crawling_queue s1 Hk))
      as (_ & Hinv & _).
    apply Hinv, HI.
  - apply NoDup_app in Hnd as (HndP & _ & HndQ).
    split; [exact HndP |]. split; [exact HndQ |].
    intros u Hu. apply Hsub, elem_of_app. right. exact Hu.
Qed.

(** A page that robots.txt disallows: two log lines, an empty list of
    links, no request and no error record. *)
Lemma process_page_disallowed (url : string) s :
  RobotFileParser.can_fetch (PoliteCrawler.robots_parser (self s)) "PoliteCrawler" url
  = inr false →
  PoliteCrawler.process_page W url s
  = (Ok [], after_events [EvLog INFO (ProcessingPage url);
                          EvLog WARNING (RobotsDisallows url)] s).
Proof.
  intros Hrobots. unfold PoliteCrawler.process_page, PoliteCrawler.can_fetch.
  run_monad. rewrite Hrobots. run_monad. cbn [negb]. run_monad.
  unfold after_events. cbn. rewrite <- app_assoc. reflexivity.
Qed.


Lemma requests_made_slept (tr : list Event) (d : Q) :
  requests_made ((tr ++ [EvLog DEBUG (SleepingFor d)]) ++ [EvSleep d]) = requests_made tr.
Proof. rewrite !requests_made_app. cbn. lia. Qed.


(** A page that is allowed, fetched at the first attempt and parsed,
    and that holds an inline drawing: [process_page] raises, and so
    does the round of the loop that handed it over. *)
Lemma process_page_inline_svg (url : string) (r : Response) (soup : Soup) s :
  RobotFileParser.can_fetch (PoliteCrawler.robots_parser (self s)) "PoliteCrawler" url
  = inr true →
  attempt W (requests_made (trace (env s))) url = inr r →
  parse_html W (text r) = inr soup →
  PoliteCrawler.folders (self s) !! "svg" = None →
  soup_svgs soup ≠ [] →
  ∃ e s1, PoliteCrawler.process_page W url s = (Raise e, s1).
Proof.
  intros Hrobots Hget Hparse Hkey Hsvg.
  assert (Hok : ok r = true).
  { unfold attempt in Hget. unfold ok.
    destruct (http_get W _ url); [| discriminate | discriminate].
    destruct (http_error_msg r0) eqn:E; [discriminate |].
    injection Hget as <-. rewrite E. reflexivity. }
  unfold PoliteCrawler.process_page, PoliteCrawler.can_fetch.
  run_monad. rewrite Hrobots. run_monad. cbn [negb]. run_monad.
  rewrite download_with_retry_run. cbn [env trace].
  rewrite requests_made_app. cbn [requests_made List.filter is_get length].
  rewrite Nat.add_0_r, Hget. rewrite Hok. cbn [negb]. rewrite Hparse. run_monad.
  apply archive_page_inline_svg; assumption.
Qed.

Lemma crawl_step_raises pp (url : string) (rest : list string) s :
  queue s = url :: rest →
  (∀ s0, PoliteCrawler.robots_parser (self s0) = PoliteCrawler.robots_parser (self s) →
         PoliteCrawler.folders (self s0) = PoliteCrawler.folders (self s) →
         requests_made (trace (env s0)) = requests_made (trace (env s)) →
         ∃ e s1, pp url s0 = (Raise e, s1)) →
  ∃ e s1, PoliteCrawler.crawl_step pp s = (Raise e, s1).
Proof.
  intros Hq Hpp. unfold PoliteCrawler.crawl_step. run_monad. cbn [id]. rewrite Hq.
  destruct (0 <? pc s); run_monad;
    match goal with |- context [pp url ?s0] =>
      destruct (Hpp s0) as (e & s1 & Hrun);
        [ reflexivity | reflexivity
        | cbn [env trace]; rewrite ?requests_made_slept; reflexivity
        | rewrite Hrun; eauto ]
    end.
Qed.

End CrawlLoop.

(** ** The loop of [IndustrialCrawler] *)

Section Industrial.
Variable W : World.
Implicit Types s : State IndustrialCrawler.t.

Lemma keeps_emit_fetch (e : Event) : fetched [e] = [] → keeps fetch_view (emit e).
Proof.
  intros He s. split; [| discriminate]. unfold fetch_view, emit, modify; simpl.
  rewrite fetched_app, He, app_nil_r. reflexivity.
Qed.

Lemma keeps_modify_self_fetch (f : IndustrialCrawler.t → IndustrialCrawler.t) :
  (∀ c, IndustrialCrawler.visited_urls (f c) = IndustrialCrawler.visited_urls c) →
  keeps fetch_view (modify_self f).
Proof.
  intros H s. split; [| discriminate]. unfold fetch_view, modify_self, modify; simpl.
  rewrite H. reflexivity.
Qed.

Lemma session_get_run {Self} (url : string) (stream : bool) (timeout : Z)
    (s : State Self) :
  session_get W url stream timeout s
  = (match http_get W (requests_made (trace (env s))) url with
     | Responded r => Ok r
     | Failed msg => Raise (RequestException msg)
     | Raised e => Raise e
     end,
     after_events [EvGet url stream timeout] s).
Proof.
  unfold session_get. run_monad.
  destruct (http_get W _ url); reflexivity.
Qed.

(** The [try] block of a round requests its URL, once, and marks
    nothing. *)
Lemma fetch_and_extract_view (url : string) s :
  let run := IndustrialCrawler.fetch_and_extract W url s in
  fetch_view run.2
  = (IndustrialCrawler.visited_urls (self s), fetched (trace (env s)) ++ [url])
  ∧ run.1 ≠ OutOfFuel.
Proof.
  cbv zeta. unfold IndustrialCrawler.fetch_and_extract.
  match goal with |- context [bind (session_get W url false 10) ?k] =>
    assert (Hk : ∀ r, keeps fetch_view (k r))
  end.
  { intros r. unfold raise_for_status, logger.
    repeat first
      [ keeps_step
      | apply keeps_emit_fetch; reflexivity
      | apply keeps_modify_self_fetch; intros ?; reflexivity ]. }
  destruct (after_first fetch_view (session_get W url false 10) _ s Hk) as [Hv He].
  rewrite session_get_run in Hv, He. cbn [fst snd] in Hv, He.
  split.
  - rewrite Hv. unfold fetch_view, after_events. cbn. rewrite fetched_app. reflexivity.
  - apply He. destruct (http_get W _ url); discriminate.
Qed.

(** A round requests a URL only if it is not marked yet, and marks it. *)
Lemma industrial_step_inv s :
  fetch_inv s → fetch_inv (IndustrialCrawler.crawl_step W s).2.
Proof.
  intros [Hnd Hsub]. unfold IndustrialCrawler.crawl_step. run_monad. cbn [id].
  assert (Hgo : ∀ s0 : State IndustrialCrawler.t,
            fetch_view s0 = fetch_view s →
            fetch_inv
              (match IndustrialCrawler.url_queue (self s) with
               | [] => λ s1, (Raise (IndexError "pop from an empty deque"), s1)
               | url :: rest =>
                   bind (modify_self (IndustrialCrawler.with_url_queue (λ _, rest)))
                     (λ _,
                        if bool_decide (url ∈ IndustrialCrawler.visited_urls (self s))
                        then ret tt
                        else
                          bind (modify_self
                                  (IndustrialCrawler.with_visited_urls (λ v, {[url]} ∪ v)))
                            (λ _,
                               try_except (IndustrialCrawler.fetch_and_extract W url)
                                 is_Exception
                                 (λ e,
                                    bind (modify_self
                                            (IndustrialCrawler.with_stats_errors
                                               (λ n, n + 1)))
                                      (λ _, logger ERROR (ErrorCrawling url (exn_str e))))))
               end s0).2).
  { intros s0 Hs0. unfold fetch_view in Hs0. injection Hs0 as Hvis0 Hf0.
    destruct (IndustrialCrawler.url_queue (self s)) as [| url rest].
    - cbn. unfold fetch_inv. rewrite Hvis0, Hf0. auto.
    - run_monad.
      destruct (bool_decide (url ∈ IndustrialCrawler.visited_urls (self s))) eqn:Hin.
      + cbn. unfold fetch_inv. cbn. rewrite Hvis0, Hf0. auto.
      + apply bool_decide_eq_false in Hin. run_monad.
        match goal with |- context [IndustrialCrawler.fetch_and_extract W url ?s1] =>
          destruct (fetch_and_extract_view url s1) as [Hv _];
          destruct (IndustrialCrawler.fetch_and_extract W url s1) as [[[] | e |] s2]
        end; cbn [fst snd] in *; unfold fetch_view in Hv; cbn in Hv;
          injection Hv as Hvis2 Hf2; unfold fetch_inv; cbn;
          rewrite ?fetched_app; cbn; rewrite ?app_nil_r;
          rewrite Hvis2, Hf2, Hvis0, Hf0;
          (split;
            [ apply NoDup_app; split; [exact Hnd |]; split; [| apply NoDup_singleton];
              intros u Hu Hu'; apply list_elem_of_singleton in Hu'; subst u;
              apply Hin, Hsub, Hu
            | intros u Hu; apply elem_of_app in Hu as [Hu | Hu];
              [ apply elem_of_union_r, Hsub, Hu
              | apply list_elem_of_singleton in Hu; subst u;
                apply elem_of_union_l, elem_of_singleton; reflexivity ] ]). }
  destruct (0 <? IndustrialCrawler.stats_pages (self s)).
  - run_monad. apply Hgo. unfold fetch_view. cbn. rewrite fetched_app. cbn.
    rewrite app_nil_r. reflexivity.
  - run_monad. apply Hgo. reflexivity.
Qed.

Lemma industrial_loop_inv (fuel : nat) s :
  fetch_inv s → fetch_inv (IndustrialCrawler.crawl_loop W fuel s).2.
Proof.
  revert s. induction fuel as [| fuel IH]; intros s HI;
    cbn [IndustrialCrawler.crawl_loop]; run_monad; cbn [id];
    destruct (IndustrialCrawler.keep_crawling (self s)); cbn [fst snd]; auto.
  pose proof (industrial_step_inv s HI) as Hstep.
  destruct (IndustrialCrawler.crawl_step W s) as [[[] | e |] s1]; cbn [fst snd] in *; auto.
Qed.

(** The discipline of [IndustrialCrawler.crawl]: at any point of a run,
    cut off after any number of rounds, no URL was requested twice. *)
Lemma industrial_dedup (start : string) (limit : Z) (pause : Q) (callback : bool)
    (c : IndustrialCrawler.t) (files : gset string) (fuel : nat) :
  IndustrialCrawler.init W start limit pause callback = inr c →
  NoDup (fetched (trace (env (IndustrialCrawler.crawl W fuel (fresh files c)).2))).
Proof.
  intros Hinit. unfold IndustrialCrawler.crawl. run_monad.
  match goal with |- context [IndustrialCrawler.crawl_loop W fuel ?s0] =>
    assert (HI : fetch_inv s0)
      by (split; cbn; [apply NoDup_nil_2 | intros u Hu; apply elem_of_nil in Hu; destruct Hu]);
    apply (industrial_loop_inv fuel) in HI;
    destruct (IndustrialCrawler.crawl_loop W fuel s0) as [[[] | e |] s1]
  end; cbn [fst snd] in *; apply HI.
Qed.

End Industrial.

(** ** robots.txt *)

Section Robots.
Context {X : Type}.
Variable W : World.
Implicit Types s : State (PoliteCrawler.t X).

(** Whatever the parser answers is the answer of [can_fetch]; only a
    parser that raises is answered by [True]. *)
Lemma can_fetch_run (url : string) s :
  PoliteCrawler.can_fetch url s
  = (Ok match RobotFileParser.can_fetch (PoliteCrawler.robots_parser (self s))
                "PoliteCrawler" url with
        | inl _ => true
        | inr b => b
        end, s).
Proof.
  unfold PoliteCrawler.can_fetch. run_monad.
  destruct (RobotFileParser.can_fetch _ _ _); reflexivity.
Qed.

(** C3, what the code does. When robots.txt could not be read (the
    request or the decoding raised, or the server answered 401, 403 or
    an error outside 4xx), [check_robots_txt] swallows the failure and
    returns, and from then on [can_fetch] answers [False] for every
    URL: [process_page] skips every page without a request.  The
    crawler fails closed. *)
Theorem robots_failure_fails_closed (robots_url : string) (parsed : ParseResult) s :
  urljoin W (PoliteCrawler.base_url (self s)) "/robots.txt" = inr robots_url →
  urlparse W robots_url = inr parsed →
  PoliteCrawler.robots_parser (self s) = RobotFileParser.init →
  robots_unavailable (robots_fetch W) = true →
  ∃ s1, PoliteCrawler.check_robots_txt W s = (Ok tt, s1)
        ∧ ∀ url,
            PoliteCrawler.can_fetch url s1 = (Ok false, s1)
            ∧ PoliteCrawler.process_page W url s1
              = (Ok [], after_events [EvLog INFO (ProcessingPage url);
                                      EvLog WARNING (RobotsDisallows url)] s1).
Proof.
  intros Hjoin Hparse Hinit Hfail.
  assert (Hgo : ∀ s1 : State (PoliteCrawler.t X),
            (∀ url, RobotFileParser.can_fetch (PoliteCrawler.robots_parser (self s1))
                      "PoliteCrawler" url = inr false) →
            ∀ url,
              PoliteCrawler.can_fetch url s1 = (Ok false, s1)
              ∧ PoliteCrawler.process_page W url s1
                = (Ok [], after_events [EvLog INFO (ProcessingPage url);
                                        EvLog WARNING (RobotsDisallows url)] s1)).
  { intros s1 Hno url. split.
    - rewrite can_fetch_run, Hno. reflexivity.
    - apply process_page_disallowed, Hno. }
  unfold PoliteCrawler.check_robots_txt. run_monad.
  rewrite Hjoin. run_monad. rewrite Hparse. run_monad.
  cbn [PoliteCrawler.with_robots_parser PoliteCrawler.robots_parser].
  rewrite Hinit. unfold robots_unavailable in Hfail.
  destruct (robots_fetch W) as [code | e | rules]; [| | discriminate].
  - cbn [RobotFileParser.read RobotFileParser.set_url RobotFileParser.init
         RobotFileParser.url RobotFileParser.disallow_all RobotFileParser.allow_all
         RobotFileParser.last_checked RobotFileParser.entries].
    destruct ((code =? 401) || (code =? 403)) eqn:Hauth.
    + run_monad. eexists. split; [reflexivity |]. apply Hgo. intros url. reflexivity.
    + cbn [orb] in Hfail. apply negb_true_iff in Hfail. rewrite Hfail.
      run_monad. eexists. split; [reflexivity |]. apply Hgo. intros url. reflexivity.
  - cbn [RobotFileParser.read]. run_monad.
    eexists. split; [reflexivity |]. apply Hgo. intros url. reflexivity.
Qed.

End Robots.

(** ** Sample runs *)

(** C5, what the code does. The run below is on a home page with one
    inline drawing: [self.folders["svg"]] raises [KeyError], since the
    key of the folder is ["svgs"], and [crawl] is left by that
    exception after the first request, with no page counted, nothing
    in the results and no end time.  The second run is on a disk that
    refuses the file of the second page: [crawl] is left by the
    [OSError], with one page counted out of ten and a URL still
    queued. *)
Theorem page_errors_abort_the_run :
  outcome (Sample.run_polite inline_svg Sample.seed 10)
  = Some {| result := Raise (KeyError "svg"); counted := 0; queued := [];
            requested := [Sample.seed]; recorded := []; archived := [];
            stamped := false |}
  ∧ outcome (Sample.run_polite page_not_writable Sample.seed 10)
    = Some {| result := Raise (OSError "[Errno 28] No space left on device");
              counted := 1; queued := ["https://example.test/b"];
              requested := [Sample.seed; "https://example.test/a"];
              recorded := []; archived := [Sample.seed]; stamped := false |}.
Proof. split; vm_compute; reflexivity. Qed.


(** Outside the domain of C1: with a negative budget the loop is not
    entered, and the counter, at 0, is above the budget while the seed
    is still queued. *)
Remark negative_budget_run :
  outcome (Sample.run_polite Sample.two_pages Sample.seed (-1))
  = Some {| result := Ok tt; counted := 0; queued := [Sample.seed]; requested := [];
            recorded := []; archived := []; stamped := true |}.
Proof. vm_compute. reflexivity. Qed.

(** ** The theorems at work on the samples *)

Lemma crawl_page_budget_witness :
  let run := PoliteCrawler.crawl Sample.two_pages (fresh ∅ (sample_crawler 1)) in
  0 <= 1
  ∧ CrawlerStats.pages_crawled (PoliteCrawler.stats (self run.2)) <= 1
  ∧ run.1 ≠ OutOfFuel
  ∧ PoliteCrawler.url_queue (self run.2) = ["https://example.test/a"]
  ∧ CrawlerStats.pages_crawled (PoliteCrawler.stats (self run.2)) = 1.
Proof.
  cbv zeta. split; [lia |].
  destruct (crawl_page_budget Sample.two_pages Sample.seed 1 (3 # 2) tt (sample_crawler 1)
              ∅ None) as (Hle & Hend & Hfull); [vm_compute; reflexivity | lia |].
  split; [exact Hle |]. split; [exact (Hend eq_refl) |].
  split; [vm_compute; reflexivity |].
  apply Hfull; [left; vm_compute; reflexivity | vm_compute; discriminate].
Defined.

Lemma robots_failure_fails_closed_witness :
  ∃ s1, PoliteCrawler.check_robots_txt robots_out_of_reach (fresh ∅ (sample_crawler 10))
        = (Ok tt, s1)
        ∧ ∀ url,
            PoliteCrawler.can_fetch url s1 = (Ok false, s1)
            ∧ PoliteCrawler.process_page robots_out_of_reach url s1
              = (Ok [], after_events [EvLog INFO (ProcessingPage url);
                                      EvLog WARNING (RobotsDisallows url)] s1).
Proof.
  apply (robots_failure_fails_closed robots_out_of_reach
           "https://example.test/robots.txt"
           {| scheme := "https"; netloc := "example.test"; path := "/robots.txt";
              params := ""; query := ""; fragment := "" |}
           (fresh ∅ (sample_crawler 10))); vm_compute; reflexivity.
Defined.


Lemma check_security_headers_three_missing_witness :
  ∃ s' new_medium,
    SecurityCrawler.check_security_headers (Sample.response 200 [] "") Sample.seed
      (fresh ∅ (sample_object 10 SecurityCrawler.init_ext)) = (Ok tt, s')
    ∧ SecurityCrawler.issues SecurityCrawler.high
        (SecurityCrawler.security_issues (PoliteCrawler.ext (self s')))
      = [] ++ [SecurityCrawler.missing_hsts Sample.seed]
    ∧ SecurityCrawler.issues SecurityCrawler.medium
        (SecurityCrawler.security_issues (PoliteCrawler.ext (self s')))
      = [] ++ new_medium
    ∧ SecurityCrawler.count_type "Missing Content Security Policy" new_medium = 1%nat
    ∧ SecurityCrawler.count_type "Missing X-Content-Type-Options" new_medium = 1%nat
    ∧ (∀ f, f ∈ SecurityCrawler.missing_hsts Sample.seed :: new_medium →
            SecurityCrawler.has_recommendation f = true
            ∧ SecurityCrawler.f_location f = Sample.seed).
Proof.
  apply (check_security_headers_three_missing (Sample.response 200 [] "") Sample.seed
           (fresh ∅ (sample_object 10 SecurityCrawler.init_ext))); reflexivity.
Defined.

Lemma download_asset_existing_witness :
  let s := fresh {["example.test/assets/images/logo.png"]} (sample_crawler 10) in
  PoliteCrawler.download_asset Sample.two_pages "https://example.test/img/logo.png?v=2"
    "example.test/assets/images" "image" s
  = (Ok (Some "logo.png"), after_events [EvLog DEBUG (AssetExists "logo.png")] s).
Proof.
  apply (proj1 (download_asset_existing Sample.two_pages
                  "https://example.test/img/logo.png?v=2"
                  "example.test/assets/images" "image"
                  (fresh {["example.test/assets/images/logo.png"]} (sample_crawler 10)))
           {| scheme := "https"; netloc := "example.test"; path := "/img/logo.png";
              params := ""; query := "v=2"; fragment := "" |}).
  - vm_compute; reflexivity.
  - discriminate.
  - vm_compute. reflexivity.
Defined.

Lemma download_asset_empty_basename_witness :
  let s := fresh ∅ (sample_crawler 10) in
  PoliteCrawler.download_asset Sample.two_pages "https://example.test/img/"
    "example.test/assets/images" "image" s
  = (Ok None, s).
Proof.
  apply (download_asset_empty_basename Sample.two_pages "https://example.test/img/"
           "example.test/assets/images" "image"
           {| scheme := "https"; netloc := "example.test"; path := "/img/";
              params := ""; query := ""; fragment := "" |});
    vm_compute; reflexivity.
Defined.

(** ** From state to state *)

Section Follows.
Context {S : Type} (R : S → S → Prop) `{!PreOrder R}.

Lemma follows_ret {A} (a : A) : follows R (ret a).
Proof. intros s. split; [reflexivity | discriminate]. Qed.

Lemma follows_raise {A} (e : Exn) : follows R (@raise S A e).
Proof. intros s. split; [reflexivity | discriminate]. Qed.

Lemma follows_gets {A} (f : S → A) : follows R (gets f).
Proof. intros s. split; [reflexivity | discriminate]. Qed.

Lemma follows_call {A} (r : Exn + A) : follows R (@call S A r).
Proof. intros s. destruct r; (split; [reflexivity | discriminate]). Qed.

Lemma follows_modify (f : S → S) : (∀ s, R s (f s)) → follows R (modify f).
Proof. intros H s. split; [apply H | discriminate]. Qed.

Lemma follows_bind {A B} (m : M S A) (k : A → M S B) :
  follows R m → (∀ a, follows R (k a)) → follows R (bind m k).
Proof.
  intros Hm Hk s. unfold bind. destruct (Hm s) as [HR Hr].
  destruct (m s) as [[a | e |] s']; cbn [fst snd] in *.
  - destruct (Hk a s') as [HR' Hr']. split; [etransitivity; eassumption | exact Hr'].
  - split; [exact HR | discriminate].
  - contradiction.
Qed.

Lemma follows_try_except {A} (m : M S A) (catches : Exn → bool) (h : Exn → M S A) :
  follows R m → (∀ e, follows R (h e)) → follows R (try_except m catches h).
Proof.
  intros Hm Hh s. unfold try_except. destruct (Hm s) as [HR Hr].
  destruct (m s) as [[a | e |] s']; cbn [fst snd] in *.
  - split; [exact HR | discriminate].
  - destruct (catches e).
    + destruct (Hh e s') as [HR' Hr']. split; [etransitivity; eassumption | exact Hr'].
    + split; [exact HR | discriminate].
  - contradiction.
Qed.

Lemma follows_when (c : bool) (m : M S unit) : follows R m → follows R (when c m).
Proof. intros Hm. destruct c; [exact Hm | apply follows_ret]. Qed.

Lemma follows_for_each {A} (l : list A) (body : A → M S unit) :
  (∀ x, follows R (body x)) → follows R (for_each l body).
Proof.
  intros Hb. induction l as [| x l IH]; simpl.
  - apply follows_ret.
  - apply follows_bind; [apply Hb | intros _; exact IH].
Qed.

Lemma follows_for_fold {A B} (l : list A) (acc : B) (body : B → A → M S B) :
  (∀ b x, follows R (body b x)) → follows R (for_fold l acc body).
Proof.
  intros Hb. revert acc. induction l as [| x l IH]; intros acc; simpl.
  - apply follows_ret.
  - apply follows_bind; [apply Hb | intros b; apply IH].
Qed.

(** A sequence that returns: its first step has returned, and the rest
    was run from where the first step led. *)
Lemma follows_bind_inv {A B} (m : M S A) (k : A → M S B) (s s' : S) (b : B) :
  follows R m → bind m k s = (Ok b, s') →
  ∃ a s1, m s = (Ok a, s1) ∧ R s s1 ∧ k a s1 = (Ok b, s').
Proof.
  intros Hm. unfold bind. destruct (Hm s) as [HR _].
  destruct (m s) as [[a | e |] s1]; cbn [fst snd] in *; try discriminate.
  intros Hk. eauto.
Qed.

End Follows.

Ltac follows_step :=
  lazymatch goal with
  | |- follows _ (bind _ _) => apply follows_bind; [exact _ | | intros ?]
  | |- follows _ (ret _) => apply follows_ret; exact _
  | |- follows _ (raise _) => apply follows_raise; exact _
  | |- follows _ (try_except _ _ _) => apply follows_try_except; [exact _ | | intros ?]
  | |- follows _ (when _ _) => apply follows_when; [exact _ |]
  | |- follows _ (for_each _ _) => apply follows_for_each; [exact _ | intros ?]
  | |- follows _ (for_fold _ _ _) => apply follows_for_fold; [exact _ | intros ? ?]
  | |- follows _ (call _) => apply follows_call; exact _
  | |- follows _ (gets _) => apply follows_gets; exact _
  | |- follows _ (gets_self _) => apply follows_gets; exact _
  | |- follows _ (match ?x with _ => _ end) => destruct x
  end.

Lemma grows_preorder {Self V} (P : Event → bool) (v : Self → V) :
  PreOrder (grows P v).
Proof.
  split.
  - intros s. split; [reflexivity |]. split; [reflexivity |].
    exists []. rewrite app_nil_r. split; reflexivity.
  - intros s1 s2 s3 (Hv1 & Hf1 & evs1 & Ht1 & Hp1) (Hv2 & Hf2 & evs2 & Ht2 & Hp2).
    split; [congruence |]. split; [set_solver |].
    exists (evs1 ++ evs2). rewrite Ht2, Ht1, <- app_assoc. split; [reflexivity |].
    rewrite forallb_app, Hp1, Hp2. reflexivity.
Qed.

#[global] Existing Instance grows_preorder.

Section Grows.
Context {Self V : Type} (P : Event → bool) (v : Self → V).

Lemma follows_emit (e : Event) : P e = true → follows (grows P v) (emit e).
Proof.
  intros He s. split; [| discriminate]. cbn.
  split; [reflexivity |]. split; [reflexivity |].
  exists [e]. split; [reflexivity |]. cbn. rewrite He. reflexivity.
Qed.

Lemma follows_touch (e : Event) (p : string) : P e = true → follows (grows P v) (touch e p).
Proof.
  intros He s. split; [| discriminate]. cbn.
  split; [reflexivity |]. split; [set_solver |].
  exists [e]. split; [reflexivity |]. cbn. rewrite He. reflexivity.
Qed.

Lemma follows_modify_self (f : Self → Self) :
  (∀ c, v (f c) = v c) → follows (grows P v) (modify_self f).
Proof.
  intros H s. split; [| discriminate]. cbn.
  split; [apply H |]. split; [reflexivity |].
  exists []. rewrite app_nil_r. split; reflexivity.
Qed.

(** Fewer events are allowed, and more of the object is looked at:
    the relation is the stronger one. *)
Lemma grows_weaken {V'} (Q : Event → bool) (w : Self → V') (s s' : State Self) :
  (∀ e, P e = true → Q e = true) →
  (∀ c c', v c' = v c → w c' = w c) →
  grows P v s s' → grows Q w s s'.
Proof.
  intros HPQ Hvw (Hv & Hf & evs & Ht & Hp).
  split; [apply Hvw, Hv |]. split; [exact Hf |].
  exists evs. split; [exact Ht |].
  apply forallb_forall. intros e He. apply HPQ.
  rewrite forallb_forall in Hp. apply Hp, He.
Qed.

End Grows.

(** A proof that a method lets the state grow. *)
Ltac follows_view :=
  repeat first
    [ follows_step
    | apply follows_emit; reflexivity
    | apply follows_touch; reflexivity
    | apply follows_modify_self; intros ?; reflexivity
    | match goal with H : _ |- _ => apply H end ].

(** ** What the methods of [PoliteCrawler] let happen *)

Section PoliteGrows.
Context {X : Type}.
Variable W : World.
Implicit Types s : State (PoliteCrawler.t X).

Lemma follows_retry_assets (url : string) (left : nat) (a : Z) :
  follows (grows asset_event (@page_view X)) (PoliteCrawler.retry_from W url true left a).
Proof.
  revert a. induction left as [| left IH]; intros a; simpl.
  - follows_step.
  - unfold_effects. follows_view.
Qed.

Lemma follows_download_asset (url dir asset_type : string) :
  follows (grows asset_event (@page_view X))
    (PoliteCrawler.download_asset W url dir asset_type).
Proof.
  pose proof follows_retry_assets.
  unfold PoliteCrawler.download_asset, PoliteCrawler.download_with_retry.
  unfold_effects. follows_view.
Qed.

Lemma follows_archive_page (url : string) (soup : Soup) :
  follows (grows asset_event (@page_view X)) (PoliteCrawler.archive_page W url soup).
Proof.
  pose proof follows_download_asset.
  unfold PoliteCrawler.archive_page, PoliteCrawler.extract_images,
    PoliteCrawler.resolve_only, PoliteCrawler.save_svgs,
    PoliteCrawler.find_internal_links.
  unfold_effects. follows_view.
Qed.

Lemma follows_setup_folders :
  follows (grows quiet (@config_view X)) (PoliteCrawler.setup_folders W).
Proof. unfold PoliteCrawler.setup_folders. unfold_effects. follows_view. Qed.

Lemma follows_check_robots_txt :
  follows (grows quiet (@config_view X)) (PoliteCrawler.check_robots_txt W).
Proof. unfold PoliteCrawler.check_robots_txt. unfold_effects. follows_view. Qed.

Lemma follows_save_results :
  follows (grows quiet (@static_view X)) (PoliteCrawler.save_results W).
Proof. unfold PoliteCrawler.save_results. unfold_effects. follows_view. Qed.

Lemma follows_finish : follows (grows quiet (@static_view X)) (finish W).
Proof.
  pose proof follows_save_results.
  unfold finish, PoliteCrawler.print_summary. unfold_effects. follows_view.
Qed.

End PoliteGrows.

(** ** A page, event by event *)

Lemma bind_run {S A B} (m : M S A) (k : A → M S B) (s s1 : S) (a : A) :
  m s = (Ok a, s1) → bind m k s = k a s1.
Proof. intros Hm. unfold bind. rewrite Hm. reflexivity. Qed.

Lemma bind_emit {Self A} (e : Event) (k : unit → M (State Self) A) (s : State Self) :
  bind (emit e) k s = k tt (after_events [e] s).
Proof. reflexivity. Qed.

(** Inside a [try] block, a first step that returns leaves the block
    to what follows it. *)
Lemma try_bind_first {S A B C} (m : M S A) (k : A → M S B) (catches : Exn → bool)
    (h : Exn → M S B) (k2 : B → M S C) (s s1 : S) (a : A) :
  m s = (Ok a, s1) →
  bind (try_except (bind m k) catches h) k2 s = bind (try_except (k a) catches h) k2 s1.
Proof. intros Hm. unfold bind, try_except. rewrite Hm. reflexivity. Qed.

(** Inside a [try] block, a first step that raises what the block
    catches leaves the block to its handler. *)
Lemma try_bind_raise {S A B C} (m : M S A) (k : A → M S B) (catches : Exn → bool)
    (h : Exn → M S B) (k2 : B → M S C) (s s1 : S) (e : Exn) :
  m s = (Raise e, s1) →
  catches e = true →
  bind (try_except (bind m k) catches h) k2 s = bind (h e) k2 s1.
Proof. intros Hm He. unfold bind, try_except. rewrite Hm, He. reflexivity. Qed.

Lemma follows_weaken {S A} (R R' : S → S → Prop) (m : M S A) :
  (∀ s s', R s s' → R' s s') → follows R m → follows R' m.
Proof. intros HR Hm s. destruct (Hm s) as [H1 H2]. split; [apply HR, H1 | exact H2]. Qed.

Section PageShape.
Context {X : Type}.
Variable W : World.
Implicit Types s : State (PoliteCrawler.t X).

Lemma asset_event_retry (url : string) (k : nat) :
  forallb has_timeout (retry_schedule url false k) = true
  ∧ processed (retry_schedule url false k) = [].
Proof.
  induction k as [| k [IH1 IH2]]; [split; reflexivity |].
  destruct k as [| k]; [split; reflexivity |].
  split.
  - change (forallb has_timeout (retry_schedule url false (S k)) = true). exact IH1.
  - change (processed (retry_schedule url false (S k)) = []). exact IH2.
Qed.

(** [download_with_retry], by the number of its attempts. *)
Lemma download_with_retry_shape (url : string) (stream : bool) s :
  ∃ (k : nat) (res : Result (option Response)) s1 (more : list Event),
    PoliteCrawler.download_with_retry W url stream s = (res, s1)
    ∧ res ≠ OutOfFuel
    ∧ (1 <= k <= 3)%nat
    ∧ trace (env s1) = trace (env s) ++ retry_schedule url stream k ++ more
    ∧ forallb asset_event more = true
    ∧ page_view (self s1) = page_view (self s)
    ∧ fs (env s1) = fs (env s).
Proof.
  rewrite download_with_retry_run. cbv zeta.
  assert (Hgo : ∀ (k : nat) (res : Result (option Response)) (more : list Event)
                  (f : PoliteCrawler.t X → PoliteCrawler.t X),
            res ≠ OutOfFuel →
            (1 <= k <= 3)%nat →
            forallb asset_event more = true →
            page_view (f (self s)) = page_view (self s) →
            ∃ (k' : nat) (res' : Result (option Response)) s1 (more' : list Event),
              (res, {| env := {| trace := trace (env s) ++ retry_schedule url stream k ++ more;
                                 fs := fs (env s) |};
                       self := f (self s) |})
              = (res', s1)
              ∧ res' ≠ OutOfFuel
              ∧ (1 <= k' <= 3)%nat
              ∧ trace (env s1) = trace (env s) ++ retry_schedule url stream k' ++ more'
              ∧ forallb asset_event more' = true
              ∧ page_view (self s1) = page_view (self s)
              ∧ fs (env s1) = fs (env s)).
  { intros k res more f Hres Hk Hmore Hf. exists k, res. eexists. exists more.
    split; [reflexivity |]. split; [exact Hres |]. split; [exact Hk |].
    split; [reflexivity |]. split; [exact Hmore |]. split; [exact Hf | reflexivity]. }
  destruct (attempt W (requests_made (trace (env s))) url) as [e0 | r0];
    [destruct (is_RequestException e0) |];
    [ destruct (attempt W (S (requests_made (trace (env s)))) url) as [e1 | r1];
      [destruct (is_RequestException e1) |];
      [ destruct (attempt W (S (S (requests_made (trace (env s))))) url) as [e2 | r2];
        [destruct (is_RequestException e2) |] | | ]
    | | ].
  - apply (Hgo 3%nat (Ok None) [EvLog ERROR (FailedDownload url 3 (exn_str e2))]
             (PoliteCrawler.with_stats
                (CrawlerStats.errors_append
                   {| err_url := url; err_error := exn_str e2 |})));
      [discriminate | lia | reflexivity | reflexivity].
  - apply (Hgo 3%nat (Raise e2) [] id); [discriminate | lia | reflexivity | reflexivity].
  - apply (Hgo 3%nat (Ok (Some r2)) [] id);
      [discriminate | lia | reflexivity | reflexivity].
  - apply (Hgo 2%nat (Raise e1) [] id); [discriminate | lia | reflexivity | reflexivity].
  - apply (Hgo 2%nat (Ok (Some r1)) [] id);
      [discriminate | lia | reflexivity | reflexivity].
  - apply (Hgo 1%nat (Raise e0) [] id); [discriminate | lia | reflexivity | reflexivity].
  - apply (Hgo 1%nat (Ok (Some r0)) [] id);
      [discriminate | lia | reflexivity | reflexivity].
Qed.

(** [process_page], event by event: the "Processing page" line; then,
    for a page that robots.txt disallows, the warning and nothing
    else; for any other page, between one and three requests for it,
    with a second of sleep in between, followed by what the assets of
    the page take.  The queue, the visited set, the counter of pages
    and the settings of the object are as they were. *)
Lemma process_page_shape (url : string) s :
  let run := PoliteCrawler.process_page W url s in
  ∃ page,
    trace (env run.2) = trace (env s) ++ EvLog INFO (ProcessingPage url) :: page
    ∧ page_view (self run.2) = page_view (self s)
    ∧ fs (env s) ⊆ fs (env run.2)
    ∧ run.1 ≠ OutOfFuel
    ∧ if allowed (PoliteCrawler.robots_parser (self s)) url
      then ∃ (k : nat) (more : list Event),
             (1 <= k <= 3)%nat
             ∧ page = retry_schedule url false k ++ more
             ∧ forallb asset_event more = true
      else page = [EvLog WARNING (RobotsDisallows url)].
Proof.
  cbv zeta. unfold PoliteCrawler.process_page, logger.
  rewrite bind_emit. cbv beta.
  rewrite (bind_run _ _ _ _ _ (can_fetch_run url _)). cbv beta.
  cbn [after_events self].
  change (match RobotFileParser.can_fetch (PoliteCrawler.robots_parser (self s))
                  "PoliteCrawler" url with
          | inl _ => true
          | inr b => b
          end)
    with (allowed (PoliteCrawler.robots_parser (self s)) url).
  destruct (allowed (PoliteCrawler.robots_parser (self s)) url); cbn [negb]; cbv iota.
  - destruct (download_with_retry_shape url false
                (after_events [EvLog INFO (ProcessingPage url)] s))
      as (k & r & s1 & more & Hrun & Hr & Hk & Htr & Hmore & Hv & Hfs).
    destruct r as [r | e |]; [| | contradiction];
      [ rewrite (try_bind_first _ _ _ _ _ _ _ _ Hrun)
      | rewrite (try_bind_raise _ _ _ _ _ _ _ _ Hrun eq_refl) ];
      cbv beta;
      (match goal with |- context [bind ?m ?f s1] =>
         assert (Htail : follows (grows asset_event (@page_view X)) (bind m f))
           by (pose proof (follows_archive_page (X:=X) W); unfold_effects; follows_view);
         destruct (Htail s1) as [(Hv2 & Hfs2 & evs & Htr2 & Hevs) Hend];
         destruct (bind m f s1) as [res s2]
       end;
       unfold after_events in *; cbn [fst snd env self trace fs] in *;
       exists (retry_schedule url false k ++ more ++ evs);
       (split; [rewrite Htr2, Htr; cbn; rewrite <- !app_assoc; reflexivity |]);
       (split; [congruence |]);
       (split; [rewrite Hfs in Hfs2; exact Hfs2 |]);
       (split; [exact Hend |]);
       exists k, (more ++ evs); (split; [exact Hk |]); (split; [reflexivity |]);
       rewrite forallb_app, Hmore, Hevs; reflexivity).
  - run_monad. unfold after_events. cbn [fst snd env self trace fs].
    exists [EvLog WARNING (RobotsDisallows url)].
    split; [rewrite <- app_assoc; reflexivity |].
    split; [reflexivity |]. split; [reflexivity |]. split; [discriminate | reflexivity].
Qed.

End PageShape.

(** ** The links of a page *)

Lemma split_first_no_char (c : ascii) (s : string) :
  Py.has_char c (Py.split_first c s) = false.
Proof.
  induction s as [| b s IH]; cbn; [reflexivity |].
  destruct (Ascii.eqb b c) eqn:E; cbn; [reflexivity |]. rewrite E. exact IH.
Qed.

Section Links.
Context {X : Type}.
Variable W : World.
Implicit Types s : State (PoliteCrawler.t X).

Lemma after_links_zero s : after_links 0 s = s.
Proof.
  destruct s as [e [? ? ? ? ? ? ? [? ? ? ? ? ? uf] ? ? ? ?]].
  unfold after_links, PoliteCrawler.with_stats, CrawlerStats.with_urls_found. cbn.
  rewrite Z.add_0_r. reflexivity.
Qed.

Lemma after_links_add (j k : Z) s : after_links k (after_links j s) = after_links (j + k) s.
Proof.
  unfold after_links. cbn. unfold PoliteCrawler.with_stats, CrawlerStats.with_urls_found.
  cbn. rewrite Z.add_assoc. reflexivity.
Qed.

(** The loop over the anchors, for a body that does what the body of
    the loop of [find_internal_links] does. *)
Lemma links_fold (url : string)
    (body : list string → string → M (State (PoliteCrawler.t X)) (list string))
    (anchors : list string) (acc : list string) s (links : list string) s1 :
  (∀ acc0 href s0,
     body acc0 href s0
     = match urljoin W url href with
       | inl e => (Raise e, s0)
       | inr full =>
           match urlparse W full with
           | inl e => (Raise e, s0)
           | inr parsed =>
               if String.eqb (netloc parsed) (PoliteCrawler.domain (self s0))
                  && negb (Py.contains "mailto:" href)
               then
                 if bool_decide (Py.split_first "#" full
                                 ∈ PoliteCrawler.visited_urls (self s0))
                 then (Ok acc0, s0)
                 else (Ok (acc0 ++ [Py.split_first "#" full]), after_links 1 s0)
               else (Ok acc0, s0)
           end
       end) →
  for_fold anchors acc body s = (Ok links, s1) →
  ∃ found,
    links = acc ++ found
    ∧ s1 = after_links (Z.of_nat (length found)) s
    ∧ Forall (λ link, (link ∉ PoliteCrawler.visited_urls (self s))
                      ∧ ∃ href, href ∈ anchors
                                ∧ link_of W url (PoliteCrawler.domain (self s)) href link)
        found.
Proof.
  intros Hbody. revert acc s links s1.
  induction anchors as [| href anchors IH]; intros acc s links s1.
  - cbn. intros H. injection H as <- <-. exists [].
    rewrite app_nil_r, after_links_zero. repeat split. constructor.
  - cbn [for_fold]. unfold bind at 1. rewrite Hbody.
    destruct (urljoin W url href) as [e | full] eqn:Hjoin; [discriminate |].
    destruct (urlparse W full) as [e | parsed] eqn:Hparse; [discriminate |].
    assert (Hmore : ∀ found,
              Forall (λ link, (link ∉ PoliteCrawler.visited_urls (self s))
                              ∧ ∃ href0, href0 ∈ anchors
                                         ∧ link_of W url (PoliteCrawler.domain (self s))
                                             href0 link) found →
              Forall (λ link, (link ∉ PoliteCrawler.visited_urls (self s))
                              ∧ ∃ href0, href0 ∈ href :: anchors
                                         ∧ link_of W url (PoliteCrawler.domain (self s))
                                             href0 link) found).
    { intros found Hf. eapply Forall_impl; [exact Hf |].
      intros link (H1 & href0 & H4 & H5).
      split; [assumption |]. exists href0. split; [right; exact H4 | exact H5]. }
    destruct (String.eqb (netloc parsed) (PoliteCrawler.domain (self s))) eqn:Hdom;
      cbn [andb]; [| intros H; destruct (IH _ _ _ _ H) as (found & -> & -> & Hall);
                     exists found; auto].
    destruct (Py.contains "mailto:" href) eqn:Hmail; cbn [negb];
      [intros H; destruct (IH _ _ _ _ H) as (found & -> & -> & Hall); exists found; auto |].
    destruct (bool_decide (Py.split_first "#" full ∈ PoliteCrawler.visited_urls (self s)))
      eqn:Hvis;
      [intros H; destruct (IH _ _ _ _ H) as (found & -> & -> & Hall); exists found; auto |].
    intros H. destruct (IH _ _ _ _ H) as (found & -> & -> & Hall).
    exists (Py.split_first "#" full :: found).
    split; [rewrite <- app_assoc; reflexivity |].
    split.
    { rewrite after_links_add. f_equal. cbn [length]. lia. }
    constructor.
    + apply bool_decide_eq_false in Hvis. split; [exact Hvis |].
      exists href. split; [left |]. exists full, parsed.
      apply String.eqb_eq in Hdom. auto.
    + apply Hmore. exact Hall.
Qed.

Lemma link_of_in_scope (url d href link : string) :
  link_of W url d href link → Py.has_char "#" link = false ∧ in_scope W d link.
Proof.
  intros (full & parsed & _ & Hparse & Hd & _ & ->).
  split; [apply split_first_no_char |]. exists full, parsed. auto.
Qed.

Lemma links_step_run (url : string) (acc : list string) (href : string) s :
  (full_url <- call (urljoin W url href) ;;
   parsed_link <- call (urlparse W full_url) ;;
   d <- gets_self PoliteCrawler.domain ;;
   if String.eqb (netloc parsed_link) d && negb (Py.contains "mailto:" href) then
     let clean_url := Py.split_first "#" full_url in
     visited <- gets_self PoliteCrawler.visited_urls ;;
     if bool_decide (clean_url ∈ visited) then ret acc
     else
       modify_self (PoliteCrawler.with_stats
                      (CrawlerStats.with_urls_found (fun n => n + 1))) ;;
       ret (acc ++ [clean_url])
   else ret acc) s
  = match urljoin W url href with
    | inl e => (Raise e, s)
    | inr full =>
        match urlparse W full with
        | inl e => (Raise e, s)
        | inr parsed =>
            if String.eqb (netloc parsed) (PoliteCrawler.domain (self s))
               && negb (Py.contains "mailto:" href)
            then
              if bool_decide (Py.split_first "#" full
                              ∈ PoliteCrawler.visited_urls (self s))
              then (Ok acc, s)
              else (Ok (acc ++ [Py.split_first "#" full]), after_links 1 s)
            else (Ok acc, s)
        end
    end.
Proof.
  run_monad.
  destruct (urljoin W url href) as [e | full]; [reflexivity |].
  destruct (urlparse W full) as [e | parsed]; [reflexivity |].
  destruct (String.eqb _ _ && negb _); [| reflexivity].
  cbv zeta. run_monad.
  destruct (bool_decide _); reflexivity.
Qed.

Lemma grows_domain {P : Event → bool} s s1 :
  grows P (@page_view X) s s1 →
  PoliteCrawler.domain (self s1) = PoliteCrawler.domain (self s).
Proof.
  intros (Hv & _). unfold page_view, static_view, config_view in Hv.
  injection Hv as Hv _. congruence.
Qed.

Lemma follows_any_download_asset (url dir asset_type : string) :
  follows (grows any_event (@page_view X))
    (PoliteCrawler.download_asset W url dir asset_type).
Proof.
  apply (follows_weaken (grows asset_event page_view)); [| apply follows_download_asset].
  intros s s'. apply grows_weaken; [reflexivity | auto].
Qed.

Ltac peel H Hd :=
  apply (follows_bind_inv (grows any_event (@page_view X))) in H;
  [ let Hg := fresh "Hg" in
    destruct H as (? & ? & _ & Hg & H);
    apply grows_domain in Hg; rewrite <- Hg in Hd; clear Hg
  | unfold PoliteCrawler.extract_images, PoliteCrawler.resolve_only,
      PoliteCrawler.save_svgs;
    pose proof follows_any_download_asset;
    unfold_effects; follows_view ].

(** The links that the archiving of a page returns are links of the
    domain. *)
Lemma archive_page_links (url : string) (soup : Soup) s (links : list string) s' :
  PoliteCrawler.archive_page W url soup s = (Ok links, s') →
  Forall (λ link, Py.has_char "#" link = false
                  ∧ in_scope W (PoliteCrawler.domain (self s)) link) links.
Proof.
  intros H.
  assert (Hd : PoliteCrawler.domain (self s) = PoliteCrawler.domain (self s)) by reflexivity.
  revert Hd. generalize (PoliteCrawler.domain (self s)) at 2 3. intros d Hd.
  unfold PoliteCrawler.archive_page in H.
  peel H Hd. peel H Hd. peel H Hd. peel H Hd. peel H Hd.
  peel H Hd. peel H Hd. peel H Hd. peel H Hd.
  unfold PoliteCrawler.find_internal_links in H.
  apply (links_fold url) in H; [| intros; apply links_step_run].
  destruct H as (found & -> & _ & Hall). cbn [app]. rewrite Hd in Hall.
  eapply Forall_impl; [exact Hall |]. intros link (_ & href & _ & Hlink).
  apply (link_of_in_scope url d href link Hlink).
Qed.

(** So are the links that [process_page] returns. *)
Lemma process_page_links (url : string) s (links : list string) s' :
  PoliteCrawler.process_page W url s = (Ok links, s') →
  Forall (λ link, Py.has_char "#" link = false
                  ∧ in_scope W (PoliteCrawler.domain (self s)) link) links.
Proof.
  unfold PoliteCrawler.process_page, logger.
  rewrite bind_emit. cbv beta.
  rewrite (bind_run _ _ _ _ _ (can_fetch_run url _)). cbv beta.
  match goal with |- context [negb ?b] => destruct b end; cbn [negb]; cbv iota.
  - destruct (download_with_retry_shape W url false
                (after_events [EvLog INFO (ProcessingPage url)] s))
      as (k & res & s1 & more & Hrun & Hres & _ & _ & _ & Hv & _).
    assert (Hd : PoliteCrawler.domain (self s1) = PoliteCrawler.domain (self s)).
    { unfold page_view, static_view, config_view in Hv. cbn [after_events self] in Hv.
      injection Hv as Hv _. congruence. }
    rewrite <- Hd.
    destruct res as [r | e |]; [| | contradiction].
    + rewrite (try_bind_first _ _ _ _ _ _ _ _ Hrun). cbv beta.
      destruct r as [r |]; [destruct (ok r); cbn [negb]; cbv iota;
                            [destruct (parse_html W (text r)) as [e | soup] |] |];
        run_monad; try (intros H; injection H as <- _; constructor).
      apply archive_page_links.
    + rewrite (try_bind_raise _ _ _ _ _ _ _ _ Hrun eq_refl). cbv beta.
      run_monad. intros H. injection H as <- _. constructor.
  - run_monad. intros H. injection H as <- _. constructor.
Qed.

End Links.

(** ** A round of the loop, and the whole run *)

Lemma bind_gets_self {Self A B} (f : Self → A) (k : A → M (State Self) B) (s : State Self) :
  bind (gets_self f) k s = k (f (self s)) s.
Proof. reflexivity. Qed.

Lemma bind_modify_self {Self B} (f : Self → Self) (k : unit → M (State Self) B)
    (s : State Self) :
  bind (modify_self f) k s = k tt {| env := env s; self := f (self s) |}.
Proof. reflexivity. Qed.

(** A sequence whose first step lets the state grow: what holds of
    every way to go on holds of the sequence. *)
Lemma follows_bind_cases {S A B} (R : S → S → Prop) `{!PreOrder R}
    (m : M S A) (k : A → M S B) (s0 s : S) (Φ : Result B * S → Prop) :
  R s0 s → follows R m →
  (∀ a s1, R s0 s1 → Φ (k a s1)) →
  (∀ e s1, R s0 s1 → Φ (Raise e, s1)) →
  Φ (bind m k s).
Proof.
  intros H0 Hm Hk He. unfold bind. destruct (Hm s) as [HR Hr].
  destruct (m s) as [[a | e |] s1]; cbn [fst snd] in *.
  - apply Hk. etransitivity; eassumption.
  - apply He. etransitivity; eassumption.
  - contradiction.
Qed.

Section Rounds.
Context {X : Type}.
Variable W : World.
Implicit Types s : State (PoliteCrawler.t X).

Abbreviation pc s := (CrawlerStats.pages_crawled (PoliteCrawler.stats (self s))).
Abbreviation queue s := (PoliteCrawler.url_queue (self s)).
Abbreviation visited s := (PoliteCrawler.visited_urls (self s)).

(** A round of the loop, around the call of [process_page]. *)
Lemma crawl_step_run pp (url : string) (rest : list string) s :
  queue s = url :: rest →
  PoliteCrawler.crawl_step pp s
  = match pp url (popped rest s) with
    | (Ok links, s1) => for_each links PoliteCrawler.enqueue_new (page_counted url s1)
    | (Raise e, s1) => (Raise e, s1)
    | (OutOfFuel, s1) => (OutOfFuel, s1)
    end.
Proof.
  intros Hq. unfold PoliteCrawler.crawl_step, popped, page_counted, page_pause.
  destruct s as [[tr files] c]. cbn [env self trace fs] in *.
  run_monad. cbn [id]. rewrite Hq.
  destruct (0 <? _); run_monad; rewrite <- ?app_assoc, ?app_nil_r; cbn [app];
    destruct (pp url _) as [[links | e |] s1]; reflexivity.
Qed.

(** The loop over the links found adds links to the queue and marks
    them, and does nothing else. *)
Lemma for_each_enqueue_links (links : list string) s :
  ∃ s', for_each links PoliteCrawler.enqueue_new s = (Ok tt, s')
        ∧ env s' = env s
        ∧ PoliteCrawler.stats (self s') = PoliteCrawler.stats (self s)
        ∧ settings (self s') = settings (self s)
        ∧ (∀ u, u ∈ queue s' → u ∈ queue s ∨ u ∈ links)
        ∧ visited s ⊆ visited s'.
Proof.
  revert s. induction links as [| link links IH]; intros s.
  - exists s. split; [reflexivity |]. repeat (split; [reflexivity |]).
    split; [auto | reflexivity].
  - cbn [for_each]. unfold PoliteCrawler.enqueue_new at 1. run_monad.
    destruct (bool_decide (link ∈ visited s)); cbn [negb]; run_monad.
    + destruct (IH s) as (s' & Hrun & Henv & Hstats & Hset & Hq & Hvis).
      exists s'. split; [exact Hrun |]. repeat (split; [assumption |]).
      split; [| exact Hvis]. intros u Hu. destruct (Hq u Hu); [left | right; right]; assumption.
    + match goal with |- context [for_each links _ ?s0] =>
        destruct (IH s0) as (s' & Hrun & Henv & Hstats & Hset & Hq & Hvis) end.
      exists s'. split; [exact Hrun |]. cbn in Henv, Hstats, Hset, Hq, Hvis.
      repeat (split; [assumption |]).
      split; [| set_solver].
      intros u Hu. destruct (Hq u Hu) as [Hin | Hin]; [| right; right; exact Hin].
      apply elem_of_app in Hin as [Hin | Hin]; [left; exact Hin |].
      apply list_elem_of_singleton in Hin. subst u. right. left.
Qed.

(** A round of the loop of [crawl], event by event: the pause, the
    page, and the report of the progress when [process_page] has
    returned.  The settings of the object stay, the counter goes up by
    one when the round comes to its end, and what is added to the
    queue are links of the domain. *)
Lemma polite_round (url : string) (rest : list string) s :
  queue s = url :: rest →
  let round := PoliteCrawler.crawl_step (PoliteCrawler.process_page W) s in
  ∃ (page report : list Event),
    trace (env round.2)
    = trace (env s) ++ page_pause (pc s) (PoliteCrawler.delay (self s))
      ++ EvLog INFO (ProcessingPage url) :: page ++ report
    ∧ (if allowed (PoliteCrawler.robots_parser (self s)) url
       then ∃ (k : nat) (more : list Event),
              (1 <= k <= 3)%nat
              ∧ page = retry_schedule url false k ++ more
              ∧ forallb asset_event more = true
       else page = [EvLog WARNING (RobotsDisallows url)])
    ∧ match round.1 with
      | Ok _ => (∃ p, report = [EvProgress p]) ∧ pc round.2 = pc s + 1
      | Raise _ => report = [] ∧ pc round.2 = pc s
      | OutOfFuel => False
      end
    ∧ settings (self round.2) = settings (self s)
    ∧ fs (env s) ⊆ fs (env round.2)
    ∧ visited s ⊆ visited round.2
    ∧ CrawlerStats.start_time (PoliteCrawler.stats (self round.2))
      = CrawlerStats.start_time (PoliteCrawler.stats (self s))
    ∧ (∀ u, u ∈ queue round.2 →
            u ∈ rest ∨ (Py.has_char "#" u = false
                        ∧ in_scope W (PoliteCrawler.domain (self s)) u)).
Proof.
  intros Hq. cbv zeta. rewrite (crawl_step_run _ url rest s Hq).
  destruct (process_page_shape W url (popped rest s))
    as (page & Htr & Hv & Hfs & Hend & Hpage).
  pose proof (process_page_links W url (popped rest s)) as Hlinks.
  unfold page_view, static_view, config_view in Hv.
  cbn [popped self env trace fs PoliteCrawler.with_url_queue
       PoliteCrawler.start_url PoliteCrawler.max_pages PoliteCrawler.delay
       PoliteCrawler.domain PoliteCrawler.base_url PoliteCrawler.visited_urls
       PoliteCrawler.url_queue PoliteCrawler.stats PoliteCrawler.folders
       PoliteCrawler.robots_parser PoliteCrawler.ext PoliteCrawler.results] in *.
  injection Hv as Hstart Hmax Hdelay Hdom Hbase Hvis Hqueue Hpc Hfold Hrob Hst Het Hext Hmeta.
  destruct (PoliteCrawler.process_page W url (popped rest s)) as [[links | e |] s1];
    cbn [fst snd] in *; [| | contradiction].
  - destruct (for_each_enqueue_links links (page_counted url s1))
      as (s2 & Hrun & Henv & Hstats & Hset & Hq2 & Hvis2).
    rewrite Hrun. cbn [fst snd].
    exists page. eexists.
    split.
    { rewrite Henv. cbn [page_counted env trace]. rewrite Htr, <- !app_assoc. cbn [app].
      reflexivity. }
    split; [exact Hpage |].
    split.
    { split; [eexists; reflexivity |]. rewrite Hstats. cbn. rewrite Hpc. reflexivity. }
    split.
    { rewrite Hset. unfold settings. cbn. congruence. }
    split; [rewrite Henv; exact Hfs |].
    split; [cbn in Hvis2; rewrite <- Hvis; exact Hvis2 |].
    split; [rewrite Hstats; cbn; exact Hst |].
    intros u Hu. destruct (Hq2 u Hu) as [Hin | Hin].
    + left. cbn in Hin. rewrite Hqueue in Hin. exact Hin.
    + right. specialize (Hlinks links s1 eq_refl). rewrite Forall_forall in Hlinks.
      apply Hlinks, Hin.
  - exists page, []. rewrite app_nil_r.
    split; [rewrite Htr, <- app_assoc; reflexivity |]. split; [exact Hpage |].
    split; [split; [reflexivity | exact Hpc] |].
    split; [unfold settings; congruence |].
    split; [exact Hfs |].
    split; [rewrite Hvis; reflexivity |].
    split; [exact Hst |].
    intros u Hu. left. rewrite Hqueue in Hu. exact Hu.
Qed.

(** The loop, for a property [I] that every round that returns keeps,
    and a property [F] of the states in which the loop may stop. *)
Lemma crawl_loop_inv pp (I F : State (PoliteCrawler.t X) → Prop) (fuel : nat) s :
  (∀ s1, I s1 → PoliteCrawler.keep_crawling (self s1) = true →
         match PoliteCrawler.crawl_step pp s1 with
         | (Ok _, s2) => I s2
         | (_, s2) => F s2
         end) →
  (∀ s1, I s1 → F s1) →
  I s →
  match PoliteCrawler.crawl_loop pp fuel s with
  | (Ok _, s') => I s' ∧ PoliteCrawler.keep_crawling (self s') = false
  | (_, s') => F s'
  end.
Proof.
  intros Hstep HIF. revert s. induction fuel as [| fuel IH]; intros s HI;
    cbn [PoliteCrawler.crawl_loop]; run_monad; cbn [id];
    destruct (PoliteCrawler.keep_crawling (self s)) eqn:Hk; auto.
  specialize (Hstep s HI Hk).
  destruct (PoliteCrawler.crawl_step pp s) as [[[] | e |] s1]; auto.
  apply IH, Hstep.
Qed.

(** The whole of [crawl]: before the loop the state grows quietly; the
    seed is queued; the rounds keep [I]; and once the loop has ended
    the state grows quietly again.  [F] holds wherever the run stops,
    and a run that returns has gone through [finish]. *)
Lemma crawl_rounds_inv (rounds : option nat) setup pp
    (I F : State (PoliteCrawler.t X) → Prop) s :
  follows (grows quiet (@config_view X)) setup →
  (∀ s1, grows quiet config_view s s1 → F s1) →
  (∀ s1, grows quiet config_view s s1 → I (seeded s1)) →
  (∀ s1, I s1 → PoliteCrawler.keep_crawling (self s1) = true →
         match PoliteCrawler.crawl_step pp s1 with
         | (Ok _, s2) => I s2
         | (_, s2) => F s2
         end) →
  (∀ s1 s2, I s1 → grows quiet static_view s1 s2 → F s2) →
  let run := PoliteCrawler.crawl_rounds W rounds setup pp s in
  F run.2
  ∧ (run.1 = Ok tt →
     ∃ s1, I s1 ∧ PoliteCrawler.keep_crawling (self s1) = false ∧ run = finish W s1).
Proof.
  intros Hsetup Hpre Hseed Hstep Hpost. cbv zeta.
  pose (Φ := λ out : Result unit * State (PoliteCrawler.t X),
          F out.2
          ∧ (out.1 = Ok tt →
             ∃ s1, I s1 ∧ PoliteCrawler.keep_crawling (self s1) = false
                   ∧ out = finish W s1)).
  change (Φ (PoliteCrawler.crawl_rounds W rounds setup pp s)).
  assert (Hraise : ∀ (e : Exn) s1, grows quiet config_view s s1 → Φ (Raise e, s1)).
  { intros e s1 Hg. split; [apply Hpre, Hg | discriminate]. }
  assert (HIF : ∀ s1, I s1 → F s1).
  { intros s1 H1. apply (Hpost s1 s1 H1). reflexivity. }
  unfold PoliteCrawler.crawl_rounds.
  rewrite bind_gets_self. cbv beta.
  apply (follows_bind_cases (grows quiet config_view) _ _ s s Φ);
    [reflexivity | unfold logger; follows_view | intros _ s1 Hg1 | exact Hraise].
  unfold datetime_now at 1. unfold bind at 1, gets at 1.
  apply (follows_bind_cases (grows quiet config_view) _ _ s s1 Φ);
    [exact Hg1 | follows_view | intros _ s2 Hg2 | exact Hraise].
  apply (follows_bind_cases (grows quiet config_view) _ _ s s2 Φ);
    [exact Hg2 | exact Hsetup | intros _ s3 Hg3 | exact Hraise].
  apply (follows_bind_cases (grows quiet config_view) _ _ s s3 Φ);
    [exact Hg3 | apply follows_check_robots_txt | intros _ s4 Hg4 | exact Hraise].
  rewrite !bind_modify_self. cbv beta. rewrite bind_gets_self. cbv beta.
  cbn [env self].
  assert (Hstart : PoliteCrawler.start_url (self s) = PoliteCrawler.start_url (self s4)).
  { destruct Hg4 as (Hv & _). unfold config_view in Hv. injection Hv as Hs _. congruence. }
  rewrite Hstart. fold (seeded s4).
  match goal with |- context [PoliteCrawler.crawl_loop pp ?fuel] =>
    pose proof (crawl_loop_inv pp I F fuel (seeded s4) Hstep HIF (Hseed s4 Hg4)) as Hloop;
    unfold bind at 1;
    destruct (PoliteCrawler.crawl_loop pp fuel (seeded s4)) as [[[] | e |] s5]
  end.
  - destruct Hloop as [HI5 Hstop].
    change (Φ (finish W s5)). split.
    + apply (Hpost s5); [exact HI5 |]. apply follows_finish.
    + intros _. exists s5. auto.
  - split; [exact Hloop | discriminate].
  - split; [exact Hloop | discriminate].
Qed.

End Rounds.

(** ** What is on record after a run *)

Lemma last_event_cons (prev : option Event) (e : Event) (tr : list Event) :
  last_event prev (e :: tr) = last_event (Some e) tr.
Proof. unfold last_event. rewrite last_cons. destruct (last tr); reflexivity. Qed.

Lemma last_event_snoc (prev : option Event) (tr : list Event) (e : Event) :
  last_event prev (tr ++ [e]) = Some e.
Proof. unfold last_event. rewrite last_snoc. reflexivity. Qed.

Lemma page_predecessors_app (prev : option Event) (tr evs : list Event) :
  page_predecessors prev (tr ++ evs)
  = page_predecessors prev tr ++ page_predecessors (last_event prev tr) evs.
Proof.
  revert prev. induction tr as [| e tr IH]; intros prev; [reflexivity |].
  rewrite last_event_cons. cbn [app page_predecessors].
  destruct e as [lvl msg | | | | | | | | | |]; try apply IH.
  destruct msg; cbn; rewrite IH; reflexivity.
Qed.

Lemma processed_cons (e : Event) (tr : list Event) :
  processed (e :: tr) = processed [e] ++ processed tr.
Proof. apply (processed_app [e] tr). Qed.

Lemma page_predecessors_none (prev : option Event) (evs : list Event) :
  processed evs = [] → page_predecessors prev evs = [].
Proof.
  revert prev. induction evs as [| e evs IH]; intros prev; [reflexivity |].
  rewrite processed_cons. intros H. apply app_eq_nil in H as [He Hevs].
  cbn [page_predecessors].
  destruct e as [lvl msg | | | | | | | | | |]; try (apply IH; exact Hevs).
  destruct msg; try (apply IH; exact Hevs). discriminate.
Qed.

Lemma page_predecessors_length (prev : option Event) (tr : list Event) :
  length (page_predecessors prev tr) = length (processed tr).
Proof.
  revert prev. induction tr as [| e tr IH]; intros prev; [reflexivity |].
  cbn [page_predecessors processed].
  destruct e as [lvl msg | | | | | | | | | |]; try apply IH.
  destruct msg; cbn; rewrite ?IH; reflexivity.
Qed.

Lemma processed_none (P : Event → bool) (evs : list Event) :
  (∀ e, P e = true → processed [e] = []) →
  forallb P evs = true → processed evs = [].
Proof.
  intros HP. induction evs as [| e evs IH]; [reflexivity |].
  cbn [forallb]. intros H. apply andb_prop in H as [He Hevs].
  rewrite processed_cons, (HP e He), IH by exact Hevs. reflexivity.
Qed.

Lemma quiet_no_page (e : Event) : quiet e = true → processed [e] = [].
Proof. destruct e as [lvl msg | | | | | | | | | |]; try reflexivity. destruct msg; (reflexivity || discriminate). Qed.

Lemma asset_no_page (e : Event) : asset_event e = true → processed [e] = [].
Proof. destruct e as [lvl msg | | | | | | | | | |]; try reflexivity. destruct msg; (reflexivity || discriminate). Qed.

Lemma forallb_weaken (P Q : Event → bool) (evs : list Event) :
  (∀ e, P e = true → Q e = true) → forallb P evs = true → forallb Q evs = true.
Proof.
  intros HPQ H. apply forallb_forall. intros e He. apply HPQ.
  rewrite forallb_forall in H. apply H, He.
Qed.

Lemma page_requests_app (u : string) (tr evs : list Event) :
  page_requests u (tr ++ evs) = (page_requests u tr + page_requests u evs)%nat.
Proof. unfold page_requests. rewrite List.filter_app, length_app. reflexivity. Qed.

Lemma page_requests_none (P : Event → bool) (u : string) (evs : list Event) :
  (∀ e, P e = true → is_page_request u e = false) →
  forallb P evs = true → page_requests u evs = O.
Proof.
  intros HP. induction evs as [| e evs IH]; [reflexivity |].
  cbn [forallb]. intros H. apply andb_prop in H as [He Hevs].
  unfold page_requests in *. cbn [List.filter]. rewrite (HP e He). apply IH, Hevs.
Qed.

Lemma asset_no_page_request (u : string) (e : Event) :
  asset_event e = true → is_page_request u e = false.
Proof. destruct e as [| v [] t | | | | | | | | |]; (reflexivity || discriminate). Qed.

Lemma quiet_no_page_request (u : string) (e : Event) :
  quiet e = true → is_page_request u e = false.
Proof. destruct e; (reflexivity || discriminate). Qed.

Lemma asset_has_timeout (e : Event) : asset_event e = true → has_timeout e = true.
Proof. destruct e as [| v [] t | | | | | | | | |]; cbn; auto; discriminate. Qed.

Lemma quiet_has_timeout (e : Event) : quiet e = true → has_timeout e = true.
Proof. destruct e; cbn; auto; discriminate. Qed.

Lemma asset_compliant (p : RobotFileParser.t) (e : Event) :
  asset_event e = true → compliant p e = true.
Proof. destruct e as [| v [] t | | | | | | | | |]; cbn; auto; discriminate. Qed.

Lemma quiet_compliant (p : RobotFileParser.t) (e : Event) :
  quiet e = true → compliant p e = true.
Proof. destruct e; cbn; auto; discriminate. Qed.

Lemma retry_schedule_facts (p : RobotFileParser.t) (url : string) (k : nat) :
  processed (retry_schedule url false k) = []
  ∧ forallb has_timeout (retry_schedule url false k) = true
  ∧ (∀ u, page_requests u (retry_schedule url false k)
          = if String.eqb url u then k else O)
  ∧ (allowed p url = true → forallb (compliant p) (retry_schedule url false k) = true).
Proof.
  induction k as [| k (IH1 & IH2 & IH3 & IH4)].
  - repeat split; try reflexivity. intros u. destruct (String.eqb url u); reflexivity.
  - destruct k as [| k].
    + repeat split; try reflexivity.
      * intros u. unfold page_requests. cbn. destruct (String.eqb url u); reflexivity.
      * intros Hp. cbn. rewrite Hp. reflexivity.
    + change (retry_schedule url false (S (S k)))
        with (EvGet url false 10 :: EvSleep 1 :: retry_schedule url false (S k)).
      split; [exact IH1 |]. split; [exact IH2 |]. split.
      * intros u. specialize (IH3 u). unfold page_requests in *. cbn [List.filter is_page_request].
        destruct (String.eqb url u); cbn [length]; rewrite IH3; reflexivity.
      * intros Hp. cbn [forallb compliant]. rewrite Hp, (IH4 Hp). reflexivity.
Qed.

(** What the events of a page come to, by their shape. *)
Lemma page_facts (p : RobotFileParser.t) (url : string) (page : list Event) :
  (if allowed p url
   then ∃ (k : nat) (more : list Event),
          (1 <= k <= 3)%nat
          ∧ page = retry_schedule url false k ++ more
          ∧ forallb asset_event more = true
   else page = [EvLog WARNING (RobotsDisallows url)]) →
  processed page = []
  ∧ forallb has_timeout page = true
  ∧ (∀ u, (page_requests u page <= if String.eqb url u then 3 else 0)%nat)
  ∧ forallb (compliant p) page = true.
Proof.
  destruct (allowed p url) eqn:Hp.
  - intros (k & more & Hk & -> & Hmore).
    destruct (retry_schedule_facts p url k) as (H1 & H2 & H3 & H4).
    split; [rewrite processed_app, H1, (processed_none _ _ asset_no_page Hmore);
            reflexivity |].
    split; [rewrite forallb_app, H2, (forallb_weaken _ _ _ asset_has_timeout Hmore);
            reflexivity |].
    split.
    + intros u. rewrite page_requests_app, H3,
        (page_requests_none _ u _ (asset_no_page_request u) Hmore).
      destruct (String.eqb url u); lia.
    + rewrite forallb_app, (H4 Hp), (forallb_weaken _ _ _ (asset_compliant p) Hmore).
      reflexivity.
  - intros ->. repeat split; try reflexivity.
    intros u. unfold page_requests. cbn. destruct (String.eqb url u); lia.
Qed.

Lemma page_pause_facts (p : RobotFileParser.t) (n : Z) (d : Q) :
  processed (page_pause n d) = []
  ∧ forallb has_timeout (page_pause n d) = true
  ∧ (∀ u, page_requests u (page_pause n d) = O)
  ∧ forallb (compliant p) (page_pause n d) = true.
Proof. unfold page_pause. destruct (0 <? n); repeat split. Qed.

Lemma paced_quiet (d : Q) (tr evs : list Event) :
  processed evs = [] → paced d tr → paced d (tr ++ evs).
Proof.
  intros Hevs. unfold paced.
  rewrite page_predecessors_app, (page_predecessors_none _ evs Hevs), app_nil_r. auto.
Qed.

Lemma paced_page (d : Q) (tr : list Event) (lvl : LogLevel) (url : string) :
  processed tr = [] ∨ last_event None tr = Some (EvSleep d) →
  paced d tr → paced d (tr ++ [EvLog lvl (ProcessingPage url)]).
Proof.
  intros Hlast. unfold paced. rewrite page_predecessors_app. cbn [page_predecessors].
  destruct Hlast as [Hfirst | Hlast].
  - rewrite (page_predecessors_none _ tr Hfirst). cbn. constructor.
  - rewrite Hlast. intros H.
    destruct (page_predecessors None tr) as [| x l]; cbn in *; [constructor |].
    apply Forall_app. split; [exact H |]. repeat constructor.
Qed.

Lemma keep_crawling_cons {X} (c : PoliteCrawler.t X) :
  PoliteCrawler.keep_crawling c = true →
  ∃ url rest, PoliteCrawler.url_queue c = url :: rest.
Proof.
  unfold PoliteCrawler.keep_crawling. destruct (PoliteCrawler.url_queue c); [discriminate |].
  eauto.
Qed.

Lemma init_settings {X} (W : World) (start : string) (limit : Z) (d : Q) (x : X)
    (c : PoliteCrawler.t X) :
  PoliteCrawler.init W start limit d x = inr c →
  PoliteCrawler.start_url c = start
  ∧ PoliteCrawler.delay c = d
  ∧ PoliteCrawler.url_queue c = []
  ∧ CrawlerStats.pages_crawled (PoliteCrawler.stats c) = 0
  ∧ ∃ parsed, urlparse W start = inr parsed ∧ PoliteCrawler.domain c = netloc parsed.
Proof.
  unfold PoliteCrawler.init. destruct (urlparse W start) as [e | parsed]; [discriminate |].
  intros H. injection H as <-. repeat split. eauto.
Qed.

(** Before the loop of a fresh crawler, nothing but quiet events is on
    record and the object is as [__init__] made it. *)
Lemma grows_fresh {X V} (v : PoliteCrawler.t X → V) (files : gset string)
    (c : PoliteCrawler.t X) (s1 : State (PoliteCrawler.t X)) :
  grows quiet v (fresh files c) s1 →
  v (self s1) = v c ∧ forallb quiet (trace (env s1)) = true.
Proof. intros (Hv & _ & evs & Htr & Hq). cbn in Htr. rewrite Htr. auto. Qed.

Lemma times_app (u : string) (l1 l2 : list string) :
  times u (l1 ++ l2) = (times u l1 + times u l2)%nat.
Proof. unfold times. rewrite List.filter_app, length_app. reflexivity. Qed.

Lemma times_not_in (u : string) (l : list string) : u ∉ l → times u l = O.
Proof.
  induction l as [| v l IH]; [reflexivity |]. intros Hu.
  apply not_elem_of_cons in Hu as [Hne Hu]. unfold times in *. cbn [List.filter].
  destruct (String.eqb u v) eqn:E; [apply String.eqb_eq in E; contradiction | apply IH, Hu].
Qed.

Lemma times_NoDup (u : string) (l : list string) : NoDup l → (times u l <= 1)%nat.
Proof.
  induction 1 as [| v l Hv Hl IH]; [unfold times; cbn; lia |].
  unfold times in *. cbn [List.filter].
  destruct (String.eqb u v) eqn:E; [| exact IH].
  apply String.eqb_eq in E. subst v. pose proof (times_not_in u l Hv) as H0.
  unfold times in H0. cbn [length]. rewrite H0. lia.
Qed.

(** The discipline of the requests: each has a timeout, and a page is
    requested at most three times for each time it was handed to
    [process_page]. *)
Lemma discipline_app (tr evs : list Event) :
  forallb has_timeout tr = true
  ∧ (∀ u, (page_requests u tr <= 3 * times u (processed tr))%nat) →
  forallb has_timeout evs = true →
  (∀ u, (page_requests u evs <= 3 * times u (processed evs))%nat) →
  forallb has_timeout (tr ++ evs) = true
  ∧ (∀ u, (page_requests u (tr ++ evs) <= 3 * times u (processed (tr ++ evs)))%nat).
Proof.
  intros [Ht Hr] Ht' Hr'. split; [rewrite forallb_app, Ht, Ht'; reflexivity |].
  intros u. rewrite page_requests_app, processed_app, times_app.
  specialize (Hr u). specialize (Hr' u). lia.
Qed.

Lemma discipline_quiet (evs : list Event) :
  forallb quiet evs = true →
  forallb has_timeout evs = true
  ∧ (∀ u, (page_requests u evs <= 3 * times u (processed evs))%nat).
Proof.
  intros Hq. split; [apply (forallb_weaken _ _ _ quiet_has_timeout Hq) |].
  intros u. rewrite (page_requests_none _ u _ (quiet_no_page_request u) Hq). lia.
Qed.

(** The events of a round of the loop, by their shape. *)
Lemma round_facts (p : RobotFileParser.t) (n : Z) (d : Q) (url : string)
    (page report : list Event) :
  (if allowed p url
   then ∃ (k : nat) (more : list Event),
          (1 <= k <= 3)%nat
          ∧ page = retry_schedule url false k ++ more
          ∧ forallb asset_event more = true
   else page = [EvLog WARNING (RobotsDisallows url)]) →
  report = [] ∨ (∃ pr, report = [EvProgress pr]) →
  let evs := page_pause n d ++ EvLog INFO (ProcessingPage url) :: page ++ report in
  processed evs = [url]
  ∧ forallb has_timeout evs = true
  ∧ (∀ u, (page_requests u evs <= 3 * times u (processed evs))%nat)
  ∧ forallb (compliant p) evs = true.
Proof.
  intros Hpage Hreport. cbv zeta.
  destruct (page_facts p url page Hpage) as (H1 & H2 & H3 & H4).
  destruct (page_pause_facts p n d) as (P1 & P2 & P3 & P4).
  assert (R : processed report = [] ∧ forallb has_timeout report = true
              ∧ (∀ u, page_requests u report = O)
              ∧ forallb (compliant p) report = true).
  { destruct Hreport as [-> | [pr ->]]; repeat split. }
  destruct R as (R1 & R2 & R3 & R4).
  assert (Hproc : processed (page_pause n d ++ EvLog INFO (ProcessingPage url)
                             :: page ++ report) = [url]).
  { rewrite processed_app, P1. cbn [app processed]. rewrite processed_app, H1, R1.
    reflexivity. }
  split; [exact Hproc |].
  split.
  { rewrite forallb_app, P2. cbn [forallb has_timeout andb].
    rewrite forallb_app, H2, R2. reflexivity. }
  split.
  { intros u. rewrite Hproc. rewrite page_requests_app, P3.
    change (EvLog INFO (ProcessingPage url) :: page ++ report)
      with ([EvLog INFO (ProcessingPage url)] ++ page ++ report).
    rewrite !page_requests_app, R3. specialize (H3 u).
    unfold times. cbn [List.filter]. rewrite String.eqb_sym.
    destruct (String.eqb url u); cbn in *; lia. }
  rewrite forallb_app, P4. cbn [forallb compliant andb].
  rewrite forallb_app, H4, R4. reflexivity.
Qed.

Section Runs.
Context {X : Type}.
Variable W : World.
Implicit Types s : State (PoliteCrawler.t X).

Abbreviation pc s := (CrawlerStats.pages_crawled (PoliteCrawler.stats (self s))).
Abbreviation queue s := (PoliteCrawler.url_queue (self s)).

(** X1. Rate limiting. In every run of a fresh crawler, in progress or
    ended, each page but the first is handed to [process_page]
    immediately after a sleep of [delay] seconds: the event just
    before each "Processing page" line, the first one apart, is that
    sleep. *)
Theorem crawl_sleeps_between_pages (start : string) (limit : Z) (d : Q) (x : X)
    (c : PoliteCrawler.t X) (files : gset string) (rounds : option nat) :
  PoliteCrawler.init W start limit d x = inr c →
  let run := PoliteCrawler.crawl_rounds W rounds (PoliteCrawler.setup_folders W)
               (PoliteCrawler.process_page W) (fresh files c) in
  Forall (λ prev, prev = Some (EvSleep d))
    (tail (page_predecessors None (trace (env run.2)))).
Proof.
  intros Hinit. cbv zeta.
  destruct (init_settings W _ _ _ _ _ Hinit) as (_ & Hdelay & _ & Hpc & _).
  apply (crawl_rounds_inv W rounds (PoliteCrawler.setup_folders W)
           (PoliteCrawler.process_page W)
           (λ s, paced d (trace (env s)) ∧ 0 <= pc s
                 ∧ (processed (trace (env s)) = [] ∨ 0 < pc s)
                 ∧ PoliteCrawler.delay (self s) = d)
           (λ s, paced d (trace (env s)))).
  - apply follows_setup_folders.
  - intros s1 Hg. apply grows_fresh in Hg as [_ Hq].
    apply (paced_quiet d [] _ (processed_none _ _ quiet_no_page Hq)). constructor.
  - intros s1 Hg. apply grows_fresh in Hg as [Hv Hq].
    unfold config_view in Hv. injection Hv as _ _ Hd _ _ _ _ Hp.
    pose proof (processed_none _ _ quiet_no_page Hq) as Hnone.
    cbn [seeded env self PoliteCrawler.with_visited_urls PoliteCrawler.with_url_queue
         PoliteCrawler.stats PoliteCrawler.delay].
    split; [apply (paced_quiet d [] _ Hnone); constructor |].
    split; [rewrite Hp, Hpc; lia |]. split; [left; exact Hnone | congruence].
  - intros s1 (Hpaced & Hpos & Hfirst & Hd) Hk.
    destruct (keep_crawling_cons _ Hk) as (url & rest & Hq).
    destruct (polite_round W url rest s1 Hq)
      as (page & report & Htr & Hpage & Hres & Hset & _).
    destruct (page_facts _ _ _ Hpage) as (Hnone & _).
    destruct (page_pause_facts (PoliteCrawler.robots_parser (self s1)) (pc s1)
                (PoliteCrawler.delay (self s1))) as (Hpause & _).
    assert (Hnew : paced d (trace (env s1)
                            ++ page_pause (pc s1) (PoliteCrawler.delay (self s1))
                            ++ EvLog INFO (ProcessingPage url) :: page)).
    { replace (trace (env s1) ++ page_pause (pc s1) (PoliteCrawler.delay (self s1))
               ++ EvLog INFO (ProcessingPage url) :: page)
        with (((trace (env s1) ++ page_pause (pc s1) (PoliteCrawler.delay (self s1)))
               ++ [EvLog INFO (ProcessingPage url)]) ++ page)
        by (rewrite <- !app_assoc; reflexivity).
      apply paced_quiet; [exact Hnone |]. apply paced_page.
      - unfold page_pause. destruct (0 <? pc s1) eqn:Hz.
        + right. rewrite Hd.
          change [EvLog DEBUG (SleepingFor d); EvSleep d]
            with ([EvLog DEBUG (SleepingFor d)] ++ [EvSleep d]).
          rewrite app_assoc. apply last_event_snoc.
        + left. rewrite app_nil_r. apply Z.ltb_ge in Hz.
          destruct Hfirst as [Hfirst | Hfirst]; [exact Hfirst | lia].
      - apply paced_quiet; assumption. }
    unfold settings in Hset. injection Hset as _ _ Hd' _ _ _ _.
    destruct (PoliteCrawler.crawl_step (PoliteCrawler.process_page W) s1)
      as [[[] | e |] s2]; cbn [fst snd] in *.
    + destruct Hres as [[p ->] Hpc2]. rewrite Htr.
      split.
      { replace (trace (env s1) ++ page_pause (pc s1) (PoliteCrawler.delay (self s1))
                 ++ EvLog INFO (ProcessingPage url) :: page ++ [EvProgress p])
          with ((trace (env s1) ++ page_pause (pc s1) (PoliteCrawler.delay (self s1))
                 ++ EvLog INFO (ProcessingPage url) :: page) ++ [EvProgress p])
          by (rewrite <- !app_assoc; reflexivity).
        apply paced_quiet; [reflexivity | exact Hnew]. }
      split; [lia |]. split; [right; lia | congruence].
    + destruct Hres as [-> _]. rewrite Htr, app_nil_r. exact Hnew.
    + destruct Hres.
  - intros s1 s2 (Hpaced & _) (_ & _ & evs & -> & Hq).
    apply paced_quiet; [apply (processed_none _ _ quiet_no_page Hq) | exact Hpaced].
Qed.

(** What a round adds to the record, with what [polite_round] says of
    the object. *)
Lemma polite_round_facts (url : string) (rest : list string) s :
  queue s = url :: rest →
  let round := PoliteCrawler.crawl_step (PoliteCrawler.process_page W) s in
  ∃ evs,
    trace (env round.2) = trace (env s) ++ evs
    ∧ processed evs = [url]
    ∧ forallb has_timeout evs = true
    ∧ (∀ u, (page_requests u evs <= 3 * times u (processed evs))%nat)
    ∧ forallb (compliant (PoliteCrawler.robots_parser (self s))) evs = true
    ∧ settings (self round.2) = settings (self s)
    ∧ (∀ u, u ∈ queue round.2 →
            u ∈ rest ∨ (Py.has_char "#" u = false
                        ∧ in_scope W (PoliteCrawler.domain (self s)) u)).
Proof.
  intros Hq. cbv zeta.
  destruct (polite_round W url rest s Hq)
    as (page & report & Htr & Hpage & Hres & Hset & _ & _ & _ & Hqueue).
  assert (Hreport : report = [] ∨ (∃ pr, report = [EvProgress pr])).
  { destruct (PoliteCrawler.crawl_step _ s).1; [right | left | destruct Hres]; apply Hres. }
  destruct (round_facts (PoliteCrawler.robots_parser (self s)) (pc s)
              (PoliteCrawler.delay (self s)) url page report Hpage Hreport)
    as (H1 & H2 & H3 & H4).
  eexists. split; [exact Htr |]. auto 10.
Qed.

(** X2. The discipline of the requests. In every run of a fresh crawler,
    in progress or ended, every request carries a timeout of 10
    seconds, no page is requested more than three times, and a URL
    that was not handed to [process_page] is not requested as a page
    at all. *)
Theorem crawl_request_discipline (start : string) (limit : Z) (d : Q) (x : X)
    (c : PoliteCrawler.t X) (files : gset string) (rounds : option nat) :
  PoliteCrawler.init W start limit d x = inr c →
  let run := PoliteCrawler.crawl_rounds W rounds (PoliteCrawler.setup_folders W)
               (PoliteCrawler.process_page W) (fresh files c) in
  (∀ url stream timeout, EvGet url stream timeout ∈ trace (env run.2) → timeout = 10)
  ∧ (∀ u, (page_requests u (trace (env run.2)) <= 3)%nat)
  ∧ (∀ u, u ∉ processed (trace (env run.2)) → page_requests u (trace (env run.2)) = O).
Proof.
  intros Hinit. cbv zeta.
  destruct (polite_dedup W start limit d x c files rounds Hinit) as [Hnd _].
  cbv zeta in Hnd.
  assert (Hrun :
    forallb has_timeout
      (trace (env (PoliteCrawler.crawl_rounds W rounds (PoliteCrawler.setup_folders W)
                     (PoliteCrawler.process_page W) (fresh files c)).2)) = true
    ∧ (∀ u, (page_requests u
               (trace (env (PoliteCrawler.crawl_rounds W rounds
                              (PoliteCrawler.setup_folders W)
                              (PoliteCrawler.process_page W) (fresh files c)).2))
             <= 3 * times u
                      (processed
                         (trace (env (PoliteCrawler.crawl_rounds W rounds
                                        (PoliteCrawler.setup_folders W)
                                        (PoliteCrawler.process_page W)
                                        (fresh files c)).2))))%nat)).
  { apply (crawl_rounds_inv W rounds (PoliteCrawler.setup_folders W)
             (PoliteCrawler.process_page W)
             (λ s, forallb has_timeout (trace (env s)) = true
                   ∧ (∀ u, (page_requests u (trace (env s))
                            <= 3 * times u (processed (trace (env s))))%nat))
             (λ s, forallb has_timeout (trace (env s)) = true
                   ∧ (∀ u, (page_requests u (trace (env s))
                            <= 3 * times u (processed (trace (env s))))%nat))).
    - apply follows_setup_folders.
    - intros s1 Hg. apply grows_fresh in Hg as [_ Hq]. apply discipline_quiet, Hq.
    - intros s1 Hg. apply grows_fresh in Hg as [_ Hq]. apply discipline_quiet, Hq.
    - intros s1 HI Hk. destruct (keep_crawling_cons _ Hk) as (url & rest & Hq).
      destruct (polite_round_facts url rest s1 Hq) as (evs & Htr & _ & H2 & H3 & _).
      assert (Hnew : forallb has_timeout (trace (env s1) ++ evs) = true
                     ∧ (∀ u, (page_requests u (trace (env s1) ++ evs)
                              <= 3 * times u (processed (trace (env s1) ++ evs)))%nat))
        by (apply discipline_app; assumption).
      rewrite <- Htr in Hnew.
      destruct (PoliteCrawler.crawl_step (PoliteCrawler.process_page W) s1)
        as [[[] | e |] s2]; exact Hnew.
    - intros s1 s2 HI (_ & _ & evs & -> & Hq).
      apply discipline_app; [exact HI | |]; apply discipline_quiet, Hq. }
  destruct Hrun as [Ht Hr]. split; [| split].
  - intros url stream timeout Hin. rewrite forallb_forall in Ht.
    specialize (Ht (EvGet url stream timeout)). cbn in Ht.
    apply Z.eqb_eq, Ht. apply list_elem_of_In. exact Hin.
  - intros u. specialize (Hr u). pose proof (times_NoDup u _ Hnd). lia.
  - intros u Hu. specialize (Hr u). rewrite (times_not_in u _ Hu) in Hr. lia.
Qed.

(** X3. robots.txt and the pages. In every run of a fresh crawler, in
    progress or ended, every request for a page (the requests made
    with [stream=False]) is for a URL that [can_fetch] allows, by the
    parser as [check_robots_txt] left it. *)
Theorem crawl_obeys_robots (start : string) (limit : Z) (d : Q) (x : X)
    (c : PoliteCrawler.t X) (files : gset string) (rounds : option nat) :
  PoliteCrawler.init W start limit d x = inr c →
  let run := PoliteCrawler.crawl_rounds W rounds (PoliteCrawler.setup_folders W)
               (PoliteCrawler.process_page W) (fresh files c) in
  ∀ url timeout,
    EvGet url false timeout ∈ trace (env run.2) →
    PoliteCrawler.can_fetch url run.2 = (Ok true, run.2).
Proof.
  intros Hinit. cbv zeta.
  assert (Hrun :
    (λ s, forallb (compliant (PoliteCrawler.robots_parser (self s))) (trace (env s)) = true)
      (PoliteCrawler.crawl_rounds W rounds (PoliteCrawler.setup_folders W)
         (PoliteCrawler.process_page W) (fresh files c)).2).
  { apply (crawl_rounds_inv W rounds (PoliteCrawler.setup_folders W)
             (PoliteCrawler.process_page W)
             (λ s, forallb (compliant (PoliteCrawler.robots_parser (self s)))
                     (trace (env s)) = true)).
    - apply follows_setup_folders.
    - intros s1 Hg. apply grows_fresh in Hg as [_ Hq].
      apply (forallb_weaken _ _ _ (quiet_compliant _) Hq).
    - intros s1 Hg. apply grows_fresh in Hg as [_ Hq].
      apply (forallb_weaken _ _ _ (quiet_compliant _) Hq).
    - intros s1 HI Hk. destruct (keep_crawling_cons _ Hk) as (url & rest & Hq).
      destruct (polite_round_facts url rest s1 Hq)
        as (evs & Htr & _ & _ & _ & H4 & Hset & _).
      unfold settings in Hset. injection Hset as _ _ _ _ _ _ Hrob.
      assert (Hnew : forallb (compliant (PoliteCrawler.robots_parser (self s1)))
                       (trace (env s1) ++ evs) = true)
        by (rewrite forallb_app, HI, H4; reflexivity).
      rewrite <- Htr, <- Hrob in Hnew.
      destruct (PoliteCrawler.crawl_step (PoliteCrawler.process_page W) s1)
        as [[[] | e |] s2]; exact Hnew.
    - intros s1 s2 HI (Hv & _ & evs & -> & Hq).
      pose proof (f_equal snd Hv) as Hrob. cbn [static_view snd] in Hrob. rewrite Hrob.
      rewrite forallb_app, HI, (forallb_weaken _ _ _ (quiet_compliant _) Hq). reflexivity. }
  cbv beta in Hrun. intros url timeout Hin.
  rewrite can_fetch_run. rewrite forallb_forall in Hrun.
  specialize (Hrun (EvGet url false timeout)). cbn [compliant] in Hrun. unfold allowed in Hrun.
  rewrite Hrun; [reflexivity |]. apply list_elem_of_In. exact Hin.
Qed.

(** What is processed or queued: the seed, and links of the domain
    without a fragment. *)
Lemma polite_scope (start : string) (limit : Z) (d : Q) (x : X)
    (c : PoliteCrawler.t X) (files : gset string) (rounds : option nat) :
  PoliteCrawler.init W start limit d x = inr c →
  let run := PoliteCrawler.crawl_rounds W rounds (PoliteCrawler.setup_folders W)
               (PoliteCrawler.process_page W) (fresh files c) in
  ∀ u, u ∈ processed (trace (env run.2)) ++ queue run.2 →
       u = start
       ∨ (Py.has_char "#" u = false ∧ in_scope W (PoliteCrawler.domain c) u).
Proof.
  intros Hinit. cbv zeta.
  destruct (init_settings W _ _ _ _ _ Hinit) as (Hstart & _ & Hqueue & _).
  apply (crawl_rounds_inv W rounds (PoliteCrawler.setup_folders W)
           (PoliteCrawler.process_page W)
           (λ s, (∀ u, u ∈ processed (trace (env s)) ++ queue s →
                       u = start
                       ∨ (Py.has_char "#" u = false
                          ∧ in_scope W (PoliteCrawler.domain c) u))
                 ∧ PoliteCrawler.domain (self s) = PoliteCrawler.domain c)
           (λ s, ∀ u, u ∈ processed (trace (env s)) ++ queue s →
                      u = start
                      ∨ (Py.has_char "#" u = false
                         ∧ in_scope W (PoliteCrawler.domain c) u))).
  - apply follows_setup_folders.
  - intros s1 Hg. apply grows_fresh in Hg as [Hv Hq].
    unfold config_view in Hv. injection Hv as _ _ _ _ _ _ Hq1 _.
    rewrite (processed_none _ _ quiet_no_page Hq), Hq1, Hqueue.
    intros u Hu. apply elem_of_nil in Hu. destruct Hu.
  - intros s1 Hg. apply grows_fresh in Hg as [Hv Hq].
    unfold config_view in Hv. injection Hv as Hs _ _ Hd _ _ Hq1 _.
    cbn [seeded env self PoliteCrawler.with_visited_urls PoliteCrawler.with_url_queue
         PoliteCrawler.url_queue PoliteCrawler.domain].
    split; [| exact Hd].
    rewrite (processed_none _ _ quiet_no_page Hq), Hq1, Hqueue, Hs, Hstart.
    intros u Hu. apply list_elem_of_singleton in Hu. left. exact Hu.
  - intros s1 [HI Hd] Hk. destruct (keep_crawling_cons _ Hk) as (url & rest & Hq).
    destruct (polite_round_facts url rest s1 Hq)
      as (evs & Htr & H1 & _ & _ & _ & Hset & Hnew).
    unfold settings in Hset. injection Hset as _ _ _ Hd' _ _ _.
    assert (Hall : ∀ u, u ∈ processed (trace (env s1) ++ evs)
                            ++ queue (PoliteCrawler.crawl_step
                                        (PoliteCrawler.process_page W) s1).2 →
                        u = start
                        ∨ (Py.has_char "#" u = false
                           ∧ in_scope W (PoliteCrawler.domain c) u)).
    { intros u Hu. rewrite processed_app, H1 in Hu.
      apply elem_of_app in Hu as [Hu | Hu].
      - apply HI. rewrite Hq. apply elem_of_app in Hu as [Hu | Hu].
        + apply elem_of_app. left. exact Hu.
        + apply list_elem_of_singleton in Hu. subst u.
          apply elem_of_app. right. left.
      - destruct (Hnew u Hu) as [Hin | Hin].
        + apply HI. rewrite Hq. apply elem_of_app. right. right. exact Hin.
        + right. rewrite <- Hd. exact Hin. }
    rewrite <- Htr in Hall.
    destruct (PoliteCrawler.crawl_step (PoliteCrawler.process_page W) s1)
      as [[[] | e |] s2]; cbn [fst snd] in *; [split; [exact Hall | congruence] | |];
      exact Hall.
  - intros s1 s2 [HI Hd] (Hv & _ & evs & -> & Hq).
    unfold static_view, config_view in Hv. injection Hv as _ _ _ _ _ _ Hq1 _ _ _.
    rewrite processed_app, (processed_none _ _ quiet_no_page Hq), app_nil_r, Hq1.
    exact HI.
Qed.

(** X4. Staying on the domain. In every run of a fresh crawler, in
    progress or ended, every URL that was handed to [process_page] or
    is still queued is the seed, or a URL of the crawler's domain cut
    at its first [#]. *)
Theorem crawl_stays_on_domain (start : string) (limit : Z) (d : Q) (x : X)
    (c : PoliteCrawler.t X) (files : gset string) (rounds : option nat) :
  PoliteCrawler.init W start limit d x = inr c →
  let run := PoliteCrawler.crawl_rounds W rounds (PoliteCrawler.setup_folders W)
               (PoliteCrawler.process_page W) (fresh files c) in
  ∀ u, u ∈ processed (trace (env run.2)) ++ queue run.2 →
       u = start
       ∨ (Py.has_char "#" u = false ∧ in_scope W (PoliteCrawler.domain c) u).
Proof. exact (polite_scope start limit d x c files rounds). Qed.

End Runs.

(** ** Links, assets and pages, case by case *)

Section Pages.
Context {X : Type}.
Variable W : World.
Implicit Types s : State (PoliteCrawler.t X).

(** X5. The links of a page. When [find_internal_links] returns, each link
    it returns comes from an anchor of the page that does not hold
    ["mailto:"] and resolves to the crawler's domain; it is cut at its
    first [#], so that it holds none, and it was not marked visited.
    The counter [urls_found] has gone up by the number of links
    returned, and nothing else has changed. *)
Theorem find_internal_links_spec (url : string) (soup : Soup) s (links : list string) s1 :
  PoliteCrawler.find_internal_links W url soup s = (Ok links, s1) →
  s1 = after_links (Z.of_nat (length links)) s
  ∧ ∀ link, link ∈ links →
            (link ∉ PoliteCrawler.visited_urls (self s))
            ∧ Py.has_char "#" link = false
            ∧ ∃ href, href ∈ soup_anchors soup
                      ∧ link_of W url (PoliteCrawler.domain (self s)) href link.
Proof.
  unfold PoliteCrawler.find_internal_links. intros H.
  apply (links_fold W url) in H; [| intros; apply links_step_run].
  destruct H as (found & -> & -> & Hall). cbn [app]. split; [reflexivity |].
  intros link Hin. rewrite Forall_forall in Hall.
  destruct (Hall link Hin) as (Hv & href & Hh & Hl).
  split; [exact Hv |]. split; [apply (link_of_in_scope W url _ href link Hl) |]. eauto.
Qed.


Lemma written_all (p : string) (chunks : list string) :
  body_error W p chunks None = None → written W p chunks = chunks.
Proof.
  induction chunks as [| chunk chunks IH]; cbn; [reflexivity |].
  destruct (write_error W p chunk); [discriminate |].
  intros H. rewrite (IH H). reflexivity.
Qed.

Lemma attempt_ok (n : nat) (url : string) (r : Response) :
  attempt W n url = inr r → ok r = true.
Proof.
  unfold attempt, ok.
  destruct (http_get W n url) as [r0 | msg | e]; [| discriminate | discriminate].
  destruct (http_error_msg r0) eqn:E; [discriminate |].
  intros H. injection H as <-. rewrite E. reflexivity.
Qed.

Lemma follows_retry_counters (url : string) (stream : bool) (left : nat) (a : Z) :
  follows (grows any_event (@asset_counters X))
    (PoliteCrawler.retry_from W url stream left a).
Proof.
  revert a. induction left as [| left IH]; intros a; simpl.
  - follows_step.
  - unfold_effects. follows_view.
Qed.

(** X6. [download_asset] never raises: whatever goes wrong, with the URL,
    the request, the file or the stream, it returns.  When it returns
    [None], no asset has been counted: [assets_downloaded] and
    [total_bytes] are as they were. *)
Theorem download_asset_never_raises (url dir asset_type : string) s :
  ∃ r s',
    PoliteCrawler.download_asset W url dir asset_type s = (Ok r, s')
    ∧ (r = None → asset_counters (self s') = asset_counters (self s)).
Proof.
  unfold PoliteCrawler.download_asset.
  destruct (urlparse W url) as [e | parsed]; run_monad.
  { eexists _, _. split; [reflexivity | intros _; reflexivity]. }
  destruct (Py.basename (path parsed)) as [| a base]; cbn [Py.truthy negb]; run_monad.
  { eexists _, _. split; [reflexivity | intros _; reflexivity]. }
  destruct (bool_decide _).
  { eexists _, _. split; [reflexivity | discriminate]. }
  destruct (download_with_retry_shape W url true s)
    as (k & res & s1 & more & Hrun & Hres & _).
  destruct (follows_retry_counters url true 3 0 s) as [(Hc & _) _].
  change (PoliteCrawler.retry_from W url true 3 0 s)
    with (PoliteCrawler.download_with_retry W url true s) in Hc.
  rewrite Hrun in *. cbn [snd] in Hc.
  destruct res as [r | e |]; [| | contradiction]; run_monad;
    [| eexists _, _; split; [reflexivity | intros _; exact Hc]].
  destruct r as [r |]; [| eexists _, _; split; [reflexivity | intros _; exact Hc]].
  destruct (ok r); cbn [negb]; run_monad;
    [| eexists _, _; split; [reflexivity | intros _; exact Hc]].
  destruct (open_error W _) as [e |]; run_monad.
  { eexists _, _. split; [reflexivity | intros _; exact Hc]. }
  match goal with |- context [for_fold (chunks r) 0 ?body ?s3] =>
    rewrite (write_chunks_run W
               (Py.path_join dir (Py.split_first "?" (String a base)))
               body (chunks r) 0 s3)
      by (intros; destruct (write_error W _ _); reflexivity)
  end.
  unfold after_events. cbn [fst snd env trace fs self].
  destruct (body_error W _ (chunks r) None) as [e |]; run_monad.
  { eexists _, _. split; [reflexivity | intros _; exact Hc]. }
  destruct (stream_error r) as [e |]; run_monad.
  - eexists _, _. split; [reflexivity | intros _; exact Hc].
  - eexists _, _. split; [reflexivity | discriminate].
Qed.

(** A response that [download_with_retry] returns is that of the last
    of its attempts, the earlier ones having failed. *)
Lemma download_with_retry_success (url : string) (stream : bool) (r : Response) s s1 :
  PoliteCrawler.download_with_retry W url stream s = (Ok (Some r), s1) →
  ∃ k : nat,
    (1 <= k <= 3)%nat
    ∧ attempt W (requests_made (trace (env s)) + (k - 1)) url = inr r
    ∧ s1 = after_events (retry_schedule url stream k) s.
Proof.
  rewrite download_with_retry_run. cbv zeta.
  destruct (attempt W (requests_made (trace (env s))) url) as [e0 | r0] eqn:H0.
  - destruct (is_RequestException e0); [| discriminate].
    destruct (attempt W (S (requests_made (trace (env s)))) url) as [e1 | r1] eqn:H1.
    + destruct (is_RequestException e1); [| discriminate].
      destruct (attempt W (S (S (requests_made (trace (env s))))) url)
        as [e2 | r2] eqn:H2.
      * destruct (is_RequestException e2); discriminate.
      * intros H. injection H as <- <-. exists 3%nat. split; [lia |].
        cbn [Nat.sub]. rewrite Nat.add_comm. cbn [Nat.add]. split; [exact H2 | reflexivity].
    + intros H. injection H as <- <-. exists 2%nat. split; [lia |].
      cbn [Nat.sub]. rewrite Nat.add_1_r. split; [exact H1 | reflexivity].
  - intros H. injection H as <- <-. exists 1%nat. split; [lia |].
    cbn [Nat.sub]. rewrite Nat.add_0_r. split; [exact H0 | reflexivity].
Qed.

(** X7. A fresh download, its accounting. When [download_asset] returns
    the name of a file that was not in the folder, it has made between
    one and three requests for the URL, with [stream=True], a timeout
    of 10 and a second of sleep in between, of which the last
    succeeded; it has opened the file and written every chunk of that
    response, in order, and logged the download.  The file is there,
    one asset more is counted, [total_bytes] has grown by the length
    of the body, and no error is recorded. *)
Theorem download_asset_counts_a_fresh_file (url dir asset_type f : string) s s' :
  PoliteCrawler.download_asset W url dir asset_type s = (Ok (Some f), s') →
  let filepath := Py.path_join dir f in
  filepath ∉ fs (env s) →
  ∃ (k : nat) (r : Response),
    (1 <= k <= 3)%nat
    ∧ attempt W (requests_made (trace (env s)) + (k - 1)) url = inr r
    ∧ trace (env s')
      = trace (env s) ++ retry_schedule url true k ++ [EvOpen filepath]
        ++ (EvWrite filepath <$> chunks r)
        ++ [EvLog INFO (DownloadedAsset asset_type f (total_len (chunks r)))]
    ∧ fs (env s') = {[filepath]} ∪ fs (env s)
    ∧ CrawlerStats.assets_downloaded (PoliteCrawler.stats (self s'))
      = CrawlerStats.assets_downloaded (PoliteCrawler.stats (self s)) + 1
    ∧ CrawlerStats.total_bytes (PoliteCrawler.stats (self s'))
      = CrawlerStats.total_bytes (PoliteCrawler.stats (self s)) + total_len (chunks r)
    ∧ CrawlerStats.errors (PoliteCrawler.stats (self s'))
      = CrawlerStats.errors (PoliteCrawler.stats (self s)).
Proof.
  intros Hrun filepath Hfresh. subst filepath. revert Hrun.
  unfold PoliteCrawler.download_asset.
  destruct (urlparse W url) as [e | parsed] eqn:Hparse; run_monad; [discriminate |].
  destruct (Py.basename (path parsed)) as [| a base] eqn:E;
    cbn [Py.truthy negb]; run_monad; [discriminate |].
  destruct (bool_decide (_ ∈ fs (env s))) eqn:Hin.
  { intros Hrun. injection Hrun as <- <-. apply bool_decide_eq_true in Hin.
    contradiction. }
  destruct (PoliteCrawler.download_with_retry W url true s) as [[[r |] | e |] s2] eqn:Hdl;
    run_monad; try discriminate.
  destruct (download_with_retry_success url true r s s2 Hdl) as (k & Hk & Hget & ->).
  destruct (ok r); cbn [negb]; run_monad; [| discriminate].
  cbn [after_events env fs trace self].
  destruct (open_error W _) as [e |]; run_monad; [discriminate |].
  match goal with |- context [for_fold (chunks r) 0 ?body ?s3] =>
    rewrite (write_chunks_run W
               (Py.path_join dir (Py.split_first "?" (String a base)))
               body (chunks r) 0 s3)
      by (intros; destruct (write_error W _ _); reflexivity)
  end.
  destruct (body_error W _ (chunks r) None) as [e |] eqn:Hw; run_monad; [discriminate |].
  rewrite (written_all _ _ Hw).
  unfold after_events. cbn [fst snd env trace fs self].
  destruct (stream_error r) as [e |]; run_monad; [discriminate |].
  intros Hrun. injection Hrun as <- <-.
  exists k, r. split; [exact Hk |]. split; [exact Hget |]. cbn [env self trace fs].
  split; [rewrite <- !app_assoc; reflexivity |]. repeat split.
Qed.


(** X9. A page that cannot be parsed. When robots.txt allows the page and
    the first attempt succeeds, but the parser raises on the body,
    [process_page] returns the empty list after that one request: one
    error is recorded for the page, no file is written and nothing is
    added to the results. *)
Theorem process_page_survives_the_parser (url : string) (r : Response) (e : Exn) s :
  allowed (PoliteCrawler.robots_parser (self s)) url = true →
  attempt W (requests_made (trace (env s))) url = inr r →
  parse_html W (text r) = inl e →
  PoliteCrawler.process_page W url s
  = (Ok [],
     with_error url e
       (after_events
          [EvLog INFO (ProcessingPage url); EvGet url false 10;
           EvLog ERROR (ErrorProcessingPage url (exn_str e))] s)).
Proof.
  intros Hrobots Hget Hparse.
  pose proof (attempt_ok _ _ _ Hget) as Hok.
  unfold PoliteCrawler.process_page, logger.
  rewrite bind_emit. cbv beta.
  rewrite (bind_run _ _ _ _ _ (can_fetch_run url _)). cbv beta.
  cbn [after_events self]. unfold allowed in Hrobots. rewrite Hrobots. cbn [negb].
  run_monad. rewrite download_with_retry_run. cbv zeta. cbn [after_events env trace].
  rewrite requests_made_app. cbn [requests_made List.filter is_get length].
  rewrite Nat.add_0_r, Hget, Hok. cbn [negb]. rewrite Hparse. run_monad.
  unfold with_error, after_events. cbn. rewrite <- !app_assoc. reflexivity.
Qed.

(** X10. robots.txt, read or missing. When the server answers the request
    for robots.txt with a 4xx other than 401 and 403, [can_fetch]
    allows every URL from then on; when the file was read, [can_fetch]
    gives the answer of its rules for the agent ["PoliteCrawler"], and
    allows the URL when looking it up raises. *)
Theorem robots_rules_are_followed (robots_url : string) (parsed : ParseResult) s :
  urljoin W (PoliteCrawler.base_url (self s)) "/robots.txt" = inr robots_url →
  urlparse W robots_url = inr parsed →
  PoliteCrawler.robots_parser (self s) = RobotFileParser.init →
  robots_unavailable (robots_fetch W) = false →
  clock W (length (trace (env s)) + 1) ≠ 0 →
  ∃ s1, PoliteCrawler.check_robots_txt W s = (Ok tt, s1)
        ∧ ∀ url, PoliteCrawler.can_fetch url s1
                 = (Ok (robots_answer (robots_fetch W) url), s1).
Proof.
  intros Hjoin Hparse Hinit Hread Hclock.
  unfold PoliteCrawler.check_robots_txt. run_monad.
  rewrite Hjoin. run_monad. rewrite Hparse. run_monad.
  cbn [PoliteCrawler.with_robots_parser PoliteCrawler.robots_parser].
  rewrite Hinit, length_app. cbn [length]. unfold robots_unavailable in Hread.
  destruct (robots_fetch W) as [code | e | rules]; [| discriminate |].
  - cbn [RobotFileParser.read RobotFileParser.set_url RobotFileParser.init
         RobotFileParser.url RobotFileParser.disallow_all RobotFileParser.allow_all
         RobotFileParser.last_checked RobotFileParser.entries].
    apply orb_false_elim in Hread as [Hauth H4xx]. apply negb_false_iff in H4xx.
    rewrite Hauth, H4xx. run_monad.
    eexists. split; [reflexivity |]. intros url. rewrite can_fetch_run. reflexivity.
  - cbn [RobotFileParser.read RobotFileParser.set_url RobotFileParser.init
         RobotFileParser.url RobotFileParser.disallow_all RobotFileParser.allow_all
         RobotFileParser.last_checked RobotFileParser.entries].
    run_monad. eexists. split; [reflexivity |]. intros url. rewrite can_fetch_run.
    cbn [self PoliteCrawler.with_robots_parser PoliteCrawler.robots_parser].
    unfold RobotFileParser.can_fetch.
    cbn [RobotFileParser.disallow_all RobotFileParser.allow_all
         RobotFileParser.last_checked RobotFileParser.entries].
    apply Z.eqb_neq in Hclock. rewrite Hclock. reflexivity.
Qed.

(** X11. The folders. When [setup_folders] returns, the table of the
    object holds the five folders of the domain, and every folder of
    the table exists. *)
Theorem setup_folders_creates_the_table s s1 :
  PoliteCrawler.setup_folders W s = (Ok tt, s1) →
  PoliteCrawler.folders (self s1) = list_to_map (folder_table (PoliteCrawler.domain (self s)))
  ∧ ∀ key p, PoliteCrawler.folders (self s1) !! key = Some p → p ∈ fs (env s1).
Proof.
  unfold PoliteCrawler.setup_folders. run_monad. cbn [for_each snd]. run_monad.
  repeat (destruct (makedirs_error W _); run_monad; [discriminate |]).
  intros H. injection H as <-. split; [reflexivity |].
  intros key p Hkey.
  cbn [self env fs PoliteCrawler.with_folders PoliteCrawler.folders] in *.
  repeat (apply lookup_insert_Some in Hkey as [[_ <-] | [_ Hkey]]; [set_solver |]).
  rewrite lookup_empty in Hkey. discriminate.
Qed.

End Pages.

(** ** The results of a run *)

Section Results.
Context {X : Type}.
Variable W : World.
Implicit Types s : State (PoliteCrawler.t X).

Lemma finish_run s s' :
  finish W s = (Ok tt, s') →
  ∃ m root,
    PoliteCrawler.metadata (PoliteCrawler.results (self s')) = Some m
    ∧ PoliteCrawler.md_stats m = CrawlerStats.to_dict (PoliteCrawler.stats (self s'))
    ∧ PoliteCrawler.md_start_url m = PoliteCrawler.start_url (self s)
    ∧ PoliteCrawler.md_domain m = PoliteCrawler.domain (self s)
    ∧ CrawlerStats.end_time (PoliteCrawler.stats (self s'))
      = Some (clock W (length (trace (env s))))
    ∧ PoliteCrawler.folders (self s') !! "root" = Some root
    ∧ Py.path_join root "crawl_results.json" ∈ fs (env s')
    ∧ last (trace (env s')) = Some EvPrintSummary.
Proof.
  unfold finish, PoliteCrawler.save_results, PoliteCrawler.print_summary,
    PoliteCrawler.folder.
  run_monad. cbn [id PoliteCrawler.with_results PoliteCrawler.with_stats
                  PoliteCrawler.folders].
  destruct (PoliteCrawler.folders (self s) !! "root") as [root |] eqn:Hroot; run_monad;
    [| discriminate].
  destruct (open_error W _); run_monad; [discriminate |].
  intros H. injection H as <-. eexists _, root.
  cbn [self env fs trace PoliteCrawler.with_results PoliteCrawler.with_stats
       PoliteCrawler.results PoliteCrawler.stats PoliteCrawler.folders
       PoliteCrawler.set_metadata PoliteCrawler.metadata PoliteCrawler.md_stats
       PoliteCrawler.md_start_url PoliteCrawler.md_domain
       PoliteCrawler.start_url PoliteCrawler.domain
       CrawlerStats.with_end_time CrawlerStats.end_time].
  split; [reflexivity |]. split; [reflexivity |]. split; [reflexivity |].
  split; [reflexivity |]. split; [reflexivity |]. split; [exact Hroot |].
  split; [apply elem_of_union_l, elem_of_singleton; reflexivity |].
  apply last_snoc.
Qed.

(** X12. The results of a run. When [crawl] returns, its loop has ended
    (the queue is empty or the budget is used up), the end time is
    stamped, the metadata of the results name the seed and the domain
    and hold the summary of the statistics as they are at the end, the
    results file is in the root folder, and the summary was printed
    last. *)
Theorem crawl_saves_its_results (start : string) (limit : Z) (d : Q) (x : X)
    (c : PoliteCrawler.t X) (files : gset string) :
  PoliteCrawler.init W start limit d x = inr c →
  let run := PoliteCrawler.crawl W (fresh files c) in
  run.1 = Ok tt →
  PoliteCrawler.keep_crawling (self run.2) = false
  ∧ CrawlerStats.end_time (PoliteCrawler.stats (self run.2)) ≠ None
  ∧ last (trace (env run.2)) = Some EvPrintSummary
  ∧ ∃ m root,
      PoliteCrawler.metadata (PoliteCrawler.results (self run.2)) = Some m
      ∧ PoliteCrawler.md_start_url m = start
      ∧ PoliteCrawler.md_domain m = PoliteCrawler.domain c
      ∧ PoliteCrawler.md_stats m = CrawlerStats.to_dict (PoliteCrawler.stats (self run.2))
      ∧ PoliteCrawler.folders (self run.2) !! "root" = Some root
      ∧ Py.path_join root "crawl_results.json" ∈ fs (env run.2).
Proof.
  intros Hinit. cbv zeta. rewrite crawl_unfold.
  destruct (init_settings W _ _ _ _ _ Hinit) as (Hstart & _).
  destruct (crawl_rounds_inv W None (PoliteCrawler.setup_folders W)
              (PoliteCrawler.process_page W)
              (λ s, PoliteCrawler.start_url (self s) = start
                    ∧ PoliteCrawler.domain (self s) = PoliteCrawler.domain c)
              (λ _, True) (fresh files c)) as [_ Hdone]; auto.
  - apply follows_setup_folders.
  - intros s1 Hg. apply grows_fresh in Hg as [Hv _].
    unfold config_view in Hv. injection Hv as Hs _ _ Hd _ _ _ _.
    cbn [seeded self PoliteCrawler.with_visited_urls PoliteCrawler.with_url_queue
         PoliteCrawler.start_url PoliteCrawler.domain]. split; congruence.
  - intros s1 [Hs Hd] Hk. destruct (keep_crawling_cons _ Hk) as (url & rest & Hq).
    destruct (polite_round_facts W url rest s1 Hq) as (evs & _ & _ & _ & _ & _ & Hset & _).
    unfold settings in Hset. injection Hset as Hs' _ _ Hd' _ _ _.
    destruct (PoliteCrawler.crawl_step (PoliteCrawler.process_page W) s1)
      as [[[] | e |] s2]; cbn [fst snd] in *; [split; congruence | exact I | exact I].
  - intros Hok. destruct (Hdone Hok) as (s1 & [Hs Hd] & Hstop & Hrun).
    rewrite Hrun in *.
    destruct (follows_finish W s1) as [(Hv & _) _].
    destruct (finish W s1) as [r s'] eqn:Hfin. cbn [fst snd] in *. subst r.
    destruct (finish_run s1 s' Hfin) as (m & root & Hm & Hst & Hms & Hmd & Het & Hroot & Hin & Hlast).
    split.
    { unfold static_view, config_view in Hv. injection Hv as _ Hmax _ _ _ _ Hq Hpc _ _.
      unfold PoliteCrawler.keep_crawling in *. rewrite Hq, Hpc, Hmax. exact Hstop. }
    split; [rewrite Het; discriminate |]. split; [exact Hlast |].
    exists m, root. repeat split; congruence.
Qed.

End Results.

(** ** [IndustrialCrawler], round by round *)

Lemma bind_raise_run {S A B} (m : M S A) (k : A → M S B) (s s1 : S) (e : Exn) :
  m s = (Raise e, s1) → bind m k s = (Raise e, s1).
Proof. intros Hm. unfold bind. rewrite Hm. reflexivity. Qed.

Lemma bind_raise {S A B} (e : Exn) (k : A → M S B) (s : S) :
  bind (raise e) k s = (Raise e, s).
Proof. reflexivity. Qed.

Lemma bind_ret {S A B} (a : A) (k : A → M S B) (s : S) : bind (ret a) k s = k a s.
Proof. reflexivity. Qed.

Section IndustrialRounds.
Variable W : World.
Implicit Types s : State IndustrialCrawler.t.

Abbreviation ipages s := (IndustrialCrawler.stats_pages (self s)).
Abbreviation ierrors s := (IndustrialCrawler.stats_errors (self s)).
Abbreviation iqueue s := (IndustrialCrawler.url_queue (self s)).
Abbreviation ivisited s := (IndustrialCrawler.visited_urls (self s)).
Abbreviation idata s := (IndustrialCrawler.extracted_data (self s)).
Abbreviation idomain s := (IndustrialCrawler.domain (self s)).

(** The loop over the anchors of a page: links of the domain that are
    not marked visited are added to the queue, and nothing else
    changes. *)
Lemma industrial_links_fold (url : string)
    (body : string → M (State IndustrialCrawler.t) unit) (anchors : list string) s :
  (∀ href s0,
     body href s0
     = if IndustrialCrawler.skipped_href href then (Ok tt, s0)
       else match urljoin W url href with
            | inl e => (Raise e, s0)
            | inr full =>
                match urlparse W full with
                | inl e => (Raise e, s0)
                | inr parsed =>
                    if String.eqb (netloc parsed) (idomain s0)
                       && negb (bool_decide (full ∈ ivisited s0))
                    then (Ok tt,
                          {| env := env s0;
                             self := IndustrialCrawler.with_url_queue
                                       (fun q => q ++ [full]) (self s0) |})
                    else (Ok tt, s0)
                end
            end) →
  ∃ new,
    (for_each anchors body s).1 ≠ OutOfFuel
    ∧ (for_each anchors body s).2
      = {| env := env s;
           self := IndustrialCrawler.with_url_queue (fun q => q ++ new) (self s) |}
    ∧ Forall (λ u, same_domain W (idomain s) u ∧ u ∉ ivisited s) new.
Proof.
  intros Hbody. revert s. induction anchors as [| href anchors IH]; intros s.
  - exists []. cbn. split; [discriminate |]. split; [| constructor].
    destruct s as [e []]. unfold IndustrialCrawler.with_url_queue. cbn.
    rewrite app_nil_r. reflexivity.
  - assert (Hsame : ∃ new,
              (for_each anchors body s).1 ≠ OutOfFuel
              ∧ (for_each anchors body s).2
                = {| env := env s;
                     self := IndustrialCrawler.with_url_queue (fun q => q ++ new) (self s) |}
              ∧ Forall (λ u, same_domain W (idomain s) u ∧ u ∉ ivisited s) new)
      by apply IH.
    assert (Hstop : ∀ e,
              ∃ new,
                (@Raise unit e, s).1 ≠ OutOfFuel
                ∧ (@Raise unit e, s).2
                  = {| env := env s;
                       self := IndustrialCrawler.with_url_queue (fun q => q ++ new)
                                 (self s) |}
                ∧ Forall (λ u, same_domain W (idomain s) u ∧ u ∉ ivisited s) new).
    { intros e. exists []. cbn. split; [discriminate |]. split; [| constructor].
      destruct s as [en []]. unfold IndustrialCrawler.with_url_queue. cbn.
      rewrite app_nil_r. reflexivity. }
    cbn [for_each]. unfold bind. rewrite Hbody.
    destruct (IndustrialCrawler.skipped_href href); [exact Hsame |].
    destruct (urljoin W url href) as [e | full]; [apply Hstop |].
    destruct (urlparse W full) as [e | parsed] eqn:Hparse; [apply Hstop |].
    destruct (String.eqb (netloc parsed) (idomain s)) eqn:Hdom; cbn [andb];
      [| exact Hsame].
    destruct (bool_decide (full ∈ ivisited s)) eqn:Hvis; cbn [negb]; [exact Hsame |].
    destruct (IH {| env := env s;
                    self := IndustrialCrawler.with_url_queue (fun q => q ++ [full])
                              (self s) |}) as (new & Hend & Hst & Hall).
    exists (full :: new). split; [exact Hend |]. split.
    + rewrite Hst. unfold IndustrialCrawler.with_url_queue. cbn.
      rewrite <- app_assoc. reflexivity.
    + constructor; [| exact Hall].
      apply String.eqb_eq in Hdom. apply bool_decide_eq_false in Hvis.
      split; [exists parsed; auto | exact Hvis].
Qed.

(** The [try] block of a round, case by case: it requests its URL
    once; either it raises before the page is counted, and then
    nothing is queued, or the page is counted and recorded, and links
    of the domain may be queued, whether or not the block raises
    afterwards. *)
Lemma fetch_and_extract_cases (url : string) s :
  let run := IndustrialCrawler.fetch_and_extract W url s in
  run.1 ≠ OutOfFuel
  ∧ industrial_consts (self run.2) = industrial_consts (self s)
  ∧ ivisited run.2 = ivisited s
  ∧ ierrors run.2 = ierrors s
  ∧ fetched (trace (env run.2)) = fetched (trace (env s)) ++ [url]
  ∧ ∃ new,
      iqueue run.2 = iqueue s ++ new
      ∧ Forall (λ u, same_domain W (idomain s) u ∧ u ∉ ivisited s) new
      ∧ ((ipages run.2 = ipages s ∧ idata run.2 = idata s ∧ new = []
          ∧ run.1 ≠ Ok tt)
         ∨ (ipages run.2 = ipages s + 1 ∧ idata run.2 = idata s ++ [url])).
Proof.
  cbv zeta.
  pose (Φ := λ out : Result unit * State IndustrialCrawler.t,
          out.1 ≠ OutOfFuel
          ∧ industrial_consts (self out.2) = industrial_consts (self s)
          ∧ ivisited out.2 = ivisited s
          ∧ ierrors out.2 = ierrors s
          ∧ fetched (trace (env out.2)) = fetched (trace (env s)) ++ [url]
          ∧ ∃ new,
              iqueue out.2 = iqueue s ++ new
              ∧ Forall (λ u, same_domain W (idomain s) u ∧ u ∉ ivisited s) new
              ∧ ((ipages out.2 = ipages s ∧ idata out.2 = idata s ∧ new = []
                  ∧ out.1 ≠ Ok tt)
                 ∨ (ipages out.2 = ipages s + 1 ∧ idata out.2 = idata s ++ [url]))).
  change (Φ (IndustrialCrawler.fetch_and_extract W url s)).
  assert (Hearly : ∀ (e : Exn) (evs : list Event),
            fetched evs = [url] →
            Φ (Raise e, after_events evs s)).
  { intros e evs Hevs. unfold Φ. cbn [fst snd after_events env self trace].
    split; [discriminate |]. repeat (split; [reflexivity |]).
    split; [rewrite fetched_app, Hevs; reflexivity |].
    exists []. rewrite app_nil_r. split; [reflexivity |]. split; [constructor |].
    left. repeat split. discriminate. }
  assert (Hlate : ∀ (r : Result unit) (evs : list Event) (new : list string),
            r ≠ OutOfFuel →
            fetched evs = [url] →
            Forall (λ u, same_domain W (idomain s) u ∧ u ∉ ivisited s) new →
            Φ (r, {| env := {| trace := trace (env s) ++ evs; fs := fs (env s) |};
                     self := IndustrialCrawler.with_url_queue (fun q => q ++ new)
                               (IndustrialCrawler.with_stats_pages (fun n => n + 1)
                                  (IndustrialCrawler.with_extracted_data
                                     (fun d => d ++ [url]) (self s))) |})).
  { intros r evs new Hr Hevs Hnew. unfold Φ. cbn [fst snd env self trace].
    split; [exact Hr |]. repeat (split; [reflexivity |]).
    split; [rewrite fetched_app, Hevs; reflexivity |].
    exists new. split; [reflexivity |]. split; [exact Hnew |]. right. split; reflexivity. }
  unfold IndustrialCrawler.fetch_and_extract.
  pose proof (session_get_run W url false 10 s) as Hget.
  destruct (http_get W (requests_made (trace (env s))) url) as [r | msg | e];
    [| rewrite (bind_raise_run _ _ _ _ _ Hget); apply Hearly; reflexivity
     | rewrite (bind_raise_run _ _ _ _ _ Hget); apply Hearly; reflexivity].
  rewrite (bind_run _ _ _ _ _ Hget). cbv beta. unfold raise_for_status.
  destruct (http_error_msg r) as [msg |];
    [rewrite bind_raise; apply Hearly; reflexivity |].
  rewrite bind_ret.
  destruct (extract_all W (text r) url) as [e |];
    [rewrite bind_raise; apply Hearly; reflexivity |].
  rewrite bind_ret.
  rewrite !bind_modify_self. cbv beta. rewrite bind_gets_self. cbv beta.
  cbn [id self env after_events IndustrialCrawler.with_stats_pages
       IndustrialCrawler.with_extracted_data IndustrialCrawler.has_callback].
  set (c1 := IndustrialCrawler.with_stats_pages (fun n => n + 1)
               (IndustrialCrawler.with_extracted_data (fun d => d ++ [url]) (self s))).
  assert (Hq0 : ∀ tr : list Event,
            {| env := {| trace := tr; fs := fs (env s) |}; self := c1 |}
            = {| env := {| trace := tr; fs := fs (env s) |};
                 self := IndustrialCrawler.with_url_queue (fun q => q ++ []) c1 |}).
  { intros tr. f_equal. subst c1. destruct s as [en []].
    unfold IndustrialCrawler.with_url_queue. cbn. rewrite app_nil_r. reflexivity. }
  assert (Htail : ∀ evs : list Event,
            fetched evs = [url] →
            Φ ((soup <- call (parse_html W (text r)) ;;
                for_each (soup_anchors soup)
                  (fun href =>
                     if IndustrialCrawler.skipped_href href then ret tt
                     else
                       full_url <- call (urljoin W url href) ;;
                       parsed <- call (urlparse W full_url) ;;
                       c <- gets_self id ;;
                       when (String.eqb (netloc parsed) (IndustrialCrawler.domain c)
                             && negb (bool_decide
                                        (full_url ∈ IndustrialCrawler.visited_urls c)))
                         (modify_self (IndustrialCrawler.with_url_queue
                                         (fun q => q ++ [full_url])))) ;;
                c <- gets_self id ;;
                logger INFO (Crawled (IndustrialCrawler.stats_pages c)
                               (IndustrialCrawler.max_pages c) url))
                 {| env := {| trace := trace (env s) ++ evs; fs := fs (env s) |};
                    self := c1 |})).
  { intros evs Hevs.
    destruct (parse_html W (text r)) as [e | soup].
    { cbn [call]. rewrite bind_raise, Hq0.
      apply Hlate; [discriminate | exact Hevs | constructor]. }
    cbn [call]. rewrite bind_ret.
    match goal with |- context [bind (for_each (soup_anchors soup) ?body) _ ?s1] =>
      destruct (industrial_links_fold url body (soup_anchors soup) s1)
        as (new & Hend & Hst & Hnew)
    end.
    { intros href s0. destruct (IndustrialCrawler.skipped_href href); [reflexivity |].
      run_monad. destruct (urljoin W url href) as [e | full]; [reflexivity |].
      destruct (urlparse W full) as [e | parsed]; [reflexivity |].
      cbn [id]. destruct (_ && _); reflexivity. }
    unfold bind at 1.
    destruct (for_each (soup_anchors soup) _ _) as [[[] | e |] s2];
      cbn [fst snd env self] in Hend, Hst; subst s2; [| | contradiction].
    - rewrite bind_gets_self. cbv beta. unfold logger, emit, modify.
      cbn [env self trace fs]. rewrite <- app_assoc.
      apply Hlate; [discriminate | rewrite fetched_app, Hevs; reflexivity | exact Hnew].
    - apply Hlate; [discriminate | exact Hevs | exact Hnew]. }
  destruct (IndustrialCrawler.has_callback (self s)).
  - cbn [when]. rewrite bind_emit. cbv beta. unfold after_events.
    cbn [env self trace fs]. rewrite <- app_assoc. apply Htail. reflexivity.
  - cbn [when]. rewrite bind_ret.
    apply Htail. reflexivity.
Qed.

(** A round of the loop, case by case.  It always returns.  A URL that
    is marked visited is dropped; any other URL is marked, requested
    once, and then either counted as a page and recorded, or counted
    as an error; what is added to the queue are links of the domain. *)
Lemma industrial_round (url : string) (rest : list string) s :
  iqueue s = url :: rest →
  let round := IndustrialCrawler.crawl_step W s in
  round.1 = Ok tt
  ∧ industrial_consts (self round.2) = industrial_consts (self s)
  ∧ if bool_decide (url ∈ ivisited s)
    then ivisited round.2 = ivisited s
         ∧ fetched (trace (env round.2)) = fetched (trace (env s))
         ∧ iqueue round.2 = rest
         ∧ ipages round.2 = ipages s ∧ idata round.2 = idata s
         ∧ ierrors round.2 = ierrors s
    else ivisited round.2 = {[url]} ∪ ivisited s
         ∧ fetched (trace (env round.2)) = fetched (trace (env s)) ++ [url]
         ∧ ∃ new,
             iqueue round.2 = rest ++ new
             ∧ Forall (same_domain W (idomain s)) new
             ∧ ((ipages round.2 = ipages s ∧ idata round.2 = idata s ∧ new = []
                 ∧ ierrors round.2 = ierrors s + 1)
                ∨ (ipages round.2 = ipages s + 1 ∧ idata round.2 = idata s ++ [url])).
Proof.
  intros Hq. cbv zeta.
  pose (Φ := λ out : Result unit * State IndustrialCrawler.t,
          out.1 = Ok tt
          ∧ industrial_consts (self out.2) = industrial_consts (self s)
          ∧ if bool_decide (url ∈ ivisited s)
            then ivisited out.2 = ivisited s
                 ∧ fetched (trace (env out.2)) = fetched (trace (env s))
                 ∧ iqueue out.2 = rest
                 ∧ ipages out.2 = ipages s ∧ idata out.2 = idata s
                 ∧ ierrors out.2 = ierrors s
            else ivisited out.2 = {[url]} ∪ ivisited s
                 ∧ fetched (trace (env out.2)) = fetched (trace (env s)) ++ [url]
                 ∧ ∃ new,
                     iqueue out.2 = rest ++ new
                     ∧ Forall (same_domain W (idomain s)) new
                     ∧ ((ipages out.2 = ipages s ∧ idata out.2 = idata s ∧ new = []
                         ∧ ierrors out.2 = ierrors s + 1)
                        ∨ (ipages out.2 = ipages s + 1
                           ∧ idata out.2 = idata s ++ [url]))).
  change (Φ (IndustrialCrawler.crawl_step W s)).
  assert (Hgo : ∀ evs : list Event,
            fetched evs = [] →
            Φ ((modify_self (IndustrialCrawler.with_url_queue (fun _ => rest)) ;;
                if bool_decide (url ∈ ivisited s) then ret tt
                else
                  modify_self (IndustrialCrawler.with_visited_urls (fun v => {[url]} ∪ v)) ;;
                  try_except (IndustrialCrawler.fetch_and_extract W url) is_Exception
                    (fun e =>
                       modify_self (IndustrialCrawler.with_stats_errors (fun n => n + 1)) ;;
                       logger ERROR (ErrorCrawling url (exn_str e))))
                 (after_events evs s))).
  { intros evs Hevs. rewrite bind_modify_self. cbv beta. unfold Φ.
    destruct (bool_decide (url ∈ ivisited s)).
    { cbn. rewrite fetched_app, Hevs, app_nil_r. repeat split. }
    rewrite bind_modify_self. cbv beta. unfold try_except.
    match goal with |- context [IndustrialCrawler.fetch_and_extract W url ?s0] =>
      destruct (fetch_and_extract_cases url s0)
        as (Hend & Hc & Hvis & Herr & Hf & new & Hqueue & Hnew & Hcount);
      destruct (IndustrialCrawler.fetch_and_extract W url s0) as [[[] | e |] s1]
    end; cbn [fst snd] in *; [| | contradiction].
    - split; [reflexivity |]. split; [exact Hc |].
      split; [exact Hvis |].
      split; [rewrite Hf; cbn; rewrite fetched_app, Hevs, app_nil_r; reflexivity |].
      exists new. split; [exact Hqueue |].
      split; [eapply Forall_impl; [exact Hnew |]; intros u [Hu _]; exact Hu |].
      destruct Hcount as [(_ & _ & _ & Hno) | Hcount]; [contradiction | right; exact Hcount].
    - cbn [is_Exception]. run_monad.
      split; [reflexivity |]. split; [exact Hc |].
      split; [exact Hvis |].
      split; [rewrite fetched_app, Hf; cbn; rewrite fetched_app, Hevs, !app_nil_r;
              reflexivity |].
      exists new. split; [exact Hqueue |].
      split; [eapply Forall_impl; [exact Hnew |]; intros u [Hu _]; exact Hu |].
      destruct Hcount as [(Hp & Hd & Hn & _) | Hcount]; [left | right; exact Hcount].
      cbn. rewrite Herr. auto. }
  unfold IndustrialCrawler.crawl_step. rewrite bind_gets_self. cbv beta. cbn [id].
  rewrite Hq.
  destruct (0 <? ipages s); cbn [when].
  - unfold time_sleep. rewrite bind_emit. apply Hgo. reflexivity.
  - rewrite bind_ret.
    replace s with (after_events [] s) at 1
      by (unfold after_events; rewrite app_nil_r; destruct s as [[] ?]; reflexivity).
    apply Hgo. reflexivity.
Qed.

Lemma industrial_keep_cons (c : IndustrialCrawler.t) :
  IndustrialCrawler.keep_crawling c = true →
  ∃ url rest, IndustrialCrawler.url_queue c = url :: rest
              ∧ IndustrialCrawler.stats_pages c < IndustrialCrawler.max_pages c.
Proof.
  unfold IndustrialCrawler.keep_crawling.
  destruct (IndustrialCrawler.url_queue c); [discriminate |].
  intros H. apply Z.ltb_lt in H. eauto.
Qed.

(** The loop, for a property that every round keeps: it holds wherever
    the loop stops, and the loop never raises. *)
Lemma industrial_loop_keeps (I : State IndustrialCrawler.t → Prop) (fuel : nat) s :
  (∀ s1, I s1 → IndustrialCrawler.keep_crawling (self s1) = true →
         I (IndustrialCrawler.crawl_step W s1).2) →
  I s →
  let run := IndustrialCrawler.crawl_loop W fuel s in
  I run.2
  ∧ (run.1 = Ok tt ∧ IndustrialCrawler.keep_crawling (self run.2) = false
     ∨ run.1 = OutOfFuel).
Proof.
  intros Hstep. revert s. induction fuel as [| fuel IH]; intros s HI; cbv zeta;
    cbn [IndustrialCrawler.crawl_loop]; rewrite bind_gets_self; cbv beta; cbn [id];
    destruct (IndustrialCrawler.keep_crawling (self s)) eqn:Hk; cbn [fst snd]; auto.
  destruct (industrial_keep_cons _ Hk) as (url & rest & Hq & _).
  destruct (industrial_round url rest s Hq) as (Hok & _).
  specialize (Hstep s HI Hk). unfold bind.
  destruct (IndustrialCrawler.crawl_step W s) as [r s1]. cbn [fst snd] in *. subst r.
  apply IH, Hstep.
Qed.

(** The run of a fresh crawler, for a property that every round keeps *)
Lemma industrial_crawl_keeps (I : State IndustrialCrawler.t → Prop) (fuel : nat)
    (files : gset string) (c : IndustrialCrawler.t) :
  (∀ s1 msg, I s1 → I (after_events [EvLog INFO msg] s1)) →
  (∀ s1, I s1 → IndustrialCrawler.keep_crawling (self s1) = true →
         I (IndustrialCrawler.crawl_step W s1).2) →
  I (fresh files c) →
  let run := IndustrialCrawler.crawl W fuel (fresh files c) in
  I run.2
  ∧ (run.1 = OutOfFuel
     ∨ run.1 = Ok (idata run.2)
       ∧ IndustrialCrawler.keep_crawling (self run.2) = false).
Proof.
  intros Hlog Hstep HI. cbv zeta. unfold IndustrialCrawler.crawl.
  rewrite bind_gets_self. cbv beta. unfold logger. rewrite bind_emit. cbv beta.
  cbn [fresh self].
  match goal with |- context [bind (IndustrialCrawler.crawl_loop W fuel) _ ?s0] =>
    assert (HI0 : I s0) by (apply (Hlog (fresh files c)); exact HI);
    destruct (industrial_loop_keeps I fuel s0 Hstep HI0) as [HI1 Hres];
    unfold bind;
    destruct (IndustrialCrawler.crawl_loop W fuel s0) as [r s1]
  end.
  cbn [fst snd] in *. destruct Hres as [[-> Hstop] | ->]; cbn; auto.
Qed.

Lemma industrial_init_fields (start : string) (limit : Z) (d : Q) (callback : bool)
    (c : IndustrialCrawler.t) :
  IndustrialCrawler.init W start limit d callback = inr c →
  IndustrialCrawler.start_url c = start
  ∧ IndustrialCrawler.max_pages c = limit
  ∧ IndustrialCrawler.url_queue c = [start]
  ∧ IndustrialCrawler.visited_urls c = ∅
  ∧ IndustrialCrawler.extracted_data c = []
  ∧ IndustrialCrawler.stats_pages c = 0.
Proof.
  unfold IndustrialCrawler.init. destruct (urlparse W start); [discriminate |].
  intros H. injection H as <-. repeat split.
Qed.

(** X13. The budget of [IndustrialCrawler]. In every run of a fresh
    crawler with a budget that is not negative, cut off after any
    number of rounds or ended, the counter of pages is at most
    [max_pages] and is the number of records extracted; the records
    are for pages that were requested, each page once.  A run that
    returns returns these records, with the queue empty or the budget
    used up. *)
Theorem industrial_page_budget (start : string) (limit : Z) (d : Q) (callback : bool)
    (c : IndustrialCrawler.t) (files : gset string) (fuel : nat) :
  IndustrialCrawler.init W start limit d callback = inr c →
  0 <= limit →
  let run := IndustrialCrawler.crawl W fuel (fresh files c) in
  ipages run.2 <= limit
  ∧ Z.of_nat (length (idata run.2)) = ipages run.2
  ∧ sublist (idata run.2) (fetched (trace (env run.2)))
  ∧ NoDup (idata run.2)
  ∧ (∀ data, run.1 = Ok data →
             data = idata run.2
             ∧ IndustrialCrawler.keep_crawling (self run.2) = false).
Proof.
  intros Hinit Hlimit. cbv zeta.
  destruct (industrial_init_fields _ _ _ _ _ Hinit) as (_ & Hmax & _ & _ & Hdata & Hpages).
  pose proof (industrial_dedup W start limit d callback c files fuel Hinit) as Hnd.
  destruct (industrial_crawl_keeps
              (λ s, ipages s <= limit
                    ∧ IndustrialCrawler.max_pages (self s) = limit
                    ∧ Z.of_nat (length (idata s)) = ipages s
                    ∧ sublist (idata s) (fetched (trace (env s))))
              fuel files c) as [(Hle & _ & Hlen & Hsub) Hres].
  - intros s1 msg (H1 & H2 & H3 & H4). cbn. rewrite fetched_app. cbn.
    rewrite app_nil_r. auto.
  - intros s1 (H1 & H2 & H3 & H4) Hk.
    destruct (industrial_keep_cons _ Hk) as (url & rest & Hq & Hlt).
    destruct (industrial_round url rest s1 Hq) as (_ & Hc & Hcase).
    unfold industrial_consts in Hc. injection Hc as _ Hmax' _ _ _.
    destruct (bool_decide (url ∈ ivisited s1)).
    + destruct Hcase as (_ & Hf & _ & Hp & Hd & _). rewrite Hp, Hd, Hf. split; [lia |].
      split; [congruence |]. auto.
    + destruct Hcase as (_ & Hf & new & _ & _ & [(Hp & Hd & _) | (Hp & Hd)]);
        rewrite Hp, Hd, Hf.
      * split; [lia |]. split; [congruence |]. split; [exact H3 |].
        apply sublist_inserts_r, H4.
      * split; [lia |]. split; [congruence |].
        split; [rewrite length_app; cbn; lia |].
        apply sublist_app; [exact H4 | reflexivity].
  - cbn. rewrite Hpages, Hmax, Hdata. cbn. repeat split; try lia. constructor.
  - split; [exact Hle |]. split; [exact Hlen |]. split; [exact Hsub |].
    split; [eapply sublist_NoDup; [exact Hnd | exact Hsub] |].
    intros data Hok. destruct Hres as [Hcut | [Hres Hstop]]; [congruence |].
    rewrite Hres in Hok. injection Hok as <-. auto.
Qed.




(** A URL is marked in the round that requests it, and only then. *)
Lemma industrial_marks_what_it_requests (start : string) (limit : Z) (d : Q)
    (callback : bool) (c : IndustrialCrawler.t) (files : gset string) (fuel : nat) :
  IndustrialCrawler.init W start limit d callback = inr c →
  let run := IndustrialCrawler.crawl W fuel (fresh files c) in
  ∀ u, u ∈ ivisited run.2 ↔ u ∈ fetched (trace (env run.2)).
Proof.
  intros Hinit. cbv zeta.
  destruct (industrial_init_fields _ _ _ _ _ Hinit) as (_ & _ & _ & Hvis & _).
  apply (industrial_crawl_keeps
           (λ s, ∀ u, u ∈ ivisited s ↔ u ∈ fetched (trace (env s))) fuel files c).
  - intros s1 msg H u. cbn. rewrite fetched_app. cbn. rewrite app_nil_r. apply H.
  - intros s1 H Hk. destruct (industrial_keep_cons _ Hk) as (url & rest & Hq & _).
    destruct (industrial_round url rest s1 Hq) as (_ & _ & Hcase).
    destruct (bool_decide (url ∈ ivisited s1)).
    + destruct Hcase as (Hv & Hf & _). rewrite Hv, Hf. exact H.
    + destruct Hcase as (Hv & Hf & _). rewrite Hv, Hf. intros u.
      rewrite elem_of_union, elem_of_singleton, elem_of_app, list_elem_of_singleton, H.
      tauto.
  - intros u. cbn. rewrite Hvis. split; intros Hu; [set_solver |].
    apply elem_of_nil in Hu. destruct Hu.
Qed.

(** X15. The visited set of [IndustrialCrawler]. In every run of a fresh
    crawler, cut off after any number of rounds or ended, the URLs
    marked visited are exactly the URLs that were requested. *)
Theorem industrial_visited_is_requested (start : string) (limit : Z) (d : Q)
    (callback : bool) (c : IndustrialCrawler.t) (files : gset string) (fuel : nat) :
  IndustrialCrawler.init W start limit d callback = inr c →
  let run := IndustrialCrawler.crawl W fuel (fresh files c) in
  ∀ u, u ∈ ivisited run.2 ↔ u ∈ fetched (trace (env run.2)).
Proof. exact (industrial_marks_what_it_requests start limit d callback c files fuel). Qed.

(** X16. Staying on the domain. In every run of a fresh crawler, cut off
    after any number of rounds or ended, every URL that was requested
    or is still queued is the seed or a URL whose network location is
    the crawler's domain. *)
Theorem industrial_stays_on_domain (start : string) (limit : Z) (d : Q)
    (callback : bool) (c : IndustrialCrawler.t) (files : gset string) (fuel : nat) :
  IndustrialCrawler.init W start limit d callback = inr c →
  let run := IndustrialCrawler.crawl W fuel (fresh files c) in
  ∀ u, u ∈ fetched (trace (env run.2)) ++ iqueue run.2 →
       u = start ∨ same_domain W (IndustrialCrawler.domain c) u.
Proof.
  intros Hinit. cbv zeta.
  destruct (industrial_init_fields _ _ _ _ _ Hinit) as (_ & _ & Hqueue & _).
  apply (industrial_crawl_keeps
           (λ s, (∀ u, u ∈ fetched (trace (env s)) ++ iqueue s →
                       u = start ∨ same_domain W (IndustrialCrawler.domain c) u)
                 ∧ idomain s = IndustrialCrawler.domain c) fuel files c).
  - intros s1 msg [H Hd]. split; [| exact Hd]. cbn. rewrite fetched_app. cbn.
    rewrite app_nil_r. exact H.
  - intros s1 [H Hd] Hk. destruct (industrial_keep_cons _ Hk) as (url & rest & Hq & _).
    destruct (industrial_round url rest s1 Hq) as (_ & Hc & Hcase).
    unfold industrial_consts in Hc. injection Hc as _ _ _ _ Hd'.
    split; [| congruence]. rewrite Hq in H.
    destruct (bool_decide (url ∈ ivisited s1)).
    + destruct Hcase as (_ & Hf & Hq' & _). rewrite Hf, Hq'. intros u Hu. apply H.
      apply elem_of_app in Hu as [Hu | Hu]; apply elem_of_app; [left | right; right];
        exact Hu.
    + destruct Hcase as (_ & Hf & new & Hq' & Hnew & _). rewrite Hf, Hq'. intros u Hu.
      rewrite <- app_assoc in Hu. apply elem_of_app in Hu as [Hu | Hu].
      { apply H, elem_of_app. left. exact Hu. }
      apply elem_of_app in Hu as [Hu | Hu].
      { apply list_elem_of_singleton in Hu. subst u. apply H, elem_of_app. right. left. }
      apply elem_of_app in Hu as [Hu | Hu].
      { apply H, elem_of_app. right. right. exact Hu. }
      right. rewrite <- Hd. rewrite Forall_forall in Hnew. apply Hnew, Hu.
  - split; [| reflexivity]. cbn. rewrite Hqueue. intros u Hu.
    apply list_elem_of_singleton in Hu. left. exact Hu.
Qed.

End IndustrialRounds.

(** ** No URL twice *)

Lemma split_first_id (c : ascii) (s : string) :
  Py.has_char c s = false → Py.split_first c s = s.
Proof.
  induction s as [| b s IH]; cbn; [reflexivity |].
  destruct (Ascii.eqb b c); [discriminate |]. intros H. rewrite (IH H). reflexivity.
Qed.

(** C2, the claim as worded fails, in three ways. [IndustrialCrawler]
    does not mark a URL when it queues it: after the first round on a
    page with two links to the same page, that page sits twice in the
    queue and is not marked visited.  It does not normalize its links
    either: a page and a place in that page are two URLs for it, and
    both are requested and extracted.  And [PoliteCrawler] queues its
    seed as it was given: a seed with a fragment and the same page
    without it are two URLs for it, and both are processed. *)
Lemma urls_are_deduplicated_as_strings :
  (let s := (IndustrialCrawler.crawl_loop double_link 1 (fresh ∅ sample_industrial)).2 in
   IndustrialCrawler.url_queue (self s)
   = ["https://example.test/a"; "https://example.test/a"]
   ∧ ¬ marked_when_enqueued (IndustrialCrawler.url_queue (self s))
         (IndustrialCrawler.visited_urls (self s)))
  ∧ (let run := IndustrialCrawler.crawl fragment_links 10 (fresh ∅ sample_industrial) in
     run.1 = Ok [Sample.seed; "https://example.test/a"; "https://example.test/a#top"]
     ∧ fetched (trace (env run.2))
       = [Sample.seed; "https://example.test/a"; "https://example.test/a#top"]
     ∧ normalized "https://example.test/a#top" = "https://example.test/a"
     ∧ ¬ NoDup (normalized <$> fetched (trace (env run.2))))
  ∧ ((λ r : Result unit * State (PoliteCrawler.t unit), processed (trace (env r.2)))
       <$> Sample.run_polite home_twice seed_with_fragment 10
     = Some [seed_with_fragment; Sample.seed]
     ∧ normalized seed_with_fragment = Sample.seed
     ∧ ¬ NoDup (normalized <$> [seed_with_fragment; Sample.seed])).
Proof.
  cbv zeta. split; [| split].
  - assert (Hq : IndustrialCrawler.url_queue
                   (self (IndustrialCrawler.crawl_loop double_link 1
                            (fresh ∅ sample_industrial)).2)
                 = ["https://example.test/a"; "https://example.test/a"])
      by (vm_compute; reflexivity).
    split; [exact Hq |]. rewrite Hq. intros [Hnd _].
    apply NoDup_cons in Hnd as [Hnotin _]. apply Hnotin. constructor.
  - assert (Hf : fetched (trace (env (IndustrialCrawler.crawl fragment_links 10
                                        (fresh ∅ sample_industrial)).2))
                 = [Sample.seed; "https://example.test/a"; "https://example.test/a#top"])
      by (vm_compute; reflexivity).
    split; [vm_compute; reflexivity |]. split; [exact Hf |].
    split; [vm_compute; reflexivity |]. rewrite Hf.
    change (normalized <$> [Sample.seed; "https://example.test/a";
                            "https://example.test/a#top"])
      with [Sample.seed; "https://example.test/a"; "https://example.test/a"].
    intros Hnd. apply NoDup_cons in Hnd as [_ Hnd].
    apply NoDup_cons in Hnd as [Hnotin _]. apply Hnotin. constructor.
  - split; [vm_compute; reflexivity |]. split; [vm_compute; reflexivity |].
    change (normalized <$> [seed_with_fragment; Sample.seed])
      with [Sample.seed; Sample.seed].
    intros Hnd. apply NoDup_cons in Hnd as [Hnotin _]. apply Hnotin. constructor.
Qed.

(** C2, as amended. [PoliteCrawler] marks a URL, the seed included, when
    it queues it: at any point of a run no URL sits twice in the
    queue, every queued URL is marked visited, and no URL is handed to
    [process_page] twice.  What it queues is normalized, the seed
    apart, which is queued as it was given: with a seed that holds no
    fragment, no normalized URL is processed twice.
    [IndustrialCrawler] marks a URL in the round that takes it from
    the queue and requests it, not when it queues it, and drops the
    URLs already marked: at any point of a run the URLs marked are
    the URLs requested, and no URL was requested twice. *)
Theorem no_url_processed_twice {X} (W : World) (start : string) (limit : Z) (pause : Q)
    (files : gset string) :
  (∀ (x : X) (c : PoliteCrawler.t X) (rounds : option nat),
     PoliteCrawler.init W start limit pause x = inr c →
     let run := PoliteCrawler.crawl_rounds W rounds (PoliteCrawler.setup_folders W)
                  (PoliteCrawler.process_page W) (fresh files c) in
     NoDup (processed (trace (env run.2)))
     ∧ marked_when_enqueued (PoliteCrawler.url_queue (self run.2))
         (PoliteCrawler.visited_urls (self run.2))
     ∧ (∀ u, u ∈ processed (trace (env run.2)) ++ PoliteCrawler.url_queue (self run.2) →
             u = start ∨ normalized u = u)
     ∧ (normalized start = start →
        NoDup (normalized <$> processed (trace (env run.2)))))
  ∧ (∀ (callback : bool) (c : IndustrialCrawler.t) (fuel : nat),
       IndustrialCrawler.init W start limit pause callback = inr c →
       let run := IndustrialCrawler.crawl W fuel (fresh files c) in
       NoDup (fetched (trace (env run.2)))
       ∧ ∀ u, u ∈ IndustrialCrawler.visited_urls (self run.2)
              ↔ u ∈ fetched (trace (env run.2))).
Proof.
  split.
  - intros x c rounds Hinit. cbv zeta.
    destruct (polite_dedup W start limit pause x c files rounds Hinit) as [Hnd Hmark].
    pose proof (polite_scope W start limit pause x c files rounds Hinit) as Hscope.
    cbv zeta in Hscope.
    assert (Hnorm : ∀ u,
              u ∈ processed
                    (trace (env (PoliteCrawler.crawl_rounds W rounds
                                   (PoliteCrawler.setup_folders W)
                                   (PoliteCrawler.process_page W) (fresh files c)).2))
                  ++ PoliteCrawler.url_queue
                       (self (PoliteCrawler.crawl_rounds W rounds
                                (PoliteCrawler.setup_folders W)
                                (PoliteCrawler.process_page W) (fresh files c)).2) →
              u = start ∨ normalized u = u).
    { intros u Hu. destruct (Hscope u Hu) as [-> | [Hno _]]; [left; reflexivity |].
      right. apply split_first_id, Hno. }
    split; [exact Hnd |]. split; [exact Hmark |]. split; [exact Hnorm |].
    intros Hstart.
    assert (Hid : normalized
                    <$> processed
                          (trace (env (PoliteCrawler.crawl_rounds W rounds
                                         (PoliteCrawler.setup_folders W)
                                         (PoliteCrawler.process_page W) (fresh files c)).2))
                  = processed
                      (trace (env (PoliteCrawler.crawl_rounds W rounds
                                     (PoliteCrawler.setup_folders W)
                                     (PoliteCrawler.process_page W) (fresh files c)).2))).
    { assert (Hall : ∀ l : list string, (∀ u, u ∈ l → normalized u = u) →
                                        normalized <$> l = l).
      { induction l as [| u l IH]; intros Hl; [reflexivity |].
        cbn [fmap list_fmap]. rewrite (Hl u) by left.
        f_equal. apply IH. intros v Hv. apply Hl. right. exact Hv. }
      apply Hall. intros u Hu.
      destruct (Hnorm u) as [-> | Hu']; [apply elem_of_app; left; exact Hu | | ];
        assumption. }
    rewrite Hid. exact Hnd.
  - intros callback c fuel Hinit. cbv zeta. split.
    + exact (industrial_dedup W start limit pause callback c files fuel Hinit).
    + exact (industrial_marks_what_it_requests W start limit pause callback c files
               fuel Hinit).
Qed.

Lemma no_url_processed_twice_witness :
  let run := PoliteCrawler.crawl_rounds Sample.two_pages None
               (PoliteCrawler.setup_folders Sample.two_pages)
               (PoliteCrawler.process_page Sample.two_pages)
               (fresh ∅ (sample_crawler 10)) in
  NoDup (normalized <$> processed (trace (env run.2)))
  ∧ NoDup (fetched (trace (env (IndustrialCrawler.crawl double_link 5
                                  (fresh ∅ sample_industrial)).2))).
Proof.
  destruct (no_url_processed_twice (X:=unit) Sample.two_pages Sample.seed 10 (3 # 2) ∅)
    as [Hpolite _].
  destruct (no_url_processed_twice (X:=unit) double_link Sample.seed 50 (1 # 2) ∅)
    as [_ Hindustrial].
  split.
  - destruct (Hpolite tt (sample_crawler 10) None) as (_ & _ & _ & Hnorm);
      [vm_compute; reflexivity |].
    apply Hnorm. vm_compute. reflexivity.
  - apply (Hindustrial false sample_industrial 5%nat). vm_compute; reflexivity.
Defined.

(** ** The other checks of [SecurityCrawler] *)

Section Audit.
Implicit Types s : State (PoliteCrawler.t SecurityCrawler.Ext).

(** A finding that is reported is appended to the findings of its
    severity, and nothing else changes. *)
Lemma report_run (sev : SecurityCrawler.Severity) (f : SecurityCrawler.Finding) s :
  ∃ s', SecurityCrawler.report sev f s = (Ok tt, s')
        ∧ env s' = env s
        ∧ beside_findings (self s') = beside_findings (self s)
        ∧ findings sev s' = findings sev s ++ [f]
        ∧ ∀ sev', sev' ≠ sev → findings sev' s' = findings sev' s.
Proof.
  eexists. split; [reflexivity |]. cbn. split; [reflexivity |]. split; [reflexivity |].
  unfold findings. cbn. split.
  - destruct sev; reflexivity.
  - intros sev' Hne. destruct sev, sev'; try reflexivity; contradiction.
Qed.

Lemma cookie_issues_nil (url : string) (c : SecurityCrawler.Cookie) :
  bool_decide (SecurityCrawler.cookie_issues url c = []) = cookie_is_safe url c.
Proof.
  unfold SecurityCrawler.cookie_issues, cookie_is_safe.
  destruct (SecurityCrawler.cookie_secure c), (Py.startswith "https://" url),
    (SecurityCrawler.has_nonstandard_attr "HttpOnly" c),
    (SecurityCrawler.has_nonstandard_attr "SameSite" c); reflexivity.
Qed.

(** X17. The cookies. [check_cookies] returns; it appends one medium
    finding for each cookie that lacks [HttpOnly] or [SameSite], or
    lacks the [Secure] flag on an [https://] page, in the order of the
    cookies, and none for any other cookie; on a page that is not an
    [https://] one the [Secure] flag is not asked for.  Nothing else
    changes. *)
Theorem check_cookies_findings (cookies : list SecurityCrawler.Cookie) (url : string) s :
  ∃ s',
    SecurityCrawler.check_cookies cookies url s = (Ok tt, s')
    ∧ env s' = env s
    ∧ beside_findings (self s') = beside_findings (self s)
    ∧ findings SecurityCrawler.medium s'
      = findings SecurityCrawler.medium s
        ++ ((λ c, SecurityCrawler.insecure_cookie url c (SecurityCrawler.cookie_issues url c))
              <$> List.filter (λ c, negb (cookie_is_safe url c)) cookies)
    ∧ ∀ sev, sev ≠ SecurityCrawler.medium → findings sev s' = findings sev s.
Proof.
  unfold SecurityCrawler.check_cookies. revert s.
  induction cookies as [| c cookies IH]; intros s.
  - exists s. split; [reflexivity |]. cbn. rewrite app_nil_r. auto.
  - cbn [for_each List.filter]. cbv zeta. rewrite cookie_issues_nil.
    destruct (cookie_is_safe url c); cbn [negb when].
    + rewrite bind_ret. apply IH.
    + destruct (report_run SecurityCrawler.medium
                  (SecurityCrawler.insecure_cookie url c (SecurityCrawler.cookie_issues url c)) s)
        as (s1 & Hrun & Henv & Hb & Hm & Ho).
      rewrite (bind_run _ _ _ _ _ Hrun).
      destruct (IH s1) as (s' & Hrun' & Henv' & Hb' & Hm' & Ho').
      exists s'. split; [exact Hrun' |]. split; [congruence |]. split; [congruence |].
      split.
      * rewrite Hm', Hm, <- app_assoc. reflexivity.
      * intros sev Hne. rewrite (Ho' sev Hne). apply Ho, Hne.
Qed.

Section Checks.
Variable W : World.
Variable log_line : string → LogMsg.
Variable re_search : string → string → bool.

Lemma sql_patterns_fold (patterns : list string) (url : string) s :
  ∃ (left_loop : bool) s',
    for_until patterns
      (fun pattern =>
         if re_search pattern url then
           SecurityCrawler.report SecurityCrawler.medium
             (SecurityCrawler.sql_injection_vector pattern url) ;;
           ret true
         else ret false) s
    = (Ok left_loop, s')
    ∧ env s' = env s
    ∧ beside_findings (self s') = beside_findings (self s)
    ∧ findings SecurityCrawler.medium s'
      = findings SecurityCrawler.medium s
        ++ match List.find (λ pattern, re_search pattern url) patterns with
           | Some pattern => [SecurityCrawler.sql_injection_vector pattern url]
           | None => []
           end
    ∧ ∀ sev, sev ≠ SecurityCrawler.medium → findings sev s' = findings sev s.
Proof.
  induction patterns as [| pattern patterns IH].
  - exists false, s. split; [reflexivity |]. cbn. rewrite app_nil_r. auto.
  - cbn [for_until List.find]. destruct (re_search pattern url).
    + destruct (report_run SecurityCrawler.medium
                  (SecurityCrawler.sql_injection_vector pattern url) s)
        as (s1 & Hrun & Hrest).
      exists true, s1. split; [| exact Hrest].
      rewrite (bind_run _ _ _ _ _ (bind_run _ _ _ _ _ Hrun)). reflexivity.
    + rewrite bind_ret. exact IH.
Qed.

(** X18. The parameters of a URL. [check_sql_injection_vectors] returns;
    it appends at most one medium finding, for the first pattern of
    the list that the URL matches, however many patterns match, and
    nothing else changes. *)
Theorem sql_injection_first_match (url : string) s :
  ∃ s',
    SecurityCrawler.check_sql_injection_vectors re_search url s = (Ok tt, s')
    ∧ env s' = env s
    ∧ beside_findings (self s') = beside_findings (self s)
    ∧ findings SecurityCrawler.medium s'
      = findings SecurityCrawler.medium s
        ++ match List.find (λ pattern, re_search pattern url)
                   SecurityCrawler.SQL_INJECTION_PATTERNS with
           | Some pattern => [SecurityCrawler.sql_injection_vector pattern url]
           | None => []
           end
    ∧ ∀ sev, sev ≠ SecurityCrawler.medium → findings sev s' = findings sev s.
Proof.
  unfold SecurityCrawler.check_sql_injection_vectors.
  destruct (sql_patterns_fold SecurityCrawler.SQL_INJECTION_PATTERNS url s)
    as (left_loop & s' & Hrun & Hrest).
  exists s'. split; [| exact Hrest]. rewrite (bind_run _ _ _ _ _ Hrun). reflexivity.
Qed.

Lemma cms_patterns_fold (name url html : string) (patterns : list string) s :
  ∃ (left_loop : bool) s',
    for_until patterns
      (fun pattern =>
         if Py.contains pattern html then
           SecurityCrawler.set_cms_detected name ;;
           SecurityCrawler.report SecurityCrawler.info (SecurityCrawler.cms_finding name url) ;;
           logger INFO (log_line ("CMS Detected: " +:+ name)) ;;
           ret true
         else ret false) s
    = (Ok left_loop, s')
    ∧ left_loop = existsb (λ pattern, Py.contains pattern html) patterns
    ∧ if left_loop
      then SecurityCrawler.cms_detected (PoliteCrawler.ext (self s')) = Some name
           ∧ findings SecurityCrawler.info s'
             = findings SecurityCrawler.info s ++ [SecurityCrawler.cms_finding name url]
           ∧ trace (env s')
             = trace (env s) ++ [EvLog INFO (log_line ("CMS Detected: " +:+ name))]
           ∧ fs (env s') = fs (env s)
           ∧ polite_part (self s') = polite_part (self s)
           ∧ ∀ sev, sev ≠ SecurityCrawler.info → findings sev s' = findings sev s
      else s' = s.
Proof.
  induction patterns as [| pattern patterns IH].
  - exists false, s. repeat split.
  - cbn [for_until existsb]. destruct (Py.contains pattern html); cbn [orb].
    + eexists true, _. split; [reflexivity |]. split; [reflexivity |].
      cbn. unfold findings. cbn. repeat split.
      intros sev Hne. destruct sev; try reflexivity. contradiction.
    + rewrite bind_ret. exact IH.
Qed.

Lemma cms_table_fold (url html : string) (table : list (string * list string)) s :
  ∃ (left_loop : bool) s',
    for_until table
      (fun entry =>
         for_until (snd entry)
           (fun pattern =>
              if Py.contains pattern html then
                SecurityCrawler.set_cms_detected (fst entry) ;;
                SecurityCrawler.report SecurityCrawler.info
                  (SecurityCrawler.cms_finding (fst entry) url) ;;
                logger INFO (log_line ("CMS Detected: " +:+ fst entry)) ;;
                ret true
              else ret false)) s
    = (Ok left_loop, s')
    ∧ match List.find (λ entry, existsb (λ pattern, Py.contains pattern html) (snd entry))
              table with
      | Some entry =>
          SecurityCrawler.cms_detected (PoliteCrawler.ext (self s')) = Some (fst entry)
          ∧ findings SecurityCrawler.info s'
            = findings SecurityCrawler.info s ++ [SecurityCrawler.cms_finding (fst entry) url]
          ∧ trace (env s')
            = trace (env s) ++ [EvLog INFO (log_line ("CMS Detected: " +:+ fst entry))]
          ∧ fs (env s') = fs (env s)
          ∧ polite_part (self s') = polite_part (self s)
          ∧ ∀ sev, sev ≠ SecurityCrawler.info → findings sev s' = findings sev s
      | None => s' = s
      end.
Proof.
  induction table as [| entry table IH].
  - exists false, s. split; reflexivity.
  - cbn [for_until List.find].
    destruct (cms_patterns_fold (fst entry) url html (snd entry) s)
      as (b & s1 & Hrun & -> & Hcase).
    rewrite (bind_run _ _ _ _ _ Hrun).
    destruct (existsb (λ pattern, Py.contains pattern html) (snd entry)).
    + exists true, s1. split; [reflexivity | exact Hcase].
    + subst s1. exact IH.
Qed.

(** X19. The CMS. [detect_cms] returns; when a pattern of the table occurs
    in the page, the CMS recorded is the first of the table one of
    whose patterns occurs, with one info finding and one log line for
    it, however many patterns occur; when none occurs, nothing
    changes. *)
Theorem detect_cms_first_match (html url : string) s :
  ∃ s',
    SecurityCrawler.detect_cms log_line html url s = (Ok tt, s')
    ∧ match List.find (λ entry, existsb (λ pattern, Py.contains pattern html) (snd entry))
              SecurityCrawler.CMS_PATTERNS with
      | Some entry =>
          SecurityCrawler.cms_detected (PoliteCrawler.ext (self s')) = Some (fst entry)
          ∧ findings SecurityCrawler.info s'
            = findings SecurityCrawler.info s ++ [SecurityCrawler.cms_finding (fst entry) url]
          ∧ trace (env s')
            = trace (env s) ++ [EvLog INFO (log_line ("CMS Detected: " +:+ fst entry))]
          ∧ fs (env s') = fs (env s)
          ∧ polite_part (self s') = polite_part (self s)
          ∧ ∀ sev, sev ≠ SecurityCrawler.info → findings sev s' = findings sev s
      | None => s' = s
      end.
Proof.
  unfold SecurityCrawler.detect_cms.
  destruct (cms_table_fold url html SecurityCrawler.CMS_PATTERNS s)
    as (left_loop & s' & Hrun & Hcase).
  exists s'. split; [| exact Hcase]. rewrite (bind_run _ _ _ _ _ Hrun). reflexivity.
Qed.

Lemma requests_app (tr evs : list Event) :
  requests (tr ++ evs) = requests tr ++ requests evs.
Proof. apply List.filter_app. Qed.

(** The loop over the files to probe *)
Lemma probe_fold (files : list string) s :
  (∀ file, file ∈ files →
           ∃ url, urljoin W (PoliteCrawler.base_url (self s)) file = inr url) →
  ∃ s' new,
    for_each files
      (fun file =>
         base <- gets_self PoliteCrawler.base_url ;;
         url <- call (urljoin W base file) ;;
         try_except
           (response <- session_get W url false 3 ;;
            when (status_code response =? 200)
              (SecurityCrawler.report SecurityCrawler.critical
                 (SecurityCrawler.sensitive_file_exposed file url) ;;
               logger WARNING (log_line ("EXPOSED: " +:+ file))) ;;
            time_sleep (3 # 10))
           is_Exception
           (fun _ => ret tt)) s
    = (Ok tt, s')
    ∧ fs (env s') = fs (env s)
    ∧ beside_findings (self s') = beside_findings (self s)
    ∧ requests (trace (env s'))
      = requests (trace (env s))
        ++ ((λ url, EvGet url false 3)
              <$> probe_urls W (PoliteCrawler.base_url (self s)) files)
    ∧ findings SecurityCrawler.critical s' = findings SecurityCrawler.critical s ++ new
    ∧ (length new <= length files)%nat
    ∧ Forall (λ f, ∃ file url,
                     file ∈ files
                     ∧ urljoin W (PoliteCrawler.base_url (self s)) file = inr url
                     ∧ f = SecurityCrawler.sensitive_file_exposed file url) new
    ∧ ∀ sev, sev ≠ SecurityCrawler.critical → findings sev s' = findings sev s.
Proof.
  revert s. induction files as [| file files IH]; intros s Hjoin.
  - exists s, []. split; [reflexivity |]. cbn. rewrite !app_nil_r.
    repeat split; auto.
  - destruct (Hjoin file) as (url & Hurl); [left |].
    assert (Hnext : ∀ s1 (evs : list Event) (found : list SecurityCrawler.Finding),
              fs (env s1) = fs (env s) →
              beside_findings (self s1) = beside_findings (self s) →
              trace (env s1) = trace (env s) ++ evs →
              requests evs = [EvGet url false 3] →
              findings SecurityCrawler.critical s1
              = findings SecurityCrawler.critical s ++ found →
              (found = [] ∨ found = [SecurityCrawler.sensitive_file_exposed file url]) →
              (∀ sev, sev ≠ SecurityCrawler.critical → findings sev s1 = findings sev s) →
              ∃ s' new,
                for_each files
                  (fun file =>
                     base <- gets_self PoliteCrawler.base_url ;;
                     url <- call (urljoin W base file) ;;
                     try_except
                       (response <- session_get W url false 3 ;;
                        when (status_code response =? 200)
                          (SecurityCrawler.report SecurityCrawler.critical
                             (SecurityCrawler.sensitive_file_exposed file url) ;;
                           logger WARNING (log_line ("EXPOSED: " +:+ file))) ;;
                        time_sleep (3 # 10))
                       is_Exception
                       (fun _ => ret tt)) s1
                = (Ok tt, s')
                ∧ fs (env s') = fs (env s)
                ∧ beside_findings (self s') = beside_findings (self s)
                ∧ requests (trace (env s'))
                  = requests (trace (env s))
                    ++ ((λ url, EvGet url false 3)
                          <$> probe_urls W (PoliteCrawler.base_url (self s))
                                (file :: files))
                ∧ findings SecurityCrawler.critical s'
                  = findings SecurityCrawler.critical s ++ new
                ∧ (length new <= length (file :: files))%nat
                ∧ Forall (λ f, ∃ file0 url0,
                                 file0 ∈ file :: files
                                 ∧ urljoin W (PoliteCrawler.base_url (self s)) file0
                                   = inr url0
                                 ∧ f = SecurityCrawler.sensitive_file_exposed file0 url0) new
                ∧ ∀ sev, sev ≠ SecurityCrawler.critical →
                         findings sev s' = findings sev s).
    { intros s1 evs found Hfs Hb Htr Hreq Hfound Hone Hother.
      assert (Hbase : PoliteCrawler.base_url (self s1) = PoliteCrawler.base_url (self s)).
      { unfold beside_findings in Hb. injection Hb as Hb _ _. congruence. }
      destruct (IH s1) as (s' & new & Hrun & Hfs' & Hb' & Hreq' & Hcrit & Hlen & Hall & Ho).
      { intros file0 Hin. rewrite Hbase. apply Hjoin. right. exact Hin. }
      exists s', (found ++ new). split; [exact Hrun |].
      split; [congruence |]. split; [congruence |].
      split.
      { rewrite Hreq', Htr, requests_app, Hreq, Hbase. unfold probe_urls.
        cbn [omap list_omap]. rewrite Hurl. cbn [fmap list_fmap]. rewrite <- app_assoc.
        reflexivity. }
      split; [rewrite Hcrit, Hfound, app_assoc; reflexivity |].
      split; [rewrite length_app; destruct Hone as [-> | ->]; cbn [length]; lia |].
      split.
      { apply Forall_app. split.
        - destruct Hone as [-> | ->]; repeat constructor.
          exists file, url. split; [left | auto].
        - eapply Forall_impl; [exact Hall |]. intros f (file0 & url0 & Hin & Hj & ->).
          exists file0, url0. rewrite <- Hbase. split; [right; exact Hin | auto]. }
      intros sev Hne. rewrite (Ho sev Hne). apply Hother, Hne. }
    cbn [for_each]. rewrite bind_run with (a := tt)
      (s1 := match http_get W (requests_made (trace (env s))) url with
             | Responded r =>
                 if status_code r =? 200
                 then
                   {| env := {| trace := trace (env s)
                                         ++ [EvGet url false 3;
                                             EvLog WARNING (log_line ("EXPOSED: " +:+ file));
                                             EvSleep (3 # 10)];
                                fs := fs (env s) |};
                      self := PoliteCrawler.with_ext
                                (fun x =>
                                   {| SecurityCrawler.security_issues :=
                                        SecurityCrawler.append_issue
                                          SecurityCrawler.critical
                                          (SecurityCrawler.sensitive_file_exposed file url)
                                          (SecurityCrawler.security_issues x);
                                      SecurityCrawler.cms_detected :=
                                        SecurityCrawler.cms_detected x;
                                      SecurityCrawler.subdomains_found :=
                                        SecurityCrawler.subdomains_found x |})
                                (self s) |}
                 else after_events [EvGet url false 3; EvSleep (3 # 10)] s
             | Failed _ | Raised _ => after_events [EvGet url false 3] s
             end).
    + destruct (http_get W (requests_made (trace (env s))) url) as [r | msg | e].
      * destruct (status_code r =? 200).
        -- apply (Hnext _ [EvGet url false 3;
                           EvLog WARNING (log_line ("EXPOSED: " +:+ file));
                           EvSleep (3 # 10)]
                    [SecurityCrawler.sensitive_file_exposed file url]);
             try reflexivity; [right; reflexivity |].
           intros sev Hne. unfold findings. cbn. destruct sev; try reflexivity.
           contradiction.
        -- apply (Hnext _ [EvGet url false 3; EvSleep (3 # 10)] []);
             try reflexivity; [cbn; rewrite app_nil_r; reflexivity | left; reflexivity].
      * apply (Hnext _ [EvGet url false 3] []);
          try reflexivity; [cbn; rewrite app_nil_r; reflexivity | left; reflexivity].
      * apply (Hnext _ [EvGet url false 3] []);
          try reflexivity; [cbn; rewrite app_nil_r; reflexivity | left; reflexivity].
    + rewrite bind_gets_self. cbv beta. rewrite Hurl. cbn [call]. rewrite bind_ret.
      unfold try_except, session_get. run_monad.
      destruct (http_get W (requests_made (trace (env s))) url) as [r | msg | e];
        [| reflexivity | reflexivity].
      destruct (status_code r =? 200); cbn [when]; run_monad; unfold after_events;
        cbn; rewrite <- ?app_assoc; reflexivity.
Qed.

(** X20. The sensitive files. When the paths of [SENSITIVE_FILES] resolve
    against the base URL, [check_sensitive_files] returns after one
    request for each of the 25, in the order of the list, each with a
    timeout of 3 and neither asked of [robots.txt] nor counted as a
    page; a request that fails is passed over without a record.  The
    findings it adds are critical ones, at most one for each file and
    each for an exposed file of the list; the rest of the object and
    the files on disk stay as they were. *)
Theorem check_sensitive_files_probes_every_file s :
  (∀ file, file ∈ SecurityCrawler.SENSITIVE_FILES →
           ∃ url, urljoin W (PoliteCrawler.base_url (self s)) file = inr url) →
  ∃ s' new,
    SecurityCrawler.check_sensitive_files W log_line s = (Ok tt, s')
    ∧ requests (trace (env s'))
      = requests (trace (env s))
        ++ ((λ url, EvGet url false 3)
              <$> probe_urls W (PoliteCrawler.base_url (self s)) SecurityCrawler.SENSITIVE_FILES)
    ∧ length (probe_urls W (PoliteCrawler.base_url (self s)) SecurityCrawler.SENSITIVE_FILES)
      = 25%nat
    ∧ fs (env s') = fs (env s)
    ∧ beside_findings (self s') = beside_findings (self s)
    ∧ findings SecurityCrawler.critical s' = findings SecurityCrawler.critical s ++ new
    ∧ (length new <= 25)%nat
    ∧ Forall (λ f, ∃ file url,
                     file ∈ SecurityCrawler.SENSITIVE_FILES
                     ∧ urljoin W (PoliteCrawler.base_url (self s)) file = inr url
                     ∧ f = SecurityCrawler.sensitive_file_exposed file url) new
    ∧ ∀ sev, sev ≠ SecurityCrawler.critical → findings sev s' = findings sev s.
Proof.
  intros Hjoin. unfold SecurityCrawler.check_sensitive_files, logger. rewrite bind_emit.
  destruct (probe_fold SecurityCrawler.SENSITIVE_FILES
              (after_events
                 [EvLog INFO (log_line "Checking for exposed sensitive files...")] s))
    as (s' & new & Hrun & Hfs & Hb & Hreq & Hcrit & Hlen & Hall & Ho); [exact Hjoin |].
  exists s', new. split; [exact Hrun |].
  split.
  { rewrite Hreq. cbn [after_events env self trace]. rewrite requests_app.
    change (requests [EvLog INFO (log_line "Checking for exposed sensitive files...")])
      with (@nil Event).
    rewrite app_nil_r. reflexivity. }
  split.
  { unfold probe_urls.
    assert (Hlen' : ∀ files,
              (∀ file, file ∈ files →
                       ∃ url, urljoin W (PoliteCrawler.base_url (self s)) file = inr url) →
              length (omap (λ file, match urljoin W (PoliteCrawler.base_url (self s)) file with
                                    | inr url => Some url
                                    | inl _ => None
                                    end) files) = length files).
    { induction files as [| file files IHf]; intros Hall'; [reflexivity |].
      cbn [omap list_omap]. destruct (Hall' file) as (url & ->); [left |].
      cbn [length]. f_equal. apply IHf. intros file0 Hin. apply Hall'. right. exact Hin. }
    rewrite (Hlen' _ Hjoin). reflexivity. }
  split; [exact Hfs |]. split; [exact Hb |]. split; [exact Hcrit |].
  split; [exact Hlen |]. split; [exact Hall | exact Ho].
Qed.

End Checks.

End Audit.

(** ** [DataExtractor.extract_links] *)

Section Extractor.
Variable W : World.

Lemma extract_links_from_spec (domain url : string) (anchors : list DataExtractor.Anchor)
    (links0 links : DataExtractor.Links) :
  DataExtractor.extract_links_from W domain url links0 anchors = inr links →
  ∃ (inside outside : list DataExtractor.Link),
    DataExtractor.internal links = DataExtractor.internal links0 ++ inside
    ∧ DataExtractor.external links = DataExtractor.external links0 ++ outside
    ∧ Forall (λ l, same_domain W domain (DataExtractor.link_url l)) inside
    ∧ Forall (λ l, ∃ parsed, urlparse W (DataExtractor.link_url l) = inr parsed
                             ∧ netloc parsed ≠ domain) outside
    ∧ (length inside + length outside = length (kept_anchors anchors))%nat
    ∧ Forall (λ l, ∃ a, a ∈ kept_anchors anchors
                        ∧ urljoin W url (DataExtractor.a_href a)
                          = inr (DataExtractor.link_url l)
                        ∧ DataExtractor.link_text l = DataExtractor.a_text a)
        (inside ++ outside).
Proof.
  revert links0. induction anchors as [| a anchors IH]; intros links0 Hrun.
  - cbn in Hrun. injection Hrun as <-. exists [], []. rewrite !app_nil_r.
    repeat split; constructor.
  - cbn [DataExtractor.extract_links_from] in Hrun. unfold DataExtractor.add_link in Hrun.
    unfold kept_anchors. cbn [List.filter]. fold (kept_anchors anchors).
    destruct (DataExtractor.skipped_href (DataExtractor.a_href a)) eqn:Hskip; cbn [negb].
    + apply IH, Hrun.
    + destruct (urljoin W url (DataExtractor.a_href a)) as [e | full] eqn:Hjoin;
        [discriminate |].
      destruct (urlparse W full) as [e | parsed] eqn:Hparse; [discriminate |].
      cbv zeta in Hrun.
      assert (Hmore : ∀ l, (∃ a0, a0 ∈ kept_anchors anchors
                                   ∧ urljoin W url (DataExtractor.a_href a0)
                                     = inr (DataExtractor.link_url l)
                                   ∧ DataExtractor.link_text l = DataExtractor.a_text a0) →
                           ∃ a0, a0 ∈ a :: kept_anchors anchors
                                 ∧ urljoin W url (DataExtractor.a_href a0)
                                   = inr (DataExtractor.link_url l)
                                 ∧ DataExtractor.link_text l = DataExtractor.a_text a0).
      { intros l (a0 & Hin & Hrest). exists a0. split; [right; exact Hin | exact Hrest]. }
      destruct (String.eqb (netloc parsed) domain) eqn:Hdom.
      * apply String.eqb_eq in Hdom.
        destruct (IH _ Hrun) as (inside & outside & Hi & Ho & Hin & Hout & Hlen & Hfrom).
        cbn [DataExtractor.internal DataExtractor.external] in Hi, Ho.
        exists ({| DataExtractor.link_url := full;
                   DataExtractor.link_text := DataExtractor.a_text a |} :: inside), outside.
        split; [rewrite Hi, <- app_assoc; reflexivity |]. split; [exact Ho |].
        split; [constructor; [exists parsed; auto | exact Hin] |].
        split; [exact Hout |]. split; [cbn [length]; lia |].
        cbn [app]. constructor.
        -- exists a. split; [left | auto].
        -- eapply Forall_impl; [exact Hfrom | exact Hmore].
      * apply String.eqb_neq in Hdom.
        destruct (IH _ Hrun) as (inside & outside & Hi & Ho & Hin & Hout & Hlen & Hfrom).
        cbn [DataExtractor.internal DataExtractor.external] in Hi, Ho.
        exists inside, ({| DataExtractor.link_url := full;
                           DataExtractor.link_text := DataExtractor.a_text a |} :: outside).
        split; [exact Hi |]. split; [rewrite Ho, <- app_assoc; reflexivity |].
        split; [exact Hin |].
        split; [constructor; [exists parsed; auto | exact Hout] |].
        split; [cbn [length]; lia |].
        apply Forall_app. apply Forall_app in Hfrom as [Hfi Hfo]. split.
        -- eapply Forall_impl; [exact Hfi | exact Hmore].
        -- constructor.
           ++ exists a. split; [left | auto].
           ++ eapply Forall_impl; [exact Hfo | exact Hmore].
Qed.

(** X21. The links of a page. When [extract_links] returns, every internal
    link is a URL of the crawler's domain and every external link one
    of another network location; each link is the resolved [href] of
    an anchor that is not a [javascript:], [mailto:], [tel:] or [#]
    one, with that anchor's text; and there is one link for each such
    anchor, so a link that occurs twice in the page is listed twice. *)
Theorem extract_links_partition (domain url : string)
    (anchors : list DataExtractor.Anchor) (links : DataExtractor.Links) :
  DataExtractor.extract_links W domain anchors url = inr links →
  Forall (λ l, same_domain W domain (DataExtractor.link_url l))
    (DataExtractor.internal links)
  ∧ Forall (λ l, ∃ parsed, urlparse W (DataExtractor.link_url l) = inr parsed
                           ∧ netloc parsed ≠ domain)
      (DataExtractor.external links)
  ∧ (length (DataExtractor.internal links) + length (DataExtractor.external links)
     = length (kept_anchors anchors))%nat
  ∧ Forall (λ l, ∃ a, a ∈ kept_anchors anchors
                      ∧ urljoin W url (DataExtractor.a_href a)
                        = inr (DataExtractor.link_url l)
                      ∧ DataExtractor.link_text l = DataExtractor.a_text a)
      (DataExtractor.internal links ++ DataExtractor.external links).
Proof.
  intros Hrun. unfold DataExtractor.extract_links in Hrun.
  destruct (extract_links_from_spec _ _ _ _ _ Hrun)
    as (inside & outside & Hi & Ho & Hin & Hout & Hlen & Hfrom).
  cbn [DataExtractor.internal DataExtractor.external app] in Hi, Ho.
  rewrite Hi, Ho. auto.
Qed.

End Extractor.

(** ** Sample runs of the properties above *)

Lemma crawl_sleeps_between_pages_witness :
  let run := PoliteCrawler.crawl_rounds Sample.two_pages None
               (PoliteCrawler.setup_folders Sample.two_pages)
               (PoliteCrawler.process_page Sample.two_pages)
               (fresh ∅ (sample_crawler 10)) in
  Forall (λ prev, prev = Some (EvSleep (3 # 2)))
    (tail (page_predecessors None (trace (env run.2)))).
Proof.
  apply (crawl_sleeps_between_pages Sample.two_pages Sample.seed 10 (3 # 2) tt
           (sample_crawler 10) ∅ None).
  vm_compute; reflexivity.
Defined.

Lemma crawl_request_discipline_witness :
  let run := PoliteCrawler.crawl_rounds connection_refused None
               (PoliteCrawler.setup_folders connection_refused)
               (PoliteCrawler.process_page connection_refused)
               (fresh ∅ (sample_crawler 10)) in
  (∀ url stream timeout, EvGet url stream timeout ∈ trace (env run.2) → timeout = 10)
  ∧ (∀ u, (page_requests u (trace (env run.2)) <= 3)%nat)
  ∧ (∀ u, u ∉ processed (trace (env run.2)) → page_requests u (trace (env run.2)) = O).
Proof.
  apply (crawl_request_discipline connection_refused Sample.seed 10 (3 # 2) tt
           (sample_crawler 10) ∅ None).
  vm_compute; reflexivity.
Defined.

Lemma crawl_obeys_robots_witness :
  let run := PoliteCrawler.crawl_rounds private_area None
               (PoliteCrawler.setup_folders private_area)
               (PoliteCrawler.process_page private_area)
               (fresh ∅ (sample_crawler 10)) in
  fetched (trace (env run.2)) = ["https://example.test/"; "https://example.test/a"]
  ∧ ∀ url timeout,
      EvGet url false timeout ∈ trace (env run.2) →
      PoliteCrawler.can_fetch url run.2 = (Ok true, run.2).
Proof.
  cbv zeta. split; [vm_compute; reflexivity |].
  apply (crawl_obeys_robots private_area Sample.seed 10 (3 # 2) tt
           (sample_crawler 10) ∅ None).
  vm_compute; reflexivity.
Defined.

Lemma crawl_stays_on_domain_witness :
  let run := PoliteCrawler.crawl_rounds Sample.two_pages (Some 1%nat)
               (PoliteCrawler.setup_folders Sample.two_pages)
               (PoliteCrawler.process_page Sample.two_pages)
               (fresh ∅ (sample_crawler 10)) in
  PoliteCrawler.url_queue (self run.2) = ["https://example.test/a"]
  ∧ ∀ u, u ∈ processed (trace (env run.2)) ++ PoliteCrawler.url_queue (self run.2) →
         u = Sample.seed
         ∨ (Py.has_char "#" u = false ∧ in_scope Sample.two_pages "example.test" u).
Proof.
  cbv zeta. split; [vm_compute; reflexivity |].
  apply (crawl_stays_on_domain Sample.two_pages Sample.seed 10 (3 # 2) tt
           (sample_crawler 10) ∅ (Some 1%nat)).
  vm_compute; reflexivity.
Defined.

Lemma find_internal_links_spec_witness :
  let s := fresh ∅ (sample_crawler 10) in
  let soup := Sample.page ["/a"; "https://other.test/"; "mailto:team@example.test"; "/b#top"]
                [] [] in
  let links := ["https://example.test/a"; "https://example.test/b"] in
  PoliteCrawler.find_internal_links Sample.two_pages Sample.seed soup s
  = (Ok links, after_links 2 s)
  ∧ ∀ link, link ∈ links →
            (link ∉ PoliteCrawler.visited_urls (self s))
            ∧ Py.has_char "#" link = false
            ∧ ∃ href, href ∈ soup_anchors soup
                      ∧ link_of Sample.two_pages Sample.seed "example.test" href link.
Proof.
  cbv zeta. split; [vm_compute; reflexivity |].
  apply (find_internal_links_spec Sample.two_pages Sample.seed
           (Sample.page ["/a"; "https://other.test/"; "mailto:team@example.test"; "/b#top"]
              [] [])
           (fresh ∅ (sample_crawler 10))
           ["https://example.test/a"; "https://example.test/b"]
           (after_links 2 (fresh ∅ (sample_crawler 10)))).
  vm_compute; reflexivity.
Defined.

Lemma download_asset_counts_a_fresh_file_witness :
  let s := sample_forbidden in
  let run := PoliteCrawler.download_asset (always_status 200)
               "https://example.test/img/logo.png?v=2" "example.test/assets/images"
               "image" s in
  run.1 = Ok (Some "logo.png")
  ∧ ∃ (k : nat) (r : Response),
      (1 <= k <= 3)%nat
      ∧ attempt (always_status 200) (requests_made (trace (env s)) + (k - 1))
          "https://example.test/img/logo.png?v=2" = inr r
      ∧ trace (env run.2)
        = trace (env s)
          ++ retry_schedule "https://example.test/img/logo.png?v=2" true k
          ++ [EvOpen "example.test/assets/images/logo.png"]
          ++ (EvWrite "example.test/assets/images/logo.png" <$> chunks r)
          ++ [EvLog INFO (DownloadedAsset "image" "logo.png" (total_len (chunks r)))]
      ∧ fs (env run.2) = {["example.test/assets/images/logo.png"]} ∪ fs (env s)
      ∧ CrawlerStats.assets_downloaded (PoliteCrawler.stats (self run.2))
        = CrawlerStats.assets_downloaded (PoliteCrawler.stats (self s)) + 1
      ∧ CrawlerStats.total_bytes (PoliteCrawler.stats (self run.2))
        = CrawlerStats.total_bytes (PoliteCrawler.stats (self s)) + total_len (chunks r)
      ∧ CrawlerStats.errors (PoliteCrawler.stats (self run.2))
        = CrawlerStats.errors (PoliteCrawler.stats (self s)).
Proof.
  cbv zeta. split; [vm_compute; reflexivity |].
  apply (download_asset_counts_a_fresh_file (always_status 200)
           "https://example.test/img/logo.png?v=2" "example.test/assets/images" "image"
           "logo.png" sample_forbidden).
  - vm_compute. reflexivity.
  - vm_compute. set_solver.
Defined.


Lemma process_page_survives_the_parser_witness :
  let s := (PoliteCrawler.check_robots_txt unparsable (fresh ∅ (sample_crawler 10))).2 in
  PoliteCrawler.process_page unparsable Sample.seed s
  = (Ok [],
     with_error Sample.seed (OtherException "parser failure")
       (after_events
          [EvLog INFO (ProcessingPage Sample.seed); EvGet Sample.seed false 10;
           EvLog ERROR (ErrorProcessingPage Sample.seed "parser failure")] s)).
Proof.
  apply (process_page_survives_the_parser unparsable Sample.seed
           (Sample.response 200 [] "<html") (OtherException "parser failure")
           (PoliteCrawler.check_robots_txt unparsable (fresh ∅ (sample_crawler 10))).2);
    vm_compute; reflexivity.
Defined.

Lemma robots_rules_are_followed_witness :
  ∃ s1, PoliteCrawler.check_robots_txt private_area (fresh ∅ (sample_crawler 10))
        = (Ok tt, s1)
        ∧ ∀ url, PoliteCrawler.can_fetch url s1
                 = (Ok (negb (Py.contains "/private" url)), s1).
Proof.
  apply (robots_rules_are_followed private_area "https://example.test/robots.txt"
           {| scheme := "https"; netloc := "example.test"; path := "/robots.txt";
              params := ""; query := ""; fragment := "" |}
           (fresh ∅ (sample_crawler 10))); try (vm_compute; reflexivity).
  vm_compute. discriminate.
Defined.

Lemma setup_folders_creates_the_table_witness :
  let s1 := (PoliteCrawler.setup_folders Sample.two_pages (fresh ∅ (sample_crawler 10))).2 in
  PoliteCrawler.folders (self s1) = list_to_map (folder_table "example.test")
  ∧ ∀ key p, PoliteCrawler.folders (self s1) !! key = Some p → p ∈ fs (env s1).
Proof.
  apply (setup_folders_creates_the_table Sample.two_pages (fresh ∅ (sample_crawler 10))).
  vm_compute; reflexivity.
Defined.

Lemma crawl_saves_its_results_witness :
  let run := PoliteCrawler.crawl Sample.two_pages (fresh ∅ (sample_crawler 10)) in
  PoliteCrawler.keep_crawling (self run.2) = false
  ∧ CrawlerStats.end_time (PoliteCrawler.stats (self run.2)) ≠ None
  ∧ last (trace (env run.2)) = Some EvPrintSummary
  ∧ ∃ m root,
      PoliteCrawler.metadata (PoliteCrawler.results (self run.2)) = Some m
      ∧ PoliteCrawler.md_start_url m = Sample.seed
      ∧ PoliteCrawler.md_domain m = "example.test"
      ∧ PoliteCrawler.md_stats m = CrawlerStats.to_dict (PoliteCrawler.stats (self run.2))
      ∧ PoliteCrawler.folders (self run.2) !! "root" = Some root
      ∧ Py.path_join root "crawl_results.json" ∈ fs (env run.2).
Proof.
  apply (crawl_saves_its_results Sample.two_pages Sample.seed 10 (3 # 2) tt
           (sample_crawler 10) ∅); vm_compute; reflexivity.
Defined.

Lemma industrial_page_budget_witness :
  let run := IndustrialCrawler.crawl double_link 5 (fresh ∅ sample_industrial) in
  IndustrialCrawler.stats_pages (self run.2) <= 50
  ∧ Z.of_nat (length (IndustrialCrawler.extracted_data (self run.2)))
    = IndustrialCrawler.stats_pages (self run.2)
  ∧ sublist (IndustrialCrawler.extracted_data (self run.2)) (fetched (trace (env run.2)))
  ∧ NoDup (IndustrialCrawler.extracted_data (self run.2))
  ∧ (∀ data, run.1 = Ok data →
             data = IndustrialCrawler.extracted_data (self run.2)
             ∧ IndustrialCrawler.keep_crawling (self run.2) = false).
Proof.
  apply (industrial_page_budget double_link Sample.seed 50 (1 # 2) false
           sample_industrial ∅ 5%nat); [vm_compute; reflexivity | lia].
Defined.


Lemma industrial_visited_is_requested_witness :
  let run := IndustrialCrawler.crawl double_link 5 (fresh ∅ sample_industrial) in
  fetched (trace (env run.2)) = ["https://example.test/"; "https://example.test/a"]
  ∧ ∀ u, u ∈ IndustrialCrawler.visited_urls (self run.2) ↔ u ∈ fetched (trace (env run.2)).
Proof.
  cbv zeta. split; [vm_compute; reflexivity |].
  apply (industrial_visited_is_requested double_link Sample.seed 50 (1 # 2) false
           sample_industrial ∅ 5%nat).
  vm_compute; reflexivity.
Defined.

Lemma industrial_stays_on_domain_witness :
  let run := IndustrialCrawler.crawl Sample.two_pages 1 (fresh ∅ sample_industrial) in
  IndustrialCrawler.url_queue (self run.2)
  = ["https://example.test/a"; "https://example.test/a#top"]
  ∧ ∀ u, u ∈ fetched (trace (env run.2)) ++ IndustrialCrawler.url_queue (self run.2) →
         u = Sample.seed ∨ same_domain Sample.two_pages "example.test" u.
Proof.
  cbv zeta. split; [vm_compute; reflexivity |].
  apply (industrial_stays_on_domain Sample.two_pages Sample.seed 50 (1 # 2) false
           sample_industrial ∅ 1%nat).
  vm_compute; reflexivity.
Defined.

Lemma check_sensitive_files_probes_every_file_witness :
  ∃ s' new,
    SecurityCrawler.check_sensitive_files exposed_env sample_line sample_auditor = (Ok tt, s')
    ∧ length (requests (trace (env s'))) = 25%nat
    ∧ findings SecurityCrawler.critical s' = new
    ∧ (length new <= 25)%nat.
Proof.
  destruct (check_sensitive_files_probes_every_file exposed_env sample_line sample_auditor)
    as (s' & new & Hrun & Hreq & Hlen & _ & _ & Hcrit & Hnew & _).
  - apply Forall_forall.
    repeat (constructor; [eexists; vm_compute; reflexivity |]). constructor.
  - exists s', new. split; [exact Hrun |].
    split; [rewrite Hreq, length_app, length_fmap, Hlen; reflexivity |].
    split; [exact Hcrit | exact Hnew].
Defined.

Lemma extract_links_partition_witness :
  let links :=
    {| DataExtractor.internal :=
         [ {| DataExtractor.link_url := "https://example.test/a";
              DataExtractor.link_text := "A" |};
           {| DataExtractor.link_url := "https://example.test/a";
              DataExtractor.link_text := "A again" |} ];
       DataExtractor.external :=
         [ {| DataExtractor.link_url := "https://other.test/";
              DataExtractor.link_text := "Other" |} ] |} in
  DataExtractor.extract_links Sample.two_pages "example.test" sample_anchors Sample.seed
  = inr links
  ∧ Forall (λ l, same_domain Sample.two_pages "example.test" (DataExtractor.link_url l))
      (DataExtractor.internal links)
  ∧ (length (DataExtractor.internal links) + length (DataExtractor.external links)
     = length (kept_anchors sample_anchors))%nat.
Proof.
  cbv zeta. split; [vm_compute; reflexivity |].
  destruct (extract_links_partition Sample.two_pages "example.test" Sample.seed
              sample_anchors
              {| DataExtractor.internal :=
                   [ {| DataExtractor.link_url := "https://example.test/a";
                        DataExtractor.link_text := "A" |};
                     {| DataExtractor.link_url := "https://example.test/a";
                        DataExtractor.link_text := "A again" |} ];
                 DataExtractor.external :=
                   [ {| DataExtractor.link_url := "https://other.test/";
                        DataExtractor.link_text := "Other" |} ] |})
    as (Hin & _ & Hlen & _).
  - vm_compute; reflexivity.
  - split; [exact Hin | exact Hlen].
Defined.
